(** * Keithley SMU sweep control: a shallow embedding of [MPPT.py] and [sweep.py]

    The two applications drive a Keithley 2401 source-measure unit through a
    voltage (or current) sweep.  The embedding keeps the parts of the Python
    sources that carry state and control flow:

    - the setpoint sequence ([np.linspace]),
    - the instrument configuration ([setupIV]),
    - the sweep loops ([voltage_sweep], [IVsweep]) with their per-point
      exception handling and the abort flag,
    - the maximum-power-point search ([find_mppt_point],
      [plot_analysis_data]).

    Conventions.

    - Python floats are modelled by exact rationals [Q]: rounding, infinities
      and NaN are outside the model.  Equality of computed numbers is [Qeq].
    - Library calls whose result the sources do not determine are fields of an
      environment record [Env]: text-to-number conversion, number formatting,
      [np.exp], the random generator, the instrument behind the VISA handle
      and the user clicking Abort while Qt processes events.
    - Every method is a state transformer that either returns or raises; the
      state reached when an exception is raised is kept, because the writes
      and appends done before the exception are not undone in Python.
    - Drawing on the matplotlib canvas and [print] do not touch the state that
      is modelled and are left out, except for the marker of the maximum
      power point, which is kept as an event. *)

From Stdlib Require Import List String Ascii Bool Arith ZArith QArith Lia Lqa.
From Stdlib Require Import DecimalString.
Import ListNotations.

Local Open Scope string_scope.
Local Open Scope list_scope.
Local Open Scope Q_scope.

(** ** Python and numpy built-ins *)

(** The exception classes the sources raise or catch. *)
Inductive Exn : Type :=
| ValueError
| AttributeError
| IndexError
| VisaIOError.

(** [isinstance(e, ValueError)], for the [except ValueError] clauses. *)
Definition is_ValueError (e : Exn) : bool :=
  match e with
  | ValueError => true
  | _ => false
  end.

(** [x < y] on numbers. *)
Definition Qlt_bool (x y : Q) : bool := negb (Qle_bool y x).

(** The ASCII characters for which [str.isspace] holds. *)
Definition is_space (c : ascii) : bool :=
  let n := nat_of_ascii c in
  ((9 <=? n) && (n <=? 13) || (28 <=? n) && (n <=? 32))%nat.

Fixpoint lstrip (s : string) : string :=
  match s with
  | EmptyString => EmptyString
  | String c rest => if is_space c then lstrip rest else s
  end.

Fixpoint rstrip (s : string) : string :=
  match s with
  | EmptyString => EmptyString
  | String c rest =>
      match rstrip rest with
      | EmptyString => if is_space c then EmptyString else String c EmptyString
      | kept => String c kept
      end
  end.

(** [s.strip()] *)
Definition strip (s : string) : string := rstrip (lstrip s).

(** [s.split(sep)] for a one-character separator: never the empty list. *)
Fixpoint split (sep : ascii) (s : string) : list string :=
  match s with
  | EmptyString => [EmptyString]
  | String c rest =>
      if Ascii.eqb c sep then EmptyString :: split sep rest
      else match split sep rest with
           | [] => [String c EmptyString]
           | field :: fields => String c field :: fields
           end
  end.

(** The truth value of a string: [if text:]. *)
Definition nonempty (s : string) : bool :=
  match s with
  | EmptyString => false
  | String _ _ => true
  end.

(** The double quote, for the SCPI commands that contain one. *)
Definition dquote : string := String (ascii_of_nat 34) EmptyString.

(** [np.arange(0, num)] as floats. *)
Definition np_arange (num : Z) : list Q :=
  map (fun i => inject_Z (Z.of_nat i)) (seq 0 (Z.to_nat num)).

(** [y[-1] = v] on a non-empty array; an empty one is left as it is (numpy
    would raise, [np_linspace] never gets there). *)
Definition set_last (y : list Q) (v : Q) : list Q :=
  match y with
  | [] => []
  | _ :: _ => removelast y ++ [v]
  end.

(** [np.linspace(start, stop, num)] with the default [endpoint=True], after
    numpy's [function_base.linspace]: [None] is the [ValueError] raised for a
    negative [num].

<<
    div = num - 1
    delta = stop - start
    y = arange(0, num)
    if div > 0:
        step = delta / div
        if step == 0: y /= div; y *= delta
        else:         y *= step
    else:
        y = y * delta
    y += start
    if num > 1: y[-1] = stop
>> *)
Definition np_linspace (start stop : Q) (num : Z) : option (list Q) :=
  if (num <? 0)%Z then None
  else
    let div := (num - 1)%Z in
    let delta := stop - start in
    let y := np_arange num in
    let y :=
      if (0 <? div)%Z then
        let step := delta / inject_Z div in
        if Qeq_bool step 0
        then map (fun x => x / inject_Z div * delta) y
        else map (fun x => x * step) y
      else map (fun x => x * delta) y in
    let y := map (fun x => x + start) y in
    Some (if (1 <? num)%Z then set_last y stop else y).

(** The scan of [np.argmax] over a non-empty array: [best] is the running
    maximum, [best_idx] its index, [i] the index of the head of [rest].  The
    index moves only when an element is strictly greater. *)
Fixpoint argmax_from (best : Q) (best_idx i : nat) (rest : list Q) : nat :=
  match rest with
  | [] => best_idx
  | x :: rest' =>
      if Qle_bool x best
      then argmax_from best best_idx (S i) rest'
      else argmax_from x i (S i) rest'
  end.

(** [np.argmax(a)]: [None] is the [ValueError] for an empty sequence. *)
Definition np_argmax (a : list Q) : option nat :=
  match a with
  | [] => None
  | x :: rest => Some (argmax_from x 0%nat 1%nat rest)
  end.

(** A sequence that never decreases, resp. never increases, along its
    positions. *)
Definition nondecreasing (l : list Q) : Prop :=
  forall i j a b, (i <= j)%nat ->
    nth_error l i = Some a -> nth_error l j = Some b -> a <= b.

Definition nonincreasing (l : list Q) : Prop :=
  forall i j a b, (i <= j)%nat ->
    nth_error l i = Some a -> nth_error l j = Some b -> b <= a.

(** The exact value of the i-th of [num] evenly spaced points from [start]
    to [stop]; what [np_linspace] computes is compared with it. *)
Definition ramp (start stop : Q) (num : Z) (i : nat) : Q :=
  start + inject_Z (Z.of_nat i) * (stop - start) / inject_Z (num - 1).

(** What the specification asks of the maximum power point of the samples
    held as three parallel sequences: [(v, c, p)] is the sample at some
    position [i], no sample has more power, and every sample before position
    [i] has strictly less. *)
Definition is_mpp (voltages currents powers : list Q) (v c p : Q) : Prop :=
  exists i,
    nth_error voltages i = Some v /\
    nth_error currents i = Some c /\
    nth_error powers i = Some p /\
    (forall j q, nth_error powers j = Some q -> q <= p) /\
    (forall j q, (j < i)%nat -> nth_error powers j = Some q -> q < p).

(** [v * c] position by position. *)
Definition products (voltages currents : list Q) : list Q :=
  map (fun vc => fst vc * snd vc) (combine voltages currents).

(** ** Effects *)

(** What goes over the VISA handle, in the order of the calls. *)
Inductive IOop : Type :=
| Write (cmd : string)
| Query (cmd : string)
| Close.

(** What the operator sees: log lines, the status label and message boxes.
    A line built by an f-string that interpolates numbers or an exception is a
    constructor carrying those values; constant text is kept as text. *)
Inductive UiEvent : Type :=
| Log (text : string)
| LogStart (start stop : Q) (points : Z) (delay : Q)
| LogProgress (done total : nat) (voltage : Q)
| LogError (context : string) (e : Exn)
| LogPointError (voltage : Q) (e : Exn)
| LogMpp (voltage current power : Q)
| LogCompleted (n : nat)
| Status (text : string)
| StatusProgress (done total : nat) (voltage : Q)
| StatusMpp (voltage current power : Q)
| StatusError (context : string) (e : Exn)
| MarkMpp (voltage current power : Q)
| Info (title text : string)
| Warning (title text : string)
| Critical (title context : string) (e : Exn).

(** The surroundings of a run. *)
Record Env : Type := mkEnv {
  (** [float(text)]: [None] is [ValueError]. *)
  py_float : string -> option Q;
  (** [int(text)]: [None] is [ValueError]. *)
  py_int : string -> option Z;
  (** [f"{x}"] for a float. *)
  str_float : Q -> string;
  (** [np.exp]. *)
  np_exp : Q -> Q;
  (** The k-th value drawn by [np.random.normal(0, 0.01)]. *)
  np_random_normal : nat -> Q;
  (** Whether the instrument accepts a [write], given what went over the
      handle before: [false] is a [VisaIOError]. *)
  instr_write : list IOop -> string -> bool;
  (** The answer to a [query], given what went over the handle before:
      [None] is a [VisaIOError] (a timeout, for one). *)
  instr_query : list IOop -> string -> option string;
  (** Whether the operator's click on Abort is delivered by the
      [processEvents] call of the sweep iteration with this index. *)
  abort_clicked : nat -> bool
}.

(** The rest of the VISA library: opening a resource and closing a handle.
    [None] is success, [Some e] the exception raised. *)
Record Visa : Type := mkVisa {
  (** [rm.open_resource(name)] *)
  visa_open : string -> option Exn;
  (** [handle.close()], given what went over the handle before *)
  visa_close : list IOop -> option Exn
}.

(** The outcome of a method on state [S]: a value, or an exception, each with
    the state reached. *)
Inductive Res (S A : Type) : Type :=
| Ok (a : A) (s : S)
| Raise (e : Exn) (s : S).

Arguments Ok {S A} a s.
Arguments Raise {S A} e s.

Definition M (S A : Type) : Type := S -> Res S A.

Definition ret {S A : Type} (a : A) : M S A := fun s => Ok a s.

Definition bind {S A B : Type} (m : M S A) (k : A -> M S B) : M S B :=
  fun s =>
    match m s with
    | Ok a s' => k a s'
    | Raise e s' => Raise e s'
    end.

Definition raise {S A : Type} (e : Exn) : M S A := fun s => Raise e s.

Definition get {S : Type} : M S S := fun s => Ok s s.

Definition modify {S : Type} (f : S -> S) : M S unit := fun s => Ok tt (f s).

(** [try: body  except <handles> as e: handler e]. *)
Definition try_except {S A : Type}
    (body : M S A) (handles : Exn -> bool) (handler : Exn -> M S A) : M S A :=
  fun s =>
    match body s with
    | Ok a s' => Ok a s'
    | Raise e s' => if handles e then handler e s' else Raise e s'
    end.

(** [except Exception]. *)
Definition any_exception (e : Exn) : bool := true.

Definition state_of {S A : Type} (r : Res S A) : S :=
  match r with
  | Ok _ s => s
  | Raise _ s => s
  end.

Definition raised {S A : Type} (r : Res S A) : bool :=
  match r with
  | Ok _ _ => false
  | Raise _ _ => true
  end.

(** [hoare P m Q]: from a state in [P], [m] ends, returning or raising, in a
    state in [Q]. *)
Definition hoare {S A : Type} (P : S -> Prop) (m : M S A) (Q : S -> Prop)
    : Prop :=
  forall s, P s -> Q (state_of (m s)).

(** [triple P m Q X]: from a state in [P], [m] returns a value and a state in
    [Q], or raises an exception in a state in [X]. *)
Definition triple {S A : Type} (P : S -> Prop) (m : M S A)
    (Q : A -> S -> Prop) (X : Exn -> S -> Prop) : Prop :=
  forall s, P s ->
    match m s with
    | Ok a s' => Q a s'
    | Raise e s' => X e s'
    end.

Declare Scope monad_scope.
Delimit Scope monad_scope with monad.

Notation "x <- c ;; k" := (bind c (fun x => k))
  (at level 100, c at next level, right associativity) : monad_scope.
Notation "c ;; k" := (bind c (fun _ => k))
  (at level 100, right associativity) : monad_scope.

Local Open Scope monad_scope.

(** [time.sleep(seconds)]: the wait itself is not modelled, the [ValueError]
    for a negative length is. *)
Definition sleep {S : Type} (seconds : Q) : M S unit :=
  if Qlt_bool seconds 0 then raise ValueError else ret tt.

(** [l[i]] *)
Definition index {S A : Type} (l : list A) (i : nat) : M S A :=
  match nth_error l i with
  | Some x => ret x
  | None => raise IndexError
  end.

(** The terminal status the specification gives a run.  The sources keep no
    such value: it is read off what the run tells the operator. *)
Inductive RunStatus : Type :=
| COMPLETED
| ABORTED
| COMPLETED_WITH_NO_DATA.

Definition is_abort_notice (e : UiEvent) : bool :=
  match e with
  | Info title _ => String.eqb title "Sweep Aborted"
  | _ => false
  end.

Definition is_no_data_notice (e : UiEvent) : bool :=
  match e with
  | Warning title text =>
      String.eqb title "Sweep Error" &&
      String.eqb text "No valid data points were collected during the sweep."
  | _ => false
  end.

(** [ABORTED] when the run showed the "Sweep Aborted" box, else
    [COMPLETED_WITH_NO_DATA] when it showed the no-data warning, else
    [COMPLETED]. *)
Definition run_status (shown : list UiEvent) : RunStatus :=
  if existsb is_abort_notice shown then ABORTED
  else if existsb is_no_data_notice shown then COMPLETED_WITH_NO_DATA
  else COMPLETED.

(** No condition on what the operator has been shown. *)
Definition any_events (shown : list UiEvent) : Prop := True.

(** An event that is neither of the two notices. *)
Definition quiet_event (e : UiEvent) : bool :=
  negb (is_abort_notice e) && negb (is_no_data_notice e).

Definition quiet (shown : list UiEvent) : Prop :=
  forallb quiet_event shown = true.

(** Commands that set a compliance limit, and the command that enables
    the output. *)
Definition is_compliance_cmd (cmd : string) : bool :=
  String.prefix ":SENS:CURR:PROT " cmd || String.prefix ":SENS:VOLT:PROT " cmd.

Definition is_output_on_cmd (cmd : string) : bool := String.eqb cmd ":OUTP ON".

Definition is_compliance (op : IOop) : bool :=
  match op with
  | Write cmd => is_compliance_cmd cmd
  | _ => false
  end.

Definition is_output_on (op : IOop) : bool :=
  match op with
  | Write cmd => is_output_on_cmd cmd
  | _ => false
  end.

(** The two numbers an instrument response holds: its first two
    comma-separated fields, when there are two and both convert. *)
Definition numeric_fields (E : Env) (response : string) : option (Q * Q) :=
  match split "," (strip response) with
  | field0 :: field1 :: _ =>
      match py_float E field0, py_float E field1 with
      | Some x, Some y => Some (x, y)
      | _, _ => None
      end
  | _ => None
  end.

(** In a sequence of operations on the handle, every command that sets a
    compliance limit stands before every command that enables the output. *)
Definition limits_before_output (ops : list IOop) : Prop :=
  forall i j enable limit,
    nth_error ops i = Some enable -> is_output_on enable = true ->
    nth_error ops j = Some limit -> is_compliance limit = true ->
    (j < i)%nat.

(** The same as a check that runs: once a command has enabled the output, no
    command that follows sets a compliance limit. *)
Fixpoint limits_before_output_b (ops : list IOop) : bool :=
  match ops with
  | [] => true
  | op :: rest =>
      if is_output_on op
      then forallb (fun later => negb (is_compliance later)) rest
      else limits_before_output_b rest
  end.

(** No operation of [t] enables the output. *)
Definition no_output_on (t : list IOop) : Prop :=
  forallb (fun op => negb (is_output_on op)) t = true.

(** No operation of [t] sets a compliance limit. *)
Definition no_compliance (t : list IOop) : Prop :=
  forallb (fun op => negb (is_compliance op)) t = true.

Definition limits_first (t : list IOop) : Prop :=
  limits_before_output_b t = true.

(** No condition on what the handle has seen. *)
Definition anything (t : list IOop) : Prop := True.

Definition is_output_off (op : IOop) : bool :=
  match op with
  | Write cmd => String.eqb cmd ":OUTP OFF"
  | _ => false
  end.

(** No operation of [t] switches the output off. *)
Definition no_output_off (t : list IOop) : Prop :=
  forallb (fun op => negb (is_output_off op)) t = true.

(** In a sequence of operations on the handle, every command that enables the
    output has the operation [limit] somewhere before it. *)
Definition limit_precedes_output (limit : IOop) (ops : list IOop) : Prop :=
  forall i enable,
    nth_error ops i = Some enable -> is_output_on enable = true ->
    exists j, (j < i)%nat /\ nth_error ops j = Some limit.

(** The operation [limit] is in [t], and no operation that stands before it
    enables the output. *)
Definition limit_sent_first (limit : IOop) (t : list IOop) : Prop :=
  exists pre post, t = pre ++ limit :: post /\ no_output_on pre.

(** The output has not been enabled, or it has been after [limit]. *)
Definition limit_guards_output (limit : IOop) (t : list IOop) : Prop :=
  no_output_on t \/ limit_sent_first limit t.

(** The two kinds of compliance command, each on its own. *)
Definition is_current_limit (op : IOop) : bool :=
  match op with
  | Write cmd => String.prefix ":SENS:CURR:PROT " cmd
  | _ => false
  end.

Definition is_voltage_limit (op : IOop) : bool :=
  match op with
  | Write cmd => String.prefix ":SENS:VOLT:PROT " cmd
  | _ => false
  end.

(** No operation of [t] sets the current limit. *)
Definition no_current_limit (t : list IOop) : Prop :=
  forallb (fun op => negb (is_current_limit op)) t = true.

(** No operation of [t] sets the voltage limit. *)
Definition no_voltage_limit (t : list IOop) : Prop :=
  forallb (fun op => negb (is_voltage_limit op)) t = true.

Definition is_close (op : IOop) : bool :=
  match op with
  | Close => true
  | _ => false
  end.

(** No operation of [t] closes the handle. *)
Definition no_close (t : list IOop) : Prop :=
  forallb (fun op => negb (is_close op)) t = true.

(** The first operation of [t] is [op]. *)
Definition starts_with (op : IOop) (t : list IOop) : Prop :=
  exists rest, t = op :: rest.

(** ** [MPPT.py]: class [MPPTSweepApp] *)

Module MPPT.

(** The attributes of the object that the modelled methods read or write.
    [keithley] is whether [self.keithley] holds a handle; the widgets are kept
    by what they hold. *)
Record App : Type := mkApp {
  keithley : bool;
  abort_sweep : bool;
  simulation_mode : bool;
  voltages : list Q;
  currents : list Q;
  powers : list Q;
  start_voltage : string;
  stop_voltage : string;
  points_input : string;
  delay_input : string;
  max_current_input : string;
  four_wire_check : bool;
  (** what went over the handle so far *)
  io : list IOop;
  (** what the operator was shown so far *)
  ui : list UiEvent;
  (** how many random values were drawn so far *)
  rng : nat
}.

Definition set_keithley (b : bool) (st : App) : App :=
  mkApp b (abort_sweep st) (simulation_mode st)
        (voltages st) (currents st) (powers st)
        (start_voltage st) (stop_voltage st) (points_input st) (delay_input st)
        (max_current_input st) (four_wire_check st) (io st) (ui st) (rng st).

Definition set_abort_sweep (b : bool) (st : App) : App :=
  mkApp (keithley st) b (simulation_mode st)
        (voltages st) (currents st) (powers st)
        (start_voltage st) (stop_voltage st) (points_input st) (delay_input st)
        (max_current_input st) (four_wire_check st) (io st) (ui st) (rng st).

Definition set_voltages (l : list Q) (st : App) : App :=
  mkApp (keithley st) (abort_sweep st) (simulation_mode st)
        l (currents st) (powers st)
        (start_voltage st) (stop_voltage st) (points_input st) (delay_input st)
        (max_current_input st) (four_wire_check st) (io st) (ui st) (rng st).

Definition set_currents (l : list Q) (st : App) : App :=
  mkApp (keithley st) (abort_sweep st) (simulation_mode st)
        (voltages st) l (powers st)
        (start_voltage st) (stop_voltage st) (points_input st) (delay_input st)
        (max_current_input st) (four_wire_check st) (io st) (ui st) (rng st).

Definition set_powers (l : list Q) (st : App) : App :=
  mkApp (keithley st) (abort_sweep st) (simulation_mode st)
        (voltages st) (currents st) l
        (start_voltage st) (stop_voltage st) (points_input st) (delay_input st)
        (max_current_input st) (four_wire_check st) (io st) (ui st) (rng st).

Definition set_io (l : list IOop) (st : App) : App :=
  mkApp (keithley st) (abort_sweep st) (simulation_mode st)
        (voltages st) (currents st) (powers st)
        (start_voltage st) (stop_voltage st) (points_input st) (delay_input st)
        (max_current_input st) (four_wire_check st) l (ui st) (rng st).

Definition set_ui (l : list UiEvent) (st : App) : App :=
  mkApp (keithley st) (abort_sweep st) (simulation_mode st)
        (voltages st) (currents st) (powers st)
        (start_voltage st) (stop_voltage st) (points_input st) (delay_input st)
        (max_current_input st) (four_wire_check st) (io st) l (rng st).

Definition set_rng (k : nat) (st : App) : App :=
  mkApp (keithley st) (abort_sweep st) (simulation_mode st)
        (voltages st) (currents st) (powers st)
        (start_voltage st) (stop_voltage st) (points_input st) (delay_input st)
        (max_current_input st) (four_wire_check st) (io st) (ui st) k.

Definition set_simulation_mode (b : bool) (st : App) : App :=
  mkApp (keithley st) (abort_sweep st) b
        (voltages st) (currents st) (powers st)
        (start_voltage st) (stop_voltage st) (points_input st) (delay_input st)
        (max_current_input st) (four_wire_check st) (io st) (ui st) (rng st).

Section WithEnv.

Variable E : Env.

Definition show (e : UiEvent) : M App unit :=
  modify (fun st => set_ui (ui st ++ [e]) st).

(** [self.add_log(text)] *)
Definition add_log (text : string) : M App unit := show (Log text).

(** [self.keithley.write(cmd)]: [AttributeError] when there is no handle. *)
Definition write (cmd : string) : M App unit :=
  fun st =>
    if keithley st then
      let st' := set_io (io st ++ [Write cmd]) st in
      if instr_write E (io st) cmd then Ok tt st' else Raise VisaIOError st'
    else Raise AttributeError st.

(** [self.keithley.query(cmd)] *)
Definition query (cmd : string) : M App string :=
  fun st =>
    if keithley st then
      let st' := set_io (io st ++ [Query cmd]) st in
      match instr_query E (io st) cmd with
      | Some response => Ok response st'
      | None => Raise VisaIOError st'
      end
    else Raise AttributeError st.

(** [float(text)] *)
Definition float (text : string) : M App Q :=
  match py_float E text with
  | Some x => ret x
  | None => raise ValueError
  end.

(** [int(text)] *)
Definition int (text : string) : M App Z :=
  match py_int E text with
  | Some n => ret n
  | None => raise ValueError
  end.

(** [np.random.normal(0, 0.01)] *)
Definition random_normal : M App Q :=
  fun st => Ok (np_random_normal E (rng st)) (set_rng (S (rng st)) st).

Definition abort_sweep_func : M App unit :=
  modify (set_abort_sweep true);;
  add_log "User requested sweep abort";;
  show (Status "Aborting sweep...").

(** [QApplication.processEvents()] in iteration [idx] of the sweep: the one
    event that matters to the sweep is the click on the Abort button. *)
Definition processEvents (idx : nat) : M App unit :=
  if abort_clicked E idx then abort_sweep_func else ret tt.

Definition setupIV : M App bool :=
  st <- get;;
  if simulation_mode st then
    add_log "Simulating IV setup";;
    ret true
  else
    try_except
      (write ":SOUR:FUNC VOLT";;
       write (":SENS:FUNC " ++ dquote ++ "CURR" ++ dquote);;
       add_log "Set instrument to voltage source, current measure mode";;
       (if four_wire_check st then
          write ":SYST:RSEN ON";;
          add_log "Enabled 4-wire sensing"
        else
          write ":SYST:RSEN OFF";;
          add_log "Using 2-wire sensing");;
       write ":ROUT:TERM FRONT";;
       add_log "Set to use front terminals";;
       let max_current := strip (max_current_input st) in
       (if nonempty max_current then
          write (":SENS:CURR:PROT " ++ max_current);;
          add_log ("Set current compliance to " ++ max_current ++ "A")
        else ret tt);;
       write ":OUTP ON";;
       add_log "Turned output ON";;
       write ":SOUR:VOLT 0";;
       add_log "Set initial voltage to 0V";;
       ret true)
      any_exception
      (fun e =>
         show (LogError "Error in setupIV" e);;
         show (Critical "Setup Error" "Failed to setup Keithley" e);;
         show (StatusError "Setup Error" e);;
         ret false).

(** The synthetic solar-cell reading of the simulation branch of
    [voltage_sweep], for the setpoint [voltage] of a sweep that ends at
    [stop]: the current. *)
Definition simulate (voltage stop : Q) : M App Q :=
  let isc := 0.5 in
  let voc := stop * 0.8 in
  let vt := 0.6 in
  if Qle_bool voc voltage then ret 0
  else
    noise <- random_normal;;
    let current := isc * (1 - np_exp E ((voltage - voc) / vt)) + noise in
    if Qlt_bool current 0 then ret 0 else ret current.

(** The reading of the hardware branch of [voltage_sweep]: the pair
    [(measured_voltage, measured_current)]. *)
Definition measure (voltage delay : Q) : M App (Q * Q) :=
  write (":SOUR:VOLT " ++ str_float E voltage);;
  sleep delay;;
  response <- query ":READ?";;
  let values := split "," (strip response) in
  if (2 <=? List.length values)%nat then
    measured_voltage <- float (nth 0 values "");;
    raw_current <- float (nth 1 values "");;
    ret (measured_voltage, raw_current * -1)
  else raise ValueError.

(** The body of the [try] of one iteration of [voltage_sweep]. *)
Definition sweep_point (stop delay : Q) (total_points idx : nat) (voltage : Q)
    : M App unit :=
  show (StatusProgress (idx + 1) total_points voltage);;
  (if (idx mod 5 =? 0)%nat
   then show (LogProgress (idx + 1) total_points voltage)
   else ret tt);;
  processEvents idx;;
  st <- get;;
  reading <-
    (if simulation_mode st then
       current <- simulate voltage stop;;
       sleep (delay / 10);;
       ret (voltage, current)
     else measure voltage delay);;
  let measured_voltage := fst reading in
  let measured_current := snd reading in
  let power := measured_voltage * measured_current in
  modify (fun st => set_voltages (voltages st ++ [measured_voltage]) st);;
  modify (fun st => set_currents (currents st ++ [measured_current]) st);;
  modify (fun st => set_powers (powers st ++ [power]) st).

(** One iteration of the [for] loop of [voltage_sweep]: the abort check, then
    the [try] with its [except Exception].  [true] is [break]. *)
Definition sweep_iteration (stop delay : Q) (total_points idx : nat)
    (voltage : Q) : M App bool :=
  st <- get;;
  if abort_sweep st then
    add_log "Sweep aborted by user";;
    show (Info "Sweep Aborted" "The sweep was aborted.");;
    ret true
  else
    try_except
      (sweep_point stop delay total_points idx voltage)
      any_exception
      (fun e => show (LogPointError voltage e));;
    ret false.

(** [for idx, voltage in enumerate(sweep_values)], from index [idx] on. *)
Fixpoint sweep_loop (stop delay : Q) (total_points idx : nat)
    (sweep_values : list Q) : M App unit :=
  match sweep_values with
  | [] => ret tt
  | voltage :: rest =>
      stopped <- sweep_iteration stop delay total_points idx voltage;;
      if stopped then ret tt
      else sweep_loop stop delay total_points (S idx) rest
  end.

Definition find_mppt_point : M App unit :=
  st <- get;;
  match powers st with
  | [] => ret tt
  | _ :: _ =>
      match np_argmax (powers st) with
      | None => raise ValueError
      | Some max_power_idx =>
          max_power <- index (powers st) max_power_idx;;
          mpp_voltage <- index (voltages st) max_power_idx;;
          mpp_current <- index (currents st) max_power_idx;;
          show (LogMpp mpp_voltage mpp_current max_power);;
          show (StatusMpp mpp_voltage mpp_current max_power);;
          show (MarkMpp mpp_voltage mpp_current max_power)
      end
  end.

(** The end of [voltage_sweep], first half: the output is zeroed and turned
    off, on the hardware path only. *)
Definition shutdown_output : M App unit :=
  st <- get;;
  if negb (simulation_mode st) then
    try_except
      (write ":SOUR:VOLT 0";;
       write ":OUTP OFF";;
       add_log "Sweep complete. Output turned OFF")
      any_exception
      (fun e => show (LogError "Error turning off output" e))
  else ret tt.

(** The end of [voltage_sweep], second half: the maximum power point when
    there are samples, the no-data warning when there are none. *)
Definition report_sweep : M App unit :=
  st <- get;;
  if (0 <? List.length (voltages st))%nat then
    find_mppt_point;;
    show (LogCompleted (List.length (voltages st)))
  else
    add_log "Sweep completed but no valid data points were collected";;
    show (Warning "Sweep Error"
            "No valid data points were collected during the sweep.").

Definition voltage_sweep (start stop : Q) (points : Z) (delay : Q)
    : M App unit :=
  match np_linspace start stop points with
  | None => raise ValueError
  | Some sweep_values =>
      modify (set_voltages []);;
      modify (set_currents []);;
      modify (set_powers []);;
      let total_points := List.length sweep_values in
      sweep_loop stop delay total_points 0 sweep_values;;
      shutdown_output;;
      report_sweep
  end.

Definition start_sweep : M App unit :=
  st <- get;;
  if negb (keithley st) && negb (simulation_mode st) then
    show (Warning "Error" "Please initialize the Keithley first.")
  else
    try_except
      (modify (set_abort_sweep false);;
       start <- float (start_voltage st);;
       stop <- float (stop_voltage st);;
       points <- int (points_input st);;
       delay <- float (delay_input st);;
       show (LogStart start stop points delay);;
       ready <- (if simulation_mode st then ret true else setupIV);;
       if ready then
         show (Status "Running sweep...");;
         voltage_sweep start stop points delay;;
         show (Status "Sweep completed.")
       else ret tt)
      any_exception
      (fun e =>
         if is_ValueError e then
           show (LogError "Input error in start_sweep" e);;
           show (Warning "Input Error"
                   "Please enter valid numeric values for all parameters.")
         else
           show (LogError "Error in start_sweep" e);;
           show (Critical "Sweep Error" "Error during sweep" e);;
           show (StatusError "Sweep Error" e)).

(** The MPP part of [plot_analysis_data], which redoes the search of
    [find_mppt_point] on the loaded data. *)
Definition plot_analysis_data : M App unit :=
  st <- get;;
  match voltages st, currents st with
  | [], _ | _, [] => ret tt
  | _ :: _, _ :: _ =>
      match np_argmax (powers st) with
      | None => raise ValueError
      | Some max_power_idx =>
          max_power <- index (powers st) max_power_idx;;
          mpp_voltage <- index (voltages st) max_power_idx;;
          mpp_current <- index (currents st) max_power_idx;;
          show (MarkMpp mpp_voltage mpp_current max_power);;
          add_log "Analysis plot updated with loaded data"
      end
  end.

Variable V : Visa.

(** [self.keithley.close()] *)
Definition close : M App unit :=
  fun st =>
    let st' := set_io (io st ++ [Close]) st in
    match visa_close V (io st) with
    | None => Ok tt st'
    | Some e => Raise e st'
    end.

(** The handle is released when the window closes, and when the application
    is switched to simulation mode. *)
Definition closeEvent : M App unit :=
  try_except
    (st <- get;;
     if keithley st then
       add_log
         "Closing application - turning off output and closing connection";;
       write ":OUTP OFF";;
       close
     else ret tt)
    any_exception
    (fun e => show (LogError "Error closing Keithley connection" e)).

Definition toggle_simulation_mode : M App unit :=
  modify (fun st => set_simulation_mode (negb (simulation_mode st)) st);;
  st <- get;;
  (if simulation_mode st then
     show (Status "SIMULATION MODE ON - No hardware control");;
     add_log
       "Switched to simulation mode - hardware commands will be simulated"
   else
     show (Status "SIMULATION MODE OFF - Will attempt real hardware control");;
     add_log
       "Switched to hardware mode - will attempt to control real hardware");;
  if simulation_mode st && keithley st then
    try_except
      (close;;
       modify (set_keithley false);;
       add_log "Closed existing hardware connection")
      any_exception
      (fun e => show (LogError "Error closing connection" e))
  else ret tt.

(** What a run showed the operator: the part of [ui] added since [before]. *)
Definition shown (before after : App) : list UiEvent :=
  skipn (List.length (ui before)) (ui after).

(** What a run sent over the handle: the part of [io] added since [before]. *)
Definition sent (before after : App) : list IOop :=
  skipn (List.length (io before)) (io after).

(** The state in which [start_sweep] calls [setupIV], once the four inputs
    have been converted. *)
Definition configuring (start stop : Q) (points : Z) (delay : Q) (st : App)
    : App :=
  set_ui (ui st ++ [LogStart start stop points delay])
    (set_abort_sweep false st).

(** The state in which [start_sweep] calls [voltage_sweep], from the state
    [st1] in which the configuration ended. *)
Definition running (st1 : App) : App :=
  set_ui (ui st1 ++ [Status "Running sweep..."]) st1.

(** The state in which [voltage_sweep] enters its loop: the three lists
    cleared. *)
Definition cleared (st : App) : App :=
  set_powers [] (set_currents [] (set_voltages [] st)).

(** The state of a run of [voltage_sweep] from [st] over [sweep_values] once
    the first [j] iterations are done (or the loop has left before that). *)
Definition after_iterations (stop delay : Q) (sweep_values : list Q)
    (st : App) (j : nat) : App :=
  state_of
    (sweep_loop stop delay (List.length sweep_values) 0
       (firstn j sweep_values) (cleared st)).

(** Whether the [try] of iteration [j] of that run raises. *)
Definition point_fails (stop delay : Q) (sweep_values : list Q)
    (st : App) (j : nat) : bool :=
  match nth_error sweep_values j with
  | Some voltage =>
      raised
        (sweep_point stop delay (List.length sweep_values) j voltage
           (after_iterations stop delay sweep_values st j))
  | None => false
  end.

(** Since [s0], the handle has seen the operations [t] and nothing else, and
    [P t] holds. *)
Definition io_since (P : list IOop -> Prop) (s0 s : App) : Prop :=
  exists t, io s = io s0 ++ t /\ P t.

(** Since [s0], the operator has been shown the events [t] and nothing else,
    and [P t] holds. *)
Definition ui_since (P : list UiEvent -> Prop) (s0 s : App) : Prop :=
  exists t, ui s = ui s0 ++ t /\ P t.

(** The Max Current field holds what it held in [s0], and since [s0] the
    handle has seen operations [t] with [P t]. *)
Definition setting_since (P : list IOop -> Prop) (s0 s : App) : Prop :=
  max_current_input s = max_current_input s0 /\ io_since P s0 s.

(** The application is in simulation mode, and the handle is as it was in
    [s0]: held or not, and with nothing sent over it since. *)
Definition simulating (s0 s : App) : Prop :=
  simulation_mode s = true /\ io s = io s0 /\ keithley s = keithley s0.

(** What [shutdown_output] sends from the state [st]: nothing in simulation
    mode or without a handle; else the zeroing, and the switching off if the
    zeroing was accepted. *)
Definition shutdown_ops (st : App) : list IOop :=
  if simulation_mode st then []
  else if keithley st then
    if instr_write E (io st) ":SOUR:VOLT 0"
    then [Write ":SOUR:VOLT 0"; Write ":OUTP OFF"]
    else [Write ":SOUR:VOLT 0"]
  else [].

(** The abort flag is down, and since [s0] the operator has seen neither
    the abort box nor the no-data warning. *)
Definition running_quietly (s0 s : App) : Prop :=
  abort_sweep s = false /\ ui_since quiet s0 s.

(** The handle and the mode are those of [s0]. *)
Definition same_mode (s0 s : App) : Prop :=
  keithley s = keithley s0 /\ simulation_mode s = simulation_mode s0.

(** The three lists are those of [s0]. *)
Definition same_data (s0 s : App) : Prop :=
  voltages s = voltages s0 /\
  currents s = currents s0 /\
  powers s = powers s0.

(** The three lists are those of [s0] with one sample appended, whose power
    is the product of its voltage and its current. *)
Definition one_sample_more (s0 s : App) : Prop :=
  exists v c,
    voltages s = voltages s0 ++ [v] /\
    currents s = currents s0 ++ [c] /\
    powers s = powers s0 ++ [v * c].

(** The three lists have one length. *)
Definition lengths_agree (st : App) : Prop :=
  List.length (voltages st) = List.length (currents st) /\
  List.length (currents st) = List.length (powers st).

(** The invariant of the sweep: three lists of one length, each power the
    product of the voltage and the current at its position. *)
Definition sample_invariant (st : App) : Prop :=
  lengths_agree st /\ powers st = products (voltages st) (currents st).

End WithEnv.

End MPPT.

(** ** [sweep.py]: class [SweepApp] *)

Module Sweep.

Record App : Type := mkApp {
  keithley : bool;
  abort_sweep : bool;
  voltage_sweep_radio : bool;
  four_wire_radio : bool;
  rear_terminal_radio : bool;
  start_input : string;
  stop_input : string;
  points_input : string;
  delay_input : string;
  max_current_input : string;
  max_voltage_input : string;
  (** what went over the handle so far *)
  io : list IOop;
  (** what the operator was shown so far *)
  ui : list UiEvent
}.

Definition set_keithley (b : bool) (st : App) : App :=
  mkApp b (abort_sweep st)
        (voltage_sweep_radio st) (four_wire_radio st) (rear_terminal_radio st)
        (start_input st) (stop_input st) (points_input st) (delay_input st)
        (max_current_input st) (max_voltage_input st) (io st) (ui st).

Definition set_abort_sweep (b : bool) (st : App) : App :=
  mkApp (keithley st) b
        (voltage_sweep_radio st) (four_wire_radio st) (rear_terminal_radio st)
        (start_input st) (stop_input st) (points_input st) (delay_input st)
        (max_current_input st) (max_voltage_input st) (io st) (ui st).

Definition set_io (l : list IOop) (st : App) : App :=
  mkApp (keithley st) (abort_sweep st)
        (voltage_sweep_radio st) (four_wire_radio st) (rear_terminal_radio st)
        (start_input st) (stop_input st) (points_input st) (delay_input st)
        (max_current_input st) (max_voltage_input st) l (ui st).

Definition set_ui (l : list UiEvent) (st : App) : App :=
  mkApp (keithley st) (abort_sweep st)
        (voltage_sweep_radio st) (four_wire_radio st) (rear_terminal_radio st)
        (start_input st) (stop_input st) (points_input st) (delay_input st)
        (max_current_input st) (max_voltage_input st) (io st) l.

Section WithEnv.

Variable E : Env.

Definition show (e : UiEvent) : M App unit :=
  modify (fun st => set_ui (ui st ++ [e]) st).

(** [self.keithley.write(cmd)]: [AttributeError] when there is no handle. *)
Definition write (cmd : string) : M App unit :=
  fun st =>
    if keithley st then
      let st' := set_io (io st ++ [Write cmd]) st in
      if instr_write E (io st) cmd then Ok tt st' else Raise VisaIOError st'
    else Raise AttributeError st.

(** [self.keithley.query(cmd)] *)
Definition query (cmd : string) : M App string :=
  fun st =>
    if keithley st then
      let st' := set_io (io st ++ [Query cmd]) st in
      match instr_query E (io st) cmd with
      | Some response => Ok response st'
      | None => Raise VisaIOError st'
      end
    else Raise AttributeError st.

(** [float(text)] *)
Definition float (text : string) : M App Q :=
  match py_float E text with
  | Some x => ret x
  | None => raise ValueError
  end.

(** [int(text)] *)
Definition int (text : string) : M App Z :=
  match py_int E text with
  | Some n => ret n
  | None => raise ValueError
  end.

Definition abort_sweep_func : M App unit := modify (set_abort_sweep true).

Definition setupIV : M App unit :=
  st <- get;;
  (if voltage_sweep_radio st then
     write ":SOUR:FUNC VOLT";;
     write (":SENS:FUNC " ++ dquote ++ "CURR" ++ dquote)
   else
     write ":SOUR:FUNC CURR";;
     write (":SENS:FUNC " ++ dquote ++ "VOLT" ++ dquote));;
  (if four_wire_radio st
   then write ":SYST:RSEN ON"
   else write ":SYST:RSEN OFF");;
  (if rear_terminal_radio st
   then write ":ROUT:TERM REAR"
   else write ":ROUT:TERM FRONT");;
  let max_current := strip (max_current_input st) in
  (if nonempty max_current
   then write (":SENS:CURR:PROT " ++ max_current)
   else ret tt);;
  let max_voltage := strip (max_voltage_input st) in
  (if nonempty max_voltage
   then write (":SENS:VOLT:PROT " ++ max_voltage)
   else ret tt);;
  write ":OUTP ON".

(** The [try] of one iteration of [IVsweep]: the pair [(voltage, current)]
    read back, [(0, 0)] for a response of fewer than two fields and for a
    field that is not a number. *)
Definition read_point : M App (Q * Q) :=
  try_except
    (response <- query ":MEAS?";;
     let values := split "," (strip response) in
     if (1 <? List.length values)%nat then
       voltage <- float (nth 0 values "");;
       current <- float (nth 1 values "");;
       ret (voltage, current)
     else ret (0, 0))
    is_ValueError
    (fun _ => ret (0, 0)).

(** One setpoint of [IVsweep], after the abort check: drive, wait, read,
    append.  [voltages] and [currents] are the two local lists; the value is
    the pair after the appends. *)
Definition sweep_point (delay value : Q) (voltages currents : list Q)
    : M App (list Q * list Q) :=
  st <- get;;
  (if voltage_sweep_radio st
   then write (":SOUR:VOLT " ++ str_float E value)
   else write (":SOUR:CURR " ++ str_float E value));;
  sleep delay;;
  reading <- read_point;;
  let voltage := fst reading in
  let current := snd reading in
  ret (voltages ++ [voltage], currents ++ [- current]).

(** [for value in sweep_values] of [IVsweep]; the value is the pair of local
    lists as they stand when the loop ends. *)
Fixpoint sweep_loop (delay : Q) (sweep_values : list Q)
    (voltages currents : list Q) : M App (list Q * list Q) :=
  match sweep_values with
  | [] => ret (voltages, currents)
  | value :: rest =>
      st <- get;;
      if abort_sweep st then
        show (Info "Sweep Aborted" "The sweep was aborted.");;
        ret (voltages, currents)
      else
        data <- sweep_point delay value voltages currents;;
        sweep_loop delay rest (fst data) (snd data)
  end.

(** [IVsweep]: the value is the pair of lists that goes to the CSV file and
    to the static plot. *)
Definition IVsweep (start stop : Q) (points : Z) (delay : Q)
    : M App (list Q * list Q) :=
  match np_linspace start stop points with
  | None => raise ValueError
  | Some sweep_values =>
      data <- sweep_loop delay sweep_values [] [];;
      write ":OUTP OFF";;
      ret data
  end.

Definition start_sweep : M App (list Q * list Q) :=
  modify (set_abort_sweep false);;
  st <- get;;
  start <- float (start_input st);;
  stop <- float (stop_input st);;
  points <- int (points_input st);;
  delay <- float (delay_input st);;
  setupIV;;
  IVsweep start stop points delay.

Variable V : Visa.

(** [self.rm.open_resource(name)], assigned to [self.keithley]. *)
Definition open_resource (name : string) : M App unit :=
  fun st =>
    match visa_open V name with
    | None => Ok tt (set_keithley true st)
    | Some e => Raise e st
    end.

(** [self.keithley.close()] *)
Definition close : M App unit :=
  fun st =>
    let st' := set_io (io st ++ [Close]) st in
    match visa_close V (io st) with
    | None => Ok tt st'
    | Some e => Raise e st'
    end.

(** [initialize_keithley], given the text of the address field. *)
Definition initialize_keithley (gpib_address_input : string) : M App unit :=
  let gpib_address := strip gpib_address_input in
  if negb (nonempty gpib_address) then
    show (Warning "Error" "Please enter a GPIB address.")
  else
    try_except
      (open_resource ("GPIB0::" ++ gpib_address ++ "::INSTR");;
       write "*RST";;
       show (Info "Success" "Keithley 2401 initialized successfully."))
      any_exception
      (fun e => show (Critical "Error" "Failed to initialize Keithley 2401" e)).

Definition closeEvent : M App unit :=
  st <- get;;
  if keithley st then close else ret tt.

(** What a run showed the operator: the part of [ui] added since [before]. *)
Definition shown (before after : App) : list UiEvent :=
  skipn (List.length (ui before)) (ui after).

(** What a run sent over the handle: the part of [io] added since [before]. *)
Definition sent (before after : App) : list IOop :=
  skipn (List.length (io before)) (io after).

(** Since [s0], the handle has seen the operations [t] and nothing else, and
    [P t] holds. *)
Definition io_since (P : list IOop -> Prop) (s0 s : App) : Prop :=
  exists t, io s = io s0 ++ t /\ P t.

(** Since [s0], the operator has been shown the events [t] and nothing else,
    and [P t] holds. *)
Definition ui_since (P : list UiEvent -> Prop) (s0 s : App) : Prop :=
  exists t, ui s = ui s0 ++ t /\ P t.

(** The Max Current and Max Voltage fields hold what they held in [s0], and
    since [s0] the handle has seen operations [t] with [P t]. *)
Definition setting_since (P : list IOop -> Prop) (s0 s : App) : Prop :=
  max_current_input s = max_current_input s0 /\
  max_voltage_input s = max_voltage_input s0 /\
  io_since P s0 s.

(** The state in which [start_sweep] calls [setupIV]. *)
Definition configuring (st : App) : App := set_abort_sweep false st.

(** The abort flag is down and the operator has been shown nothing since
    [s0]. *)
Definition undisturbed (s0 s : App) : Prop :=
  abort_sweep s = false /\ ui s = ui s0.

End WithEnv.

End Sweep.

(** ** A bench for concrete runs *)

(** A small surrounding in which runs can be evaluated: numbers are written
    as optionally signed decimal integers, the instrument accepts every
    write, and it answers every query with [" 2,-3 "] except the second
    query it receives, which it answers with ["garbage"]. *)
Module Bench.

Fixpoint digits (acc : Z) (s : string) : option Z :=
  match s with
  | EmptyString => Some acc
  | String c rest =>
      let n := nat_of_ascii c in
      if ((48 <=? n) && (n <=? 57))%nat
      then digits (10 * acc + Z.of_nat (n - 48)) rest
      else None
  end.

Definition int_of_string (text : string) : option Z :=
  match strip text with
  | EmptyString => None
  | String "-" EmptyString => None
  | String "-" rest => option_map Z.opp (digits 0 rest)
  | s => digits 0 s
  end.

Definition float_of_string (text : string) : option Q :=
  option_map inject_Z (int_of_string text).

(** Numbers are printed as fractions, which is enough to tell the commands
    of two setpoints apart. *)
Definition string_of_float (x : Q) : string :=
  let q := Qred x in
  (NilZero.string_of_int (Z.to_int (Qnum q)) ++ "/" ++
   NilZero.string_of_uint (Pos.to_uint (Qden q)))%string.

(** A rational stand-in for the exponential: positive, 1 at 0. *)
Definition exp_approx (x : Q) : Q :=
  if Qle_bool 0 x then 1 + x + x * x / 2
  else 1 / (1 - x + x * x / 2).

Definition queries_so_far (history : list IOop) : nat :=
  List.length (filter (fun op => match op with Query _ => true | _ => false end)
                 history).

Definition answer (history : list IOop) (cmd : string) : option string :=
  if (queries_so_far history =? 1)%nat then Some "garbage" else Some " 2,-3 ".

Definition env : Env :=
  mkEnv float_of_string int_of_string string_of_float exp_approx
    (fun _ => 0) (fun _ _ => true) answer (fun _ => false).

(** [MPPTSweepApp] connected to the instrument, set up for three points
    from 0 V to 4 V. *)
Definition mppt : MPPT.App :=
  MPPT.mkApp true false false [] [] [] "0" "4" "3" "0" "0.1" false [] [] 0.

(** The same in simulation mode, without a handle. *)
Definition mppt_simulated : MPPT.App :=
  MPPT.mkApp false false true [] [] [] "0" "4" "3" "0" "0.1" false [] [] 0.

(** The same asked for one point only. *)
Definition mppt_one_point : MPPT.App :=
  MPPT.mkApp true false false [] [] [] "0" "4" "1" "0" "0.1" false [] [] 0.

(** [SweepApp] connected to the instrument, voltage sweep, two wires, front
    terminals, three points from 0 V to 4 V. *)
Definition sweep : Sweep.App :=
  Sweep.mkApp true false true false false "0" "4" "3" "0" "0.1" "" [] [].

(** [MPPTSweepApp] with the Max Current field cleared. *)
Definition mppt_no_limit : MPPT.App :=
  MPPT.mkApp true false false [] [] [] "0" "4" "3" "0" "" false [] [] 0.

(** [SweepApp] with the Max Current and Max Voltage fields as the window
    opens: empty. *)
Definition sweep_no_limit : Sweep.App :=
  Sweep.mkApp true false true false false "0" "4" "3" "0" "" "" [] [].

(** [SweepApp] with both limits entered. *)
Definition sweep_two_limits : Sweep.App :=
  Sweep.mkApp true false true false false "0" "4" "3" "0" "0.1" "20" [] [].

(** The three setpoints from 0 V to 4 V, as [np_linspace 0 4 3] computes
    them. *)
Definition setpoints : list Q := [0 # 2; 4 # 2; 4].

(** The same surrounding with an instrument whose second answer never
    comes: the query times out. *)
Definition timeout_on_second (history : list IOop) (cmd : string)
    : option string :=
  if (queries_so_far history =? 1)%nat then None else Some " 2,-3 ".

Definition flaky_env : Env :=
  mkEnv float_of_string int_of_string string_of_float exp_approx
    (fun _ => 0) (fun _ _ => true) timeout_on_second (fun _ => false).

(** The same surrounding with an operator who clicks Abort while the first
    point is taken. *)
Definition impatient_env : Env :=
  mkEnv float_of_string int_of_string string_of_float exp_approx
    (fun _ => 0) (fun _ _ => true) answer (fun idx => (idx =? 0)%nat).

(** The same surrounding with an operator who clicks Abort while the last
    of three points is taken. *)
Definition late_env : Env :=
  mkEnv float_of_string int_of_string string_of_float exp_approx
    (fun _ => 0) (fun _ _ => true) answer (fun idx => (idx =? 2)%nat).

(** A VISA library that opens and closes without fail. *)
Definition visa : Visa := mkVisa (fun _ => None) (fun _ => None).

(** A VISA library in which opening works and closing fails. *)
Definition visa_stuck : Visa :=
  mkVisa (fun _ => None) (fun _ => Some VisaIOError).

(** Loaded data with two samples of the same, maximal power. *)
Definition mppt_tie : MPPT.App :=
  MPPT.set_powers [0; 6; 6; 3]
    (MPPT.set_currents [5; 3; 2; 3 # 4]
       (MPPT.set_voltages [0; 2; 3; 4] mppt)).

End Bench.

(** * Properties *)

(** ** The setpoint sequence *)

Lemma nth_error_np_arange (num : Z) (i : nat) :
  (i < Z.to_nat num)%nat ->
  nth_error (np_arange num) i = Some (inject_Z (Z.of_nat i)).
Proof.
  intros Hi. unfold np_arange.
  rewrite nth_error_map, nth_error_seq.
  destruct (Nat.ltb_spec i (Z.to_nat num)); [reflexivity | lia].
Qed.

Lemma length_np_arange (num : Z) : List.length (np_arange num) = Z.to_nat num.
Proof. unfold np_arange. now rewrite length_map, length_seq. Qed.

Lemma nth_error_set_last_front (y : list Q) (v : Q) (i : nat) :
  (S i < List.length y)%nat -> nth_error (set_last y v) i = nth_error y i.
Proof.
  intros Hi. destruct y as [|a y']; [simpl in Hi; lia|].
  unfold set_last. rewrite nth_error_app1.
  - rewrite removelast_firstn_len, nth_error_firstn.
    destruct (Nat.ltb_spec i (Nat.pred (List.length (a :: y')))); [reflexivity|lia].
  - rewrite removelast_firstn_len, length_firstn. lia.
Qed.

Lemma nth_error_set_last_back (y : list Q) (v : Q) :
  y <> [] -> nth_error (set_last y v) (List.length y - 1) = Some v.
Proof.
  intros Hy. destruct y as [|a y']; [congruence|].
  unfold set_last. rewrite nth_error_app2.
  - rewrite removelast_firstn_len, length_firstn.
    replace (_ - _)%nat with 0%nat by lia. reflexivity.
  - rewrite removelast_firstn_len, length_firstn. lia.
Qed.

Lemma length_set_last (y : list Q) (v : Q) :
  List.length (set_last y v) = List.length y.
Proof.
  destruct y as [|a y']; [reflexivity|].
  unfold set_last. rewrite length_app, removelast_firstn_len, length_firstn.
  simpl. lia.
Qed.

Lemma np_linspace_some (start stop : Q) (num : Z) :
  (0 <= num)%Z -> exists vs, np_linspace start stop num = Some vs /\
                             List.length vs = Z.to_nat num.
Proof.
  intros Hnum. unfold np_linspace.
  destruct (Z.ltb_spec num 0); [lia|].
  eexists; split; [reflexivity|].
  destruct (1 <? num)%Z; rewrite ?length_set_last, length_map;
    destruct (0 <? num - 1)%Z; [destruct (Qeq_bool _ _)| |destruct (Qeq_bool _ _)|];
    now rewrite length_map, length_np_arange.
Qed.

Lemma np_linspace_nth (start stop : Q) (num : Z) (vs : list Q) (i : nat) :
  (2 <= num)%Z ->
  np_linspace start stop num = Some vs ->
  (i < Z.to_nat num)%nat ->
  exists x, nth_error vs i = Some x /\ x == ramp start stop num i.
Proof.
  intros Hnum Hvs Hi. unfold np_linspace in Hvs.
  destruct (Z.ltb_spec num 0); [lia|].
  destruct (Z.ltb_spec 1 num); [|lia].
  destruct (Z.ltb_spec 0 (num - 1)); [|lia].
  injection Hvs as <-.
  assert (Hdiv : ~ inject_Z (num - 1) == 0).
  { unfold Qeq. simpl. lia. }
  destruct (Nat.eq_dec i (Z.to_nat num - 1)) as [->|Hne].
  - exists stop. split.
    + match goal with |- nth_error (set_last ?y _) _ = _ =>
        replace (Z.to_nat num - 1)%nat with (List.length y - 1)%nat;
        [apply nth_error_set_last_back|] end.
      * destruct (Qeq_bool _ _); intros Hnil; apply (f_equal (@List.length Q)) in Hnil;
          rewrite !length_map, length_np_arange in Hnil; simpl in Hnil; lia.
      * destruct (Qeq_bool _ _); now rewrite !length_map, length_np_arange.
    + unfold ramp. replace (Z.of_nat (Z.to_nat num - 1)) with (num - 1)%Z by lia.
      field. exact Hdiv.
  - rewrite nth_error_set_last_front.
    + destruct (Qeq_bool _ _) eqn:Hstep;
        rewrite !nth_error_map, nth_error_np_arange by exact Hi; simpl;
        eexists; (split; [reflexivity|]); unfold ramp; field; exact Hdiv.
    + destruct (Qeq_bool _ _); rewrite !length_map, length_np_arange; lia.
Qed.

Lemma ramp_le (start stop : Q) (num : Z) (i j : nat) :
  (2 <= num)%Z -> (i <= j)%nat -> start <= stop ->
  ramp start stop num i <= ramp start stop num j.
Proof.
  intros Hnum Hij Hdir. unfold ramp, Qdiv.
  assert (Hk : 0 < / inject_Z (num - 1)).
  { apply Qinv_lt_0_compat. unfold Qlt. simpl. lia. }
  assert (Hq : inject_Z (Z.of_nat i) <= inject_Z (Z.of_nat j)).
  { rewrite <- Zle_Qle. lia. }
  set (k := / inject_Z (num - 1)) in *.
  set (a := inject_Z (Z.of_nat i)) in *.
  set (b := inject_Z (Z.of_nat j)) in *.
  assert (0 <= (b - a) * (stop - start)) by nra.
  nra.
Qed.

Lemma ramp_ge (start stop : Q) (num : Z) (i j : nat) :
  (2 <= num)%Z -> (i <= j)%nat -> stop <= start ->
  ramp start stop num j <= ramp start stop num i.
Proof.
  intros Hnum Hij Hdir. unfold ramp, Qdiv.
  assert (Hk : 0 < / inject_Z (num - 1)).
  { apply Qinv_lt_0_compat. unfold Qlt. simpl. lia. }
  assert (Hq : inject_Z (Z.of_nat i) <= inject_Z (Z.of_nat j)).
  { rewrite <- Zle_Qle. lia. }
  set (k := / inject_Z (num - 1)) in *.
  set (a := inject_Z (Z.of_nat i)) in *.
  set (b := inject_Z (Z.of_nat j)) in *.
  assert (0 <= (b - a) * (start - stop)) by nra.
  nra.
Qed.

Lemma last_of_nth_error {A : Type} (l : list A) (d x : A) :
  nth_error l (List.length l - 1) = Some x -> last l d = x.
Proof.
  induction l as [|a l IH]; simpl; [discriminate|].
  destruct l as [|b l']; simpl in *; [congruence|].
  rewrite Nat.sub_0_r in *. exact IH.
Qed.

(** C1. For a sweep of at least two points, [np.linspace(start, stop, points)],
    the setpoint sequence that [voltage_sweep] and [IVsweep] compute first,
    returns a sequence of exactly [points] entries; its first entry equals
    [start], its last entry is [stop], and it never decreases when
    [start <= stop] and never increases when [stop < start]. *)
Theorem C1_setpoint_sequence (start stop : Q) (points : Z) :
  (2 <= points)%Z ->
  exists sweep_values first,
    np_linspace start stop points = Some sweep_values /\
    List.length sweep_values = Z.to_nat points /\
    nth_error sweep_values 0 = Some first /\ first == start /\
    last sweep_values start = stop /\
    (start <= stop -> nondecreasing sweep_values) /\
    (stop < start -> nonincreasing sweep_values).
Proof.
  intros Hpoints.
  destruct (np_linspace_some start stop points) as (vs & Hvs & Hlen); [lia|].
  destruct (np_linspace_nth start stop points vs 0 Hpoints Hvs)
    as (first & Hfirst & Hval); [lia|].
  assert (Hlast : nth_error vs (List.length vs - 1) = Some stop).
  { pose proof Hvs as Hdef. unfold np_linspace in Hdef.
    destruct (Z.ltb_spec points 0); [lia|].
    destruct (Z.ltb_spec 1 points); [|lia].
    injection Hdef as <-. rewrite length_set_last.
    apply nth_error_set_last_back. intros Hnil.
    rewrite length_set_last, Hnil in Hlen. simpl in Hlen. lia. }
  assert (Hnth : forall i a, nth_error vs i = Some a ->
                             a == ramp start stop points i).
  { intros i a Ha.
    assert (Hi : (i < Z.to_nat points)%nat).
    { rewrite <- Hlen. apply nth_error_Some. congruence. }
    destruct (np_linspace_nth start stop points vs i Hpoints Hvs Hi)
      as (x & Hx & Hxv).
    congruence. }
  exists vs, first. repeat split; try assumption.
  - rewrite Hval. unfold ramp. simpl. field. unfold Qeq. simpl. lia.
  - now apply last_of_nth_error.
  - intros Hdir i j a b Hij Ha Hb.
    rewrite (Hnth i a Ha), (Hnth j b Hb). now apply ramp_le.
  - intros Hdir i j a b Hij Ha Hb.
    rewrite (Hnth i a Ha), (Hnth j b Hb). apply ramp_ge; [lia|exact Hij|lra].
Qed.

(** ** The maximum power point *)

Lemma argmax_from_spec (rest pre : list Q) (best : Q) (best_idx : nat) :
  nth_error pre best_idx = Some best ->
  (forall j q, nth_error pre j = Some q -> q <= best) ->
  (forall j q, (j < best_idx)%nat -> nth_error pre j = Some q -> q < best) ->
  let r := argmax_from best best_idx (List.length pre) rest in
  exists p,
    nth_error (pre ++ rest) r = Some p /\
    (forall j q, nth_error (pre ++ rest) j = Some q -> q <= p) /\
    (forall j q, (j < r)%nat -> nth_error (pre ++ rest) j = Some q -> q < p).
Proof.
  revert pre best best_idx.
  induction rest as [|x rest IH]; intros pre best best_idx Hbest Hmax Hfirst; simpl.
  - rewrite app_nil_r. exists best. auto.
  - assert (Hlen : List.length (pre ++ [x]) = S (List.length pre)).
    { rewrite length_app. simpl. lia. }
    assert (Hbi : (best_idx < List.length pre)%nat).
    { apply nth_error_Some. congruence. }
    replace (pre ++ x :: rest) with ((pre ++ [x]) ++ rest)
      by (rewrite <- app_assoc; reflexivity).
    rewrite <- Hlen.
    assert (Hsplit : forall j q, nth_error (pre ++ [x]) j = Some q ->
              nth_error pre j = Some q \/ (j = List.length pre /\ q = x)).
    { intros j q Hj. destruct (Nat.lt_ge_cases j (List.length pre)) as [Hlt|Hge].
      - left. now rewrite nth_error_app1 in Hj.
      - right. rewrite nth_error_app2 in Hj by exact Hge.
        destruct (j - List.length pre)%nat as [|k] eqn:Hk; simpl in Hj.
        + split; [lia|congruence].
        + now destruct k. }
    destruct (Qle_bool x best) eqn:Hcmp.
    + apply Qle_bool_iff in Hcmp. apply IH.
      * rewrite nth_error_app1 by exact Hbi. exact Hbest.
      * intros j q Hj. destruct (Hsplit j q Hj) as [Hin|[_ ->]]; eauto.
      * intros j q Hlt Hj. destruct (Hsplit j q Hj) as [Hin|[-> _]]; [eauto|lia].
    + assert (Hgt : best < x).
      { apply Qnot_le_lt. intros Hle. apply Qle_bool_iff in Hle. congruence. }
      apply IH.
      * rewrite nth_error_app2 by lia. now rewrite Nat.sub_diag.
      * intros j q Hj. destruct (Hsplit j q Hj) as [Hin|[_ ->]].
        -- apply Qlt_le_weak. eapply Qle_lt_trans; [eapply Hmax; eassumption|exact Hgt].
        -- apply Qle_refl.
      * intros j q Hlt Hj. destruct (Hsplit j q Hj) as [Hin|[-> _]]; [|lia].
        eapply Qle_lt_trans; [eapply Hmax; eassumption|exact Hgt].
Qed.

Lemma np_argmax_spec (a : list Q) :
  a <> [] ->
  exists i p,
    np_argmax a = Some i /\
    nth_error a i = Some p /\
    (forall j q, nth_error a j = Some q -> q <= p) /\
    (forall j q, (j < i)%nat -> nth_error a j = Some q -> q < p).
Proof.
  intros Ha. destruct a as [|x rest]; [congruence|].
  destruct (argmax_from_spec rest [x] x 0) as (p & Hp & Hmax & Hfirst).
  - reflexivity.
  - intros [|[|j]] q Hj; simpl in Hj; try discriminate.
    injection Hj as <-. apply Qle_refl.
  - intros j q Hlt. lia.
  - exists (argmax_from x 0 1 rest), p. simpl in *. auto.
Qed.

(** ** Running the methods *)

(** Field updates are unfolded so that a projection of an updated state
    reduces to the field written or to the projection of the old state. *)
Ltac unfold_setters :=
  unfold MPPT.set_keithley, MPPT.set_abort_sweep, MPPT.set_voltages,
    MPPT.set_currents, MPPT.set_powers, MPPT.set_io, MPPT.set_ui, MPPT.set_rng,
    Sweep.set_keithley, Sweep.set_abort_sweep, Sweep.set_io, Sweep.set_ui in *.

Ltac unfold_monad :=
  unfold MPPT.add_log, MPPT.show, Sweep.show,
    bind, ret, raise, get, modify, try_except, index in *.

(** *** Rules for [hoare] *)

Section HoareRules.

Context {S : Type}.

Lemma hoare_ret {A : Type} (I : S -> Prop) (a : A) : hoare I (ret a) I.
Proof. intros s Hs. exact Hs. Qed.

Lemma hoare_raise {A : Type} (I : S -> Prop) (e : Exn) :
  hoare I (@raise S A e) I.
Proof. intros s Hs. exact Hs. Qed.

Lemma hoare_get (I : S -> Prop) : hoare I (@get S) I.
Proof. intros s Hs. exact Hs. Qed.

Lemma hoare_modify (P Q : S -> Prop) (f : S -> S) :
  (forall s, P s -> Q (f s)) -> hoare P (modify f) Q.
Proof. intros Hf s Hs. apply Hf, Hs. Qed.

Lemma hoare_sleep (I : S -> Prop) (seconds : Q) : hoare I (sleep seconds) I.
Proof. intros s Hs. unfold sleep. now destruct (Qlt_bool seconds 0). Qed.

Lemma hoare_index {A : Type} (I : S -> Prop) (l : list A) (i : nat) :
  hoare I (index l i) I.
Proof. intros s Hs. unfold index. now destruct (nth_error l i). Qed.

Lemma hoare_bind {A B : Type} (P Q R : S -> Prop) (m : M S A) (k : A -> M S B) :
  hoare P m Q -> (forall a, hoare Q (k a) R) -> (forall s, Q s -> R s) ->
  hoare P (bind m k) R.
Proof.
  intros Hm Hk Hweak s Hs. unfold bind. specialize (Hm s Hs).
  destruct (m s) as [a s'|e s']; simpl in *.
  - apply Hk, Hm.
  - apply Hweak, Hm.
Qed.

Lemma hoare_bind_inv {A B : Type} (I : S -> Prop) (m : M S A) (k : A -> M S B) :
  hoare I m I -> (forall a, hoare I (k a) I) -> hoare I (bind m k) I.
Proof. intros Hm Hk. apply (hoare_bind I I I); auto. Qed.

Lemma hoare_try_except {A : Type} (P Q : S -> Prop) (body : M S A)
    (handles : Exn -> bool) (handler : Exn -> M S A) :
  hoare P body Q -> (forall e, hoare Q (handler e) Q) ->
  hoare P (try_except body handles handler) Q.
Proof.
  intros Hbody Hh s Hs. unfold try_except. specialize (Hbody s Hs).
  destruct (body s) as [a s'|e s']; simpl in *; [exact Hbody|].
  destruct (handles e); [apply Hh, Hbody|exact Hbody].
Qed.

Lemma hoare_weaken {A : Type} (P P' Q Q' : S -> Prop) (m : M S A) :
  hoare P' m Q' -> (forall s, P s -> P' s) -> (forall s, Q' s -> Q s) ->
  hoare P m Q.
Proof. intros Hm Hpre Hpost s Hs. apply Hpost, Hm, Hpre, Hs. Qed.

Lemma bind_ok {A B : Type} (m : M S A) (k : A -> M S B) (s s' : S) (a : A) :
  m s = Ok a s' -> bind m k s = k a s'.
Proof. intros Hm. unfold bind. now rewrite Hm. Qed.

Lemma bind_raise {A B : Type} (m : M S A) (k : A -> M S B) (s s' : S)
    (e : Exn) :
  m s = Raise e s' -> bind m k s = Raise e s'.
Proof. intros Hm. unfold bind. now rewrite Hm. Qed.

Lemma triple_of_hoare {A : Type} (P Q : S -> Prop) (m : M S A) :
  hoare P m Q -> triple P m (fun _ => Q) (fun _ => Q).
Proof.
  intros Hm s Hs. specialize (Hm s Hs). now destruct (m s).
Qed.

Lemma hoare_of_triple {A : Type} (P Q : S -> Prop) (m : M S A) :
  triple P m (fun _ => Q) (fun _ => Q) -> hoare P m Q.
Proof.
  intros Hm s Hs. specialize (Hm s Hs). now destruct (m s).
Qed.

Lemma triple_bind {A B : Type} (P : S -> Prop) (Q : A -> S -> Prop)
    (R : B -> S -> Prop) (X : Exn -> S -> Prop) (m : M S A) (k : A -> M S B) :
  triple P m Q X -> (forall a, triple (Q a) (k a) R X) ->
  triple P (bind m k) R X.
Proof.
  intros Hm Hk s Hs. unfold bind. specialize (Hm s Hs).
  destruct (m s) as [a s'|e s']; [apply Hk, Hm|exact Hm].
Qed.

Lemma triple_ret {A : Type} (P : S -> Prop) (X : Exn -> S -> Prop) (a : A) :
  triple P (ret a) (fun a' s => a' = a /\ P s) X.
Proof. intros s Hs. simpl. auto. Qed.

Lemma triple_get (P : S -> Prop) (X : Exn -> S -> Prop) :
  triple P get (fun a s => a = s /\ P s) X.
Proof. intros s Hs. simpl. auto. Qed.

Lemma triple_modify (P : S -> Prop) (Q : unit -> S -> Prop)
    (X : Exn -> S -> Prop) (f : S -> S) :
  (forall s, P s -> Q tt (f s)) -> triple P (modify f) Q X.
Proof. intros Hf s Hs. apply Hf, Hs. Qed.

Lemma triple_weaken {A : Type} (P P' : S -> Prop) (Q Q' : A -> S -> Prop)
    (X X' : Exn -> S -> Prop) (m : M S A) :
  triple P' m Q' X' ->
  (forall s, P s -> P' s) -> (forall a s, Q' a s -> Q a s) ->
  (forall e s, X' e s -> X e s) ->
  triple P m Q X.
Proof.
  intros Hm Hpre Hq Hx s Hs. specialize (Hm s (Hpre s Hs)).
  destruct (m s); auto.
Qed.

Lemma hoare_get_bind {B : Type} (P Q : S -> Prop) (k : S -> M S B) :
  (forall st, P st -> hoare P (k st) Q) -> hoare P (bind get k) Q.
Proof. intros Hk s Hs. unfold bind, get. exact (Hk s Hs s Hs). Qed.

Lemma hoare_bind_triple {A B : Type} (P Q R : S -> Prop) (m : M S A)
    (k : A -> M S B) :
  triple P m (fun _ => Q) (fun _ => R) -> (forall a, hoare Q (k a) R) ->
  hoare P (bind m k) R.
Proof.
  intros Hm Hk s Hs. unfold bind. specialize (Hm s Hs).
  destruct (m s) as [a s'|e s']; simpl; [apply Hk, Hm|exact Hm].
Qed.

End HoareRules.

(** *** The primitives of [MPPTSweepApp] *)

Section MPPTPrimitives.

Variable E : Env.
Variable I : MPPT.App -> Prop.

Lemma mppt_hoare_show (e : UiEvent) :
  (forall s, I s -> I (MPPT.set_ui (MPPT.ui s ++ [e]) s)) ->
  hoare I (MPPT.show e) I.
Proof. intros H. apply hoare_modify, H. Qed.

Lemma mppt_hoare_add_log (text : string) :
  (forall s, I s -> I (MPPT.set_ui (MPPT.ui s ++ [Log text]) s)) ->
  hoare I (MPPT.add_log text) I.
Proof. apply mppt_hoare_show. Qed.

Lemma mppt_hoare_write (cmd : string) :
  (forall s, I s -> I (MPPT.set_io (MPPT.io s ++ [Write cmd]) s)) ->
  hoare I (MPPT.write E cmd) I.
Proof.
  intros H s Hs. unfold MPPT.write.
  destruct (MPPT.keithley s); [|exact Hs].
  destruct (instr_write E (MPPT.io s) cmd); apply H, Hs.
Qed.

Lemma mppt_hoare_query (cmd : string) :
  (forall s, I s -> I (MPPT.set_io (MPPT.io s ++ [Query cmd]) s)) ->
  hoare I (MPPT.query E cmd) I.
Proof.
  intros H s Hs. unfold MPPT.query.
  destruct (MPPT.keithley s); [|exact Hs].
  destruct (instr_query E (MPPT.io s) cmd); apply H, Hs.
Qed.

Lemma mppt_hoare_float (text : string) : hoare I (MPPT.float E text) I.
Proof. intros s Hs. unfold MPPT.float. now destruct (py_float E text). Qed.

Lemma mppt_hoare_int (text : string) : hoare I (MPPT.int E text) I.
Proof. intros s Hs. unfold MPPT.int. now destruct (py_int E text). Qed.

Lemma mppt_hoare_random_normal :
  (forall s, I s -> I (MPPT.set_rng (S (MPPT.rng s)) s)) ->
  hoare I (MPPT.random_normal E) I.
Proof. intros H s Hs. apply H, Hs. Qed.

End MPPTPrimitives.

(** *** The primitives of [SweepApp] *)

Section SweepPrimitives.

Variable E : Env.
Variable I : Sweep.App -> Prop.

Lemma sweep_hoare_show (e : UiEvent) :
  (forall s, I s -> I (Sweep.set_ui (Sweep.ui s ++ [e]) s)) ->
  hoare I (Sweep.show e) I.
Proof. intros H. apply hoare_modify, H. Qed.

Lemma sweep_hoare_write (cmd : string) :
  (forall s, I s -> I (Sweep.set_io (Sweep.io s ++ [Write cmd]) s)) ->
  hoare I (Sweep.write E cmd) I.
Proof.
  intros H s Hs. unfold Sweep.write.
  destruct (Sweep.keithley s); [|exact Hs].
  destruct (instr_write E (Sweep.io s) cmd); apply H, Hs.
Qed.

Lemma sweep_hoare_query (cmd : string) :
  (forall s, I s -> I (Sweep.set_io (Sweep.io s ++ [Query cmd]) s)) ->
  hoare I (Sweep.query E cmd) I.
Proof.
  intros H s Hs. unfold Sweep.query.
  destruct (Sweep.keithley s); [|exact Hs].
  destruct (instr_query E (Sweep.io s) cmd); apply H, Hs.
Qed.

Lemma sweep_hoare_float (text : string) : hoare I (Sweep.float E text) I.
Proof. intros s Hs. unfold Sweep.float. now destruct (py_float E text). Qed.

Lemma sweep_hoare_int (text : string) : hoare I (Sweep.int E text) I.
Proof. intros s Hs. unfold Sweep.int. now destruct (py_int E text). Qed.

End SweepPrimitives.

(** Breaks a straight-line method into its primitives, keeping one invariant;
    what is left are the side conditions of the primitives that write a
    field. *)
Ltac hoare_step :=
  match goal with
  | |- hoare _ (bind _ _) _ => apply hoare_bind_inv
  | |- hoare _ (try_except _ _ _) _ => apply hoare_try_except
  | |- hoare _ (ret _) _ => apply hoare_ret
  | |- hoare _ (raise _) _ => apply hoare_raise
  | |- hoare _ get _ => apply hoare_get
  | |- hoare _ (sleep _) _ => apply hoare_sleep
  | |- hoare _ (index _ _) _ => apply hoare_index
  | |- hoare _ (modify _) _ => apply hoare_modify
  | |- hoare _ (MPPT.show _) _ => apply mppt_hoare_show
  | |- hoare _ (MPPT.add_log _) _ => apply mppt_hoare_add_log
  | |- hoare _ (MPPT.write _ _) _ => apply mppt_hoare_write
  | |- hoare _ (MPPT.query _ _) _ => apply mppt_hoare_query
  | |- hoare _ (MPPT.float _ _) _ => apply mppt_hoare_float
  | |- hoare _ (MPPT.int _ _) _ => apply mppt_hoare_int
  | |- hoare _ (MPPT.random_normal _) _ => apply mppt_hoare_random_normal
  | |- hoare _ (Sweep.show _) _ => apply sweep_hoare_show
  | |- hoare _ (Sweep.write _ _) _ => apply sweep_hoare_write
  | |- hoare _ (Sweep.query _ _) _ => apply sweep_hoare_query
  | |- hoare _ (Sweep.float _ _) _ => apply sweep_hoare_float
  | |- hoare _ (Sweep.int _ _) _ => apply sweep_hoare_int
  | |- hoare _ (if ?b then _ else _) _ => destruct b
  | |- hoare _ (match ?x with _ => _ end) _ => destruct x
  | |- forall _, _ => intro
  end.

Ltac hoare_steps := repeat hoare_step.

Lemma skipn_length_app {A : Type} (l added : list A) :
  skipn (List.length l) (l ++ added) = added.
Proof. induction l as [|a l IH]; simpl; auto. Qed.

Lemma mpp_search_spec (st : MPPT.App) :
  MPPT.powers st <> [] ->
  List.length (MPPT.voltages st) = List.length (MPPT.powers st) ->
  List.length (MPPT.currents st) = List.length (MPPT.powers st) ->
  exists v c p st1 st2,
    is_mpp (MPPT.voltages st) (MPPT.currents st) (MPPT.powers st) v c p /\
    MPPT.find_mppt_point st = Ok tt st1 /\
    MPPT.shown st st1 = [LogMpp v c p; StatusMpp v c p; MarkMpp v c p] /\
    MPPT.plot_analysis_data st = Ok tt st2 /\
    MPPT.shown st st2 =
      [MarkMpp v c p; Log "Analysis plot updated with loaded data"].
Proof.
  intros Hne Hlv Hlc.
  destruct (np_argmax_spec (MPPT.powers st) Hne) as (i & p & Harg & Hp & Hmax & Hfirst).
  assert (Hi : (i < List.length (MPPT.powers st))%nat).
  { apply nth_error_Some. congruence. }
  destruct (nth_error (MPPT.voltages st) i) as [v|] eqn:Hv;
    [|apply nth_error_None in Hv; lia].
  destruct (nth_error (MPPT.currents st) i) as [c|] eqn:Hc;
    [|apply nth_error_None in Hc; lia].
  exists v, c, p. do 2 eexists.
  split; [exists i; auto|].
  unfold MPPT.find_mppt_point, MPPT.plot_analysis_data, bind, get, index.
  rewrite Harg, Hp, Hv, Hc.
  destruct (MPPT.powers st) as [|p0 ps] eqn:Hps; [congruence|].
  destruct (MPPT.voltages st) as [|v0 vs] eqn:Hvs; [simpl in Hlv; lia|].
  destruct (MPPT.currents st) as [|c0 cs] eqn:Hcs; [simpl in Hlc; lia|].
  unfold MPPT.shown. unfold_monad. unfold_setters. simpl.
  repeat split; rewrite <- ?app_assoc; apply skipn_length_app.
Qed.

(** C3. On a non-empty sample sequence, held as the three parallel lists,
    the search of [find_mppt_point], and the same search in
    [plot_analysis_data], reports the sample whose power is maximal, the one
    at the earliest position when several samples share that power. *)
Theorem C3_mpp_extraction (st : MPPT.App) :
  MPPT.powers st <> [] ->
  List.length (MPPT.voltages st) = List.length (MPPT.powers st) ->
  List.length (MPPT.currents st) = List.length (MPPT.powers st) ->
  exists v c p st1 st2,
    is_mpp (MPPT.voltages st) (MPPT.currents st) (MPPT.powers st) v c p /\
    MPPT.find_mppt_point st = Ok tt st1 /\
    MPPT.shown st st1 = [LogMpp v c p; StatusMpp v c p; MarkMpp v c p] /\
    MPPT.plot_analysis_data st = Ok tt st2 /\
    MPPT.shown st st2 =
      [MarkMpp v c p; Log "Analysis plot updated with loaded data"].
Proof. exact (mpp_search_spec st). Qed.

(** ** The samples of [voltage_sweep] *)

Ltac same_data_tac :=
  unfold MPPT.same_data in *; unfold_setters; simpl; intuition auto.

Lemma sweep_point_data (E : Env) (stop delay : Q) (total idx : nat) (v : Q)
    (s0 : MPPT.App) :
  triple (MPPT.same_data s0)
    (MPPT.sweep_point E stop delay total idx v)
    (fun _ s' => MPPT.one_sample_more s0 s')
    (fun _ s' => MPPT.same_data s0 s').
Proof.
  unfold MPPT.sweep_point, MPPT.processEvents, MPPT.abort_sweep_func,
    MPPT.simulate, MPPT.measure.
  do 4 (eapply triple_bind;
        [apply triple_of_hoare; hoare_steps; same_data_tac | intros ?]).
  eapply triple_bind;
    [apply triple_of_hoare; hoare_steps; same_data_tac | intros reading].
  intros s Hs. unfold_monad. simpl.
  exists (fst reading), (snd reading). same_data_tac; congruence.
Qed.

Lemma same_data_refl (s : MPPT.App) : MPPT.same_data s s.
Proof. unfold MPPT.same_data. auto. Qed.

(** An iteration never raises; it leaves through [break] exactly when the
    abort flag is set, and it appends one sample to the three lists exactly
    when the flag is not set and the [try] does not raise. *)
Lemma sweep_iteration_data (E : Env) (stop delay : Q) (total idx : nat) (v : Q)
    (s : MPPT.App) :
  exists s',
    MPPT.sweep_iteration E stop delay total idx v s = Ok (MPPT.abort_sweep s) s' /\
    (if MPPT.abort_sweep s || raised (MPPT.sweep_point E stop delay total idx v s)
     then MPPT.same_data s s'
     else MPPT.one_sample_more s s').
Proof.
  unfold MPPT.sweep_iteration. unfold bind at 1. unfold get.
  destruct (MPPT.abort_sweep s) eqn:Habort.
  - eexists. split; [reflexivity|]. simpl. same_data_tac.
  - pose proof (sweep_point_data E stop delay total idx v s s (same_data_refl s))
      as Hpoint.
    unfold bind, try_except.
    destruct (MPPT.sweep_point E stop delay total idx v s) as [[] s1|e s1];
      simpl; eexists; (split; [reflexivity|]).
    + exact Hpoint.
    + same_data_tac.
Qed.

Lemma products_snoc (vs cs : list Q) (v c : Q) :
  List.length vs = List.length cs ->
  products (vs ++ [v]) (cs ++ [c]) = products vs cs ++ [v * c].
Proof.
  unfold products. revert cs.
  induction vs as [|v0 vs IH]; intros [|c0 cs] Hlen; simpl in *;
    try discriminate; [reflexivity|].
  f_equal. apply IH. lia.
Qed.

Lemma sample_invariant_step (s s' : MPPT.App) :
  MPPT.one_sample_more s s' \/ MPPT.same_data s s' ->
  MPPT.sample_invariant s -> MPPT.sample_invariant s'.
Proof.
  unfold MPPT.sample_invariant, MPPT.lengths_agree.
  intros [(v & c & Hv & Hc & Hp)|(Hv & Hc & Hp)] ((Hvc & Hcp) & Hprod);
    rewrite Hv, Hc, Hp.
  - rewrite !length_app, products_snoc by exact Hvc. simpl.
    repeat split; congruence.
  - auto.
Qed.

Lemma sweep_iteration_invariant (E : Env) (stop delay : Q) (total idx : nat)
    (v : Q) :
  hoare MPPT.sample_invariant
    (MPPT.sweep_iteration E stop delay total idx v) MPPT.sample_invariant.
Proof.
  intros s Hs.
  destruct (sweep_iteration_data E stop delay total idx v s) as (s' & -> & Hdata).
  simpl. apply (sample_invariant_step s s'); [|exact Hs].
  destruct (_ || _); auto.
Qed.

(** The loop keeps what every iteration keeps. *)
Lemma sweep_loop_hoare (E : Env) (stop delay : Q) (total : nat)
    (I : MPPT.App -> Prop) :
  (forall idx v, hoare I (MPPT.sweep_iteration E stop delay total idx v) I) ->
  forall vs idx, hoare I (MPPT.sweep_loop E stop delay total idx vs) I.
Proof.
  intros Hiter vs. induction vs as [|v vs IH]; intros idx; simpl.
  - apply hoare_ret.
  - apply hoare_bind_inv; [apply Hiter|].
    intros [|]; [apply hoare_ret|apply IH].
Qed.

(** The loop never raises. *)
Lemma sweep_loop_returns (E : Env) (stop delay : Q) (total : nat) (vs : list Q) :
  forall idx s, exists s', MPPT.sweep_loop E stop delay total idx vs s = Ok tt s'.
Proof.
  induction vs as [|v vs IH]; intros idx s; simpl.
  - eexists. reflexivity.
  - unfold bind at 1.
    destruct (sweep_iteration_data E stop delay total idx v s) as (s1 & -> & _).
    destruct (MPPT.abort_sweep s); [eexists; reflexivity|apply IH].
Qed.

Lemma cleared_invariant (s : MPPT.App) : MPPT.sample_invariant (MPPT.cleared s).
Proof. repeat split. Qed.

Lemma shutdown_output_hoare (E : Env) (I : MPPT.App -> Prop) :
  (forall s op, I s -> I (MPPT.set_io (MPPT.io s ++ [op]) s)) ->
  (forall s e, I s -> I (MPPT.set_ui (MPPT.ui s ++ [e]) s)) ->
  hoare I (MPPT.shutdown_output E) I.
Proof.
  intros Hio Hui. unfold MPPT.shutdown_output. hoare_steps; auto.
Qed.

Lemma shutdown_output_returns (E : Env) (s : MPPT.App) :
  exists s', MPPT.shutdown_output E s = Ok tt s'.
Proof.
  unfold MPPT.shutdown_output, bind at 1, get.
  destruct (negb (MPPT.simulation_mode s)); [|eexists; reflexivity].
  unfold try_except, any_exception.
  match goal with
  | |- context [match ?m s with _ => _ end] => destruct (m s) as [[] s1|e s1]
  end; eexists; reflexivity.
Qed.

Lemma find_mppt_point_hoare (I : MPPT.App -> Prop) :
  (forall s e, I s -> I (MPPT.set_ui (MPPT.ui s ++ [e]) s)) ->
  hoare I MPPT.find_mppt_point I.
Proof.
  intros Hui. unfold MPPT.find_mppt_point. hoare_steps; auto.
Qed.

Lemma report_sweep_hoare (I : MPPT.App -> Prop) :
  (forall s e, I s -> I (MPPT.set_ui (MPPT.ui s ++ [e]) s)) ->
  hoare I MPPT.report_sweep I.
Proof.
  intros Hui. unfold MPPT.report_sweep.
  apply hoare_bind_inv; [apply hoare_get|]. intros st.
  destruct (_ <? _)%nat.
  - apply hoare_bind_inv; [now apply find_mppt_point_hoare|].
    intros _. apply mppt_hoare_show. auto.
  - hoare_steps; auto.
Qed.

Lemma find_mppt_point_returns (s : MPPT.App) :
  MPPT.lengths_agree s -> exists s', MPPT.find_mppt_point s = Ok tt s'.
Proof.
  intros [Hvc Hcp].
  destruct (MPPT.powers s) as [|p0 ps] eqn:Hps.
  - unfold MPPT.find_mppt_point, bind, get. rewrite Hps. eexists. reflexivity.
  - destruct (mpp_search_spec s) as (v & c & p & s1 & _ & _ & -> & _);
      [congruence|congruence|congruence|].
    eexists. reflexivity.
Qed.

Lemma sample_invariant_io (s : MPPT.App) (op : IOop) :
  MPPT.sample_invariant s ->
  MPPT.sample_invariant (MPPT.set_io (MPPT.io s ++ [op]) s).
Proof. auto. Qed.

Lemma sample_invariant_ui (s : MPPT.App) (e : UiEvent) :
  MPPT.sample_invariant s ->
  MPPT.sample_invariant (MPPT.set_ui (MPPT.ui s ++ [e]) s).
Proof. auto. Qed.

Lemma report_sweep_returns (s : MPPT.App) :
  MPPT.lengths_agree s -> exists s', MPPT.report_sweep s = Ok tt s'.
Proof.
  intros Hlen. unfold MPPT.report_sweep, bind at 1, get.
  destruct (_ <? _)%nat.
  - unfold bind at 1.
    destruct (find_mppt_point_returns s Hlen) as (s1 & ->).
    eexists. reflexivity.
  - eexists. reflexivity.
Qed.

(** A run of [voltage_sweep] over a setpoint sequence: the loop from the
    cleared state, the shutdown, the report; none of them raises, and the
    invariant of the samples holds at each stage. *)
Lemma voltage_sweep_stages (E : Env) (start stop : Q) (points : Z) (delay : Q)
    (vs : list Q) (s : MPPT.App) :
  np_linspace start stop points = Some vs ->
  exists s1 s2 s3,
    MPPT.sweep_loop E stop delay (List.length vs) 0 vs (MPPT.cleared s)
      = Ok tt s1 /\
    MPPT.shutdown_output E s1 = Ok tt s2 /\
    MPPT.report_sweep s2 = Ok tt s3 /\
    MPPT.voltage_sweep E start stop points delay s = Ok tt s3 /\
    MPPT.sample_invariant s1 /\
    MPPT.sample_invariant s2 /\
    MPPT.sample_invariant s3.
Proof.
  intros Hvs.
  destruct (sweep_loop_returns E stop delay (List.length vs) vs 0 (MPPT.cleared s))
    as (s1 & Hloop).
  assert (Hinv1 : MPPT.sample_invariant s1).
  { pose proof (sweep_loop_hoare E stop delay (List.length vs) _
                  (sweep_iteration_invariant E stop delay (List.length vs))
                  vs 0%nat (MPPT.cleared s) (cleared_invariant s)) as H.
    now rewrite Hloop in H. }
  destruct (shutdown_output_returns E s1) as (s2 & Hshut).
  assert (Hinv2 : MPPT.sample_invariant s2).
  { pose proof (shutdown_output_hoare E _ sample_invariant_io sample_invariant_ui
                  s1 Hinv1) as H.
    now rewrite Hshut in H. }
  destruct (report_sweep_returns s2 (proj1 Hinv2)) as (s3 & Hrep).
  assert (Hinv3 : MPPT.sample_invariant s3).
  { pose proof (report_sweep_hoare _ sample_invariant_ui s2 Hinv2) as H.
    now rewrite Hrep in H. }
  exists s1, s2, s3.
  split; [exact Hloop|]. split; [exact Hshut|]. split; [exact Hrep|].
  split; [|auto].
  unfold MPPT.voltage_sweep. rewrite Hvs.
  unfold bind, modify.
  change (MPPT.set_powers [] (MPPT.set_currents [] (MPPT.set_voltages [] s)))
    with (MPPT.cleared s).
  now rewrite Hloop, Hshut, Hrep.
Qed.

(** C4. Every sample that [voltage_sweep] records, on the hardware path and
    on the simulation path alike, has for power the product of its voltage
    and its current: the three lists that the run leaves have one length, and
    the power at each position is the voltage times the current at that
    position.  The same holds after every iteration of the loop. *)
Theorem C4_power_is_voltage_times_current (E : Env) (start stop : Q)
    (points : Z) (delay : Q) (vs : list Q) (st : MPPT.App) :
  np_linspace start stop points = Some vs ->
  (exists st',
     MPPT.voltage_sweep E start stop points delay st = Ok tt st' /\
     MPPT.lengths_agree st' /\
     MPPT.powers st' = products (MPPT.voltages st') (MPPT.currents st')) /\
  (forall j,
     let s := MPPT.after_iterations E stop delay vs st j in
     MPPT.powers s = products (MPPT.voltages s) (MPPT.currents s)).
Proof.
  intros Hvs. split.
  - destruct (voltage_sweep_stages E start stop points delay vs st Hvs)
      as (s1 & s2 & s3 & _ & _ & _ & Hrun & _ & _ & Hinv).
    exists s3. split; [exact Hrun|exact Hinv].
  - intros j. simpl. unfold MPPT.after_iterations.
    apply (sweep_loop_hoare E stop delay (List.length vs) _
             (sweep_iteration_invariant E stop delay (List.length vs))).
    apply cleared_invariant.
Qed.

(** C10. In [voltage_sweep] the three lists have one length after every
    iteration of the loop and when the run ends; an iteration appends one
    element to each of the three when the abort flag is not set and the
    [try] does not raise, and leaves the three as they are otherwise. *)
Theorem C10_lists_have_one_length (E : Env) (start stop : Q) (points : Z)
    (delay : Q) (vs : list Q) (st : MPPT.App) :
  np_linspace start stop points = Some vs ->
  (forall j, MPPT.lengths_agree (MPPT.after_iterations E stop delay vs st j)) /\
  MPPT.lengths_agree
    (state_of (MPPT.voltage_sweep E start stop points delay st)) /\
  (forall idx v s,
     exists s',
       MPPT.sweep_iteration E stop delay (List.length vs) idx v s
         = Ok (MPPT.abort_sweep s) s' /\
       if MPPT.abort_sweep s ||
          raised (MPPT.sweep_point E stop delay (List.length vs) idx v s)
       then MPPT.same_data s s'
       else MPPT.one_sample_more s s').
Proof.
  intros Hvs. split; [|split].
  - intros j. unfold MPPT.after_iterations.
    apply (sweep_loop_hoare E stop delay (List.length vs) _
             (sweep_iteration_invariant E stop delay (List.length vs))).
    apply cleared_invariant.
  - destruct (voltage_sweep_stages E start stop points delay vs st Hvs)
      as (s1 & s2 & s3 & _ & _ & _ & -> & _ & _ & Hinv).
    apply Hinv.
  - intros idx v s. apply sweep_iteration_data.
Qed.

(** ** The simulated and the measured reading *)

(** C6. Whatever the requested voltage and the stop voltage, the simulation
    source returns a current that is not negative; for a voltage of at least
    [0.8 * stop] the current is exactly 0 and no noise is drawn. *)
Theorem C6_simulated_current (E : Env) (voltage stop : Q) (st : MPPT.App) :
  exists current st',
    MPPT.simulate E voltage stop st = Ok current st' /\
    0 <= current /\
    (0.8 * stop <= voltage -> current = 0 /\ st' = st).
Proof.
  unfold MPPT.simulate.
  destruct (Qle_bool (stop * 0.8) voltage) eqn:Hvoc.
  - exists 0, st. repeat split. apply Qle_refl.
  - assert (Hlt : ~ 0.8 * stop <= voltage).
    { intros Hle. rewrite Qmult_comm in Hle. apply Qle_bool_iff in Hle. congruence. }
    unfold bind, MPPT.random_normal.
    destruct (Qlt_bool _ 0) eqn:Hneg; do 2 eexists;
      (split; [reflexivity|]); (split; [|tauto]).
    + apply Qle_refl.
    + unfold Qlt_bool in Hneg. apply negb_false_iff in Hneg.
      now apply Qle_bool_iff.
Qed.

(** Case analysis on the innermost [match] of a hypothesis that says how a
    method ran. *)
Ltac destruct_run H :=
  match type of H with
  | context [match ?x with _ => _ end] =>
      lazymatch x with
      | context [match _ with _ => _ end] => fail
      | _ => destruct x eqn:?
      end
  end.

Ltac invert_run H :=
  repeat (simpl in H; try discriminate H; destruct_run H).

Lemma mppt_measure_inv (E : Env) (voltage delay : Q) (s s' : MPPT.App)
    (reading : Q * Q) :
  MPPT.measure E voltage delay s = Ok reading s' ->
  exists response x y,
    instr_query E (MPPT.io s ++ [Write (":SOUR:VOLT " ++ str_float E voltage)])
      ":READ?" = Some response /\
    numeric_fields E response = Some (x, y) /\
    reading = (x, y * -1) /\
    MPPT.same_data s s'.
Proof.
  intros Hrun.
  unfold MPPT.measure, MPPT.write, MPPT.query, MPPT.float, sleep in Hrun.
  unfold_monad. unfold_setters. unfold numeric_fields.
  invert_run Hrun.
  injection Hrun as <- <-.
  match goal with
  | H : instr_query _ _ _ = Some ?r |- _ => exists r; rename H into Hquery
  end.
  do 2 eexists. split; [exact Hquery|].
  destruct (split "," (strip _)) as [|field0 [|field1 fields]];
    try discriminate.
  simpl in *.
  repeat match goal with
         | H : py_float _ _ = Some _ |- _ => rewrite H; clear H
         end.
  repeat split.
Qed.


Lemma mppt_sweep_point_inv (E : Env) (stop delay : Q) (total idx : nat)
    (voltage : Q) (s s' : MPPT.App) :
  MPPT.simulation_mode s = false ->
  MPPT.sweep_point E stop delay total idx voltage s = Ok tt s' ->
  exists response x y,
    instr_query E (MPPT.io s ++ [Write (":SOUR:VOLT " ++ str_float E voltage)])
      ":READ?" = Some response /\
    numeric_fields E response = Some (x, y) /\
    MPPT.voltages s' = MPPT.voltages s ++ [x] /\
    MPPT.currents s' = MPPT.currents s ++ [y * -1] /\
    MPPT.powers s' = MPPT.powers s ++ [x * (y * -1)].
Proof.
  intros Hhw Hrun.
  unfold MPPT.sweep_point, MPPT.processEvents, MPPT.abort_sweep_func in Hrun.
  set (measure := MPPT.measure E voltage delay) in *.
  unfold_monad. unfold_setters.
  invert_run Hrun;
    try match goal with
        | H : MPPT.simulation_mode _ = true |- _ => simpl in H; congruence
        end;
    injection Hrun as <-;
    match goal with
    | H : measure _ = Ok _ _ |- _ =>
        apply mppt_measure_inv in H;
        destruct H as (response & x & y & Hquery & Hfields & -> & Hv & Hc & Hp)
    end;
    simpl in *; exists response, x, y; rewrite Hv, Hc, Hp; auto.
Qed.

Lemma sweep_read_point_inv (E : Env) (s s' : Sweep.App) (reading : Q * Q) :
  Sweep.read_point E s = Ok reading s' ->
  exists response,
    instr_query E (Sweep.io s) ":MEAS?" = Some response /\
    reading = match numeric_fields E response with
              | Some numbers => numbers
              | None => (0, 0)
              end.
Proof.
  intros Hrun.
  unfold Sweep.read_point, Sweep.query, Sweep.float in Hrun.
  unfold_monad. unfold_setters. unfold numeric_fields.
  invert_run Hrun;
    injection Hrun as <- <-;
    match goal with
    | H : instr_query _ _ _ = Some ?r |- _ =>
        exists r; split; [first [exact H | reflexivity]|]
    end;
    destruct (split "," (strip _)) as [|field0 [|field1 fields]];
    try discriminate; simpl in *;
    repeat match goal with
           | H : py_float _ _ = _ |- _ => rewrite H; clear H
           end;
    try reflexivity.
  all: destruct (py_float E field0); reflexivity.
Qed.

Lemma sweep_sweep_point_inv (E : Env) (delay value : Q) (voltages currents : list Q)
    (s s' : Sweep.App) (data : list Q * list Q) :
  Sweep.sweep_point E delay value voltages currents s = Ok data s' ->
  exists response,
    instr_query E
      (Sweep.io s ++
       [Write ((if Sweep.voltage_sweep_radio s then ":SOUR:VOLT " else ":SOUR:CURR ")
               ++ str_float E value)])
      ":MEAS?" = Some response /\
    data = match numeric_fields E response with
           | Some (x, y) => (voltages ++ [x], currents ++ [- y])
           | None => (voltages ++ [0], currents ++ [- 0])
           end.
Proof.
  intros Hrun.
  unfold Sweep.sweep_point, Sweep.write, sleep in Hrun.
  set (read_point := Sweep.read_point E) in *.
  unfold_monad. unfold_setters.
  invert_run Hrun;
    injection Hrun as <- <-;
    match goal with
    | H : read_point _ = Ok _ _ |- _ =>
        apply sweep_read_point_inv in H; destruct H as (response & Hquery & ->)
    end;
    simpl in *; exists response; (split; [first [exact Hquery | reflexivity]|]);
    destruct (numeric_fields E response) as [[x y]|]; reflexivity.
Qed.

(** C5. On the hardware path, the current of a sample that comes from a
    reading whose two fields convert is the negated second field of the
    instrument's response: [voltage_sweep] stores the second field times -1,
    [IVsweep] stores its opposite. *)
Theorem C5_current_is_negated (E : Env) :
  (forall stop delay total idx voltage s s',
     MPPT.simulation_mode s = false ->
     MPPT.sweep_point E stop delay total idx voltage s = Ok tt s' ->
     exists response raw_voltage raw_current,
       instr_query E
         (MPPT.io s ++ [Write (":SOUR:VOLT " ++ str_float E voltage)])
         ":READ?" = Some response /\
       numeric_fields E response = Some (raw_voltage, raw_current) /\
       MPPT.currents s' = MPPT.currents s ++ [raw_current * -1] /\
       raw_current * -1 == - raw_current) /\
  (forall delay value voltages currents s s' data,
     Sweep.sweep_point E delay value voltages currents s = Ok data s' ->
     exists response,
       instr_query E
         (Sweep.io s ++
          [Write ((if Sweep.voltage_sweep_radio s
                   then ":SOUR:VOLT " else ":SOUR:CURR ")
                  ++ str_float E value)])
         ":MEAS?" = Some response /\
       forall raw_voltage raw_current,
         numeric_fields E response = Some (raw_voltage, raw_current) ->
         snd data = currents ++ [- raw_current]).
Proof.
  split.
  - intros stop delay total idx voltage s s' Hhw Hrun.
    destruct (mppt_sweep_point_inv E stop delay total idx voltage s s' Hhw Hrun)
      as (response & x & y & Hquery & Hfields & _ & Hc & _).
    exists response, x, y. repeat split; try assumption. ring.
  - intros delay value voltages currents s s' data Hrun.
    destruct (sweep_sweep_point_inv E delay value voltages currents s s' data Hrun)
      as (response & Hquery & ->).
    exists response. split; [exact Hquery|].
    intros x y ->. reflexivity.
Qed.

(** ** The order of the commands *)

Lemma no_output_on_snoc (t : list IOop) (op : IOop) :
  no_output_on t -> is_output_on op = false -> no_output_on (t ++ [op]).
Proof.
  unfold no_output_on. intros Ht Hop.
  rewrite forallb_app, Ht. simpl. now rewrite Hop.
Qed.

Lemma no_compliance_snoc (t : list IOop) (op : IOop) :
  no_compliance t -> is_compliance op = false -> no_compliance (t ++ [op]).
Proof.
  unfold no_compliance. intros Ht Hop.
  rewrite forallb_app, Ht. simpl. now rewrite Hop.
Qed.

Lemma limits_first_snoc (t : list IOop) (op : IOop) :
  limits_first t -> is_compliance op = false -> limits_first (t ++ [op]).
Proof.
  unfold limits_first. intros Ht Hop.
  induction t as [|a t IH]; simpl in *.
  - now destruct (is_output_on op).
  - destruct (is_output_on a); [|auto].
    rewrite forallb_app, Ht. simpl. now rewrite Hop.
Qed.

Lemma limits_first_of_no_output_on (t : list IOop) (op : IOop) :
  no_output_on t -> limits_first (t ++ [op]).
Proof.
  unfold no_output_on, limits_first.
  induction t as [|a t IH]; simpl.
  - now destruct (is_output_on op).
  - intros Ht. apply andb_true_iff in Ht as [Ha Ht].
    apply negb_true_iff in Ha. rewrite Ha. auto.
Qed.

Lemma limits_first_nil_of_no_output_on (t : list IOop) :
  no_output_on t -> limits_first t.
Proof.
  unfold no_output_on, limits_first.
  induction t as [|a t IH]; simpl; [reflexivity|].
  intros Ht. apply andb_true_iff in Ht as [Ha Ht].
  apply negb_true_iff in Ha. rewrite Ha. auto.
Qed.

Lemma limits_first_app (t u : list IOop) :
  limits_first t -> no_compliance u -> limits_first (t ++ u).
Proof.
  intros Ht Hu. induction u as [|op u IH] using rev_ind.
  - now rewrite app_nil_r.
  - unfold no_compliance in Hu. rewrite forallb_app in Hu.
    apply andb_true_iff in Hu as [Hu Hop]. simpl in Hop.
    rewrite app_assoc. apply limits_first_snoc; [now apply IH|].
    destruct (is_compliance op); [discriminate|reflexivity].
Qed.

(** The check that runs decides the order property. *)
Lemma limits_before_output_b_sound (ops : list IOop) :
  limits_before_output_b ops = true -> limits_before_output ops.
Proof.
  induction ops as [|op ops IH]; intros Hb i j enable limit Hi Hen Hj Hlim.
  - now destruct i.
  - simpl in Hb. destruct (is_output_on op) eqn:Hop.
    + destruct j as [|j]; simpl in Hj.
      * injection Hj as <-.
        destruct op as [cmd| |]; simpl in *; try discriminate.
        unfold is_output_on_cmd in Hop. apply String.eqb_eq in Hop. subst cmd.
        discriminate.
      * rewrite forallb_forall in Hb.
        apply nth_error_In, Hb in Hj. rewrite Hlim in Hj. discriminate.
    + destruct i as [|i]; simpl in Hi; [congruence|].
      destruct j as [|j]; simpl in Hj; [lia|].
      apply -> Nat.succ_lt_mono. now apply (IH Hb i j enable limit).
Qed.

(** Side conditions of the primitives for an invariant on what the handle
    has seen: a write adds one operation, which [snoc] must allow; the other
    updates leave [io] alone. *)
Ltac mppt_io_since snoc :=
  match goal with
  | H : MPPT.io_since _ _ ?s
    |- MPPT.io_since _ _ (MPPT.set_io (MPPT.io ?s ++ [?op]) ?s) =>
      let t := fresh "t" in
      let Ht := fresh "Ht" in
      let HP := fresh "HP" in
      destruct H as (t & Ht & HP); exists (t ++ [op]);
      split;
      [ unfold_setters; simpl; rewrite Ht, app_assoc; reflexivity
      | apply snoc; [exact HP | reflexivity] ]
  | H : MPPT.io_since _ _ ?s |- MPPT.io_since _ _ _ => exact H
  end.

Ltac mppt_unfold :=
  unfold MPPT.voltage_sweep, MPPT.shutdown_output, MPPT.report_sweep,
    MPPT.find_mppt_point, MPPT.sweep_iteration, MPPT.sweep_point,
    MPPT.processEvents, MPPT.abort_sweep_func, MPPT.simulate, MPPT.measure.

Lemma mppt_voltage_sweep_limits (E : Env) (start stop : Q) (points : Z)
    (delay : Q) (s0 : MPPT.App) :
  hoare (MPPT.io_since limits_first s0)
    (MPPT.voltage_sweep E start stop points delay)
    (MPPT.io_since limits_first s0).
Proof.
  mppt_unfold. hoare_steps; try mppt_io_since limits_first_snoc.
  apply sweep_loop_hoare. intros idx v.
  mppt_unfold. hoare_steps; mppt_io_since limits_first_snoc.
Qed.

Lemma mppt_phase_weaken (s0 s : MPPT.App) :
  MPPT.io_since no_output_on s0 s -> MPPT.io_since limits_first s0 s.
Proof.
  intros (t & Ht & HP). exists t. split; [exact Ht|].
  now apply limits_first_nil_of_no_output_on.
Qed.

Lemma mppt_write_output_on (E : Env) (s0 : MPPT.App) :
  hoare (MPPT.io_since no_output_on s0) (MPPT.write E ":OUTP ON")
    (MPPT.io_since limits_first s0).
Proof.
  intros s Hs. unfold MPPT.write.
  destruct (MPPT.keithley s); [|now apply mppt_phase_weaken].
  assert (Hafter : MPPT.io_since limits_first s0
                     (MPPT.set_io (MPPT.io s ++ [Write ":OUTP ON"]) s)).
  { destruct Hs as (t & Ht & HP). exists (t ++ [Write ":OUTP ON"]). split.
    - unfold_setters. simpl. now rewrite Ht, app_assoc.
    - now apply limits_first_of_no_output_on. }
  destruct (instr_write E (MPPT.io s) ":OUTP ON"); exact Hafter.
Qed.

Lemma mppt_setupIV_limits (E : Env) (s0 : MPPT.App) :
  hoare (MPPT.io_since no_output_on s0) (MPPT.setupIV E)
    (MPPT.io_since limits_first s0).
Proof.
  unfold MPPT.setupIV.
  apply (hoare_bind _ (MPPT.io_since no_output_on s0) _);
    [apply hoare_get| |apply mppt_phase_weaken].
  intros st. destruct (MPPT.simulation_mode st).
  - apply (hoare_weaken _ (MPPT.io_since no_output_on s0) _
             (MPPT.io_since no_output_on s0));
      [|auto|apply mppt_phase_weaken].
    hoare_steps; mppt_io_since no_output_on_snoc.
  - apply hoare_try_except;
      [|intros e; hoare_steps; mppt_io_since limits_first_snoc].
    do 7 (apply (hoare_bind _ (MPPT.io_since no_output_on s0) _);
          [hoare_steps; mppt_io_since no_output_on_snoc
          |intros _
          |apply mppt_phase_weaken]).
    apply (hoare_bind _ (MPPT.io_since limits_first s0) _);
      [apply mppt_write_output_on|intros _|auto].
    hoare_steps; mppt_io_since limits_first_snoc.
Qed.

Lemma mppt_start_sweep_limits (E : Env) (s0 : MPPT.App) :
  hoare (MPPT.io_since no_output_on s0) (MPPT.start_sweep E)
    (MPPT.io_since limits_first s0).
Proof.
  unfold MPPT.start_sweep.
  apply (hoare_bind _ (MPPT.io_since no_output_on s0) _);
    [apply hoare_get| |apply mppt_phase_weaken].
  intros st. destruct (_ && _).
  - apply (hoare_weaken _ (MPPT.io_since no_output_on s0) _
             (MPPT.io_since no_output_on s0));
      [|auto|apply mppt_phase_weaken].
    hoare_steps; mppt_io_since no_output_on_snoc.
  - apply hoare_try_except;
      [|intros e; hoare_steps; mppt_io_since limits_first_snoc].
    do 6 (apply (hoare_bind _ (MPPT.io_since no_output_on s0) _);
          [hoare_steps; mppt_io_since no_output_on_snoc
          |intros ?
          |apply mppt_phase_weaken]).
    apply (hoare_bind _ (MPPT.io_since limits_first s0) _);
      [|intros ready|auto].
    + destruct (MPPT.simulation_mode st); [|apply mppt_setupIV_limits].
      apply (hoare_weaken _ (MPPT.io_since no_output_on s0) _
               (MPPT.io_since no_output_on s0));
        [apply hoare_ret|auto|apply mppt_phase_weaken].
    + destruct ready; [|apply hoare_ret].
      apply hoare_bind_inv;
        [hoare_steps; mppt_io_since limits_first_snoc|intros _].
      apply hoare_bind_inv; [apply mppt_voltage_sweep_limits|intros _].
      hoare_steps; mppt_io_since limits_first_snoc.
Qed.

Lemma mppt_io_since_sent (P : list IOop -> Prop) (s0 s : MPPT.App) :
  MPPT.io_since P s0 s -> P (MPPT.sent s0 s).
Proof.
  intros (t & Ht & HP). unfold MPPT.sent. now rewrite Ht, skipn_length_app.
Qed.

Lemma mppt_io_since_refl (P : list IOop -> Prop) (s : MPPT.App) :
  P [] -> MPPT.io_since P s s.
Proof. intros HP. exists []. now rewrite app_nil_r. Qed.

Ltac sweep_io_since snoc :=
  match goal with
  | H : Sweep.io_since _ _ ?s
    |- Sweep.io_since _ _ (Sweep.set_io (Sweep.io ?s ++ [?op]) ?s) =>
      let t := fresh "t" in
      let Ht := fresh "Ht" in
      let HP := fresh "HP" in
      destruct H as (t & Ht & HP); exists (t ++ [op]);
      split;
      [ unfold_setters; simpl; rewrite Ht, app_assoc; reflexivity
      | apply snoc; [exact HP | reflexivity] ]
  | H : Sweep.io_since _ _ ?s |- Sweep.io_since _ _ _ => exact H
  end.

(** The loop of [IVsweep] keeps what driving and reading a point and showing
    the abort box keep. *)
Lemma ivsweep_loop_hoare (E : Env) (delay : Q) (I : Sweep.App -> Prop) :
  (forall value voltages currents,
     hoare I (Sweep.sweep_point E delay value voltages currents) I) ->
  (forall s e, I s -> I (Sweep.set_ui (Sweep.ui s ++ [e]) s)) ->
  forall sweep_values voltages currents,
    hoare I (Sweep.sweep_loop E delay sweep_values voltages currents) I.
Proof.
  intros Hpoint Hui sweep_values.
  induction sweep_values as [|value rest IH]; intros voltages currents; simpl.
  - apply hoare_ret.
  - apply hoare_bind_inv; [apply hoare_get|]. intros st.
    destruct (Sweep.abort_sweep st).
    + hoare_steps. auto.
    + apply hoare_bind_inv; [apply Hpoint|]. intros data. apply IH.
Qed.

Lemma sweep_IVsweep_limits (E : Env) (start stop : Q) (points : Z) (delay : Q)
    (s0 : Sweep.App) :
  hoare (Sweep.io_since limits_first s0)
    (Sweep.IVsweep E start stop points delay)
    (Sweep.io_since limits_first s0).
Proof.
  unfold Sweep.IVsweep.
  destruct (np_linspace start stop points) as [sweep_values|];
    [|apply hoare_raise].
  apply hoare_bind_inv.
  - apply ivsweep_loop_hoare.
    + intros value voltages currents.
      unfold Sweep.sweep_point, Sweep.read_point.
      hoare_steps; sweep_io_since limits_first_snoc.
    + intros s e Hs. exact Hs.
  - intros data. hoare_steps; sweep_io_since limits_first_snoc.
Qed.

Lemma sweep_phase_weaken (s0 s : Sweep.App) :
  Sweep.io_since no_output_on s0 s -> Sweep.io_since limits_first s0 s.
Proof.
  intros (t & Ht & HP). exists t. split; [exact Ht|].
  now apply limits_first_nil_of_no_output_on.
Qed.

Lemma sweep_write_output_on (E : Env) (s0 : Sweep.App) :
  hoare (Sweep.io_since no_output_on s0) (Sweep.write E ":OUTP ON")
    (Sweep.io_since limits_first s0).
Proof.
  intros s Hs. unfold Sweep.write.
  destruct (Sweep.keithley s); [|now apply sweep_phase_weaken].
  assert (Hafter : Sweep.io_since limits_first s0
                     (Sweep.set_io (Sweep.io s ++ [Write ":OUTP ON"]) s)).
  { destruct Hs as (t & Ht & HP). exists (t ++ [Write ":OUTP ON"]). split.
    - unfold_setters. simpl. now rewrite Ht, app_assoc.
    - now apply limits_first_of_no_output_on. }
  destruct (instr_write E (Sweep.io s) ":OUTP ON"); exact Hafter.
Qed.

Lemma sweep_setupIV_limits (E : Env) (s0 : Sweep.App) :
  hoare (Sweep.io_since no_output_on s0) (Sweep.setupIV E)
    (Sweep.io_since limits_first s0).
Proof.
  unfold Sweep.setupIV.
  do 6 (apply (hoare_bind _ (Sweep.io_since no_output_on s0) _);
        [hoare_steps; sweep_io_since no_output_on_snoc
        |intros ?
        |apply sweep_phase_weaken]).
  apply sweep_write_output_on.
Qed.

Lemma sweep_start_sweep_limits (E : Env) (s0 : Sweep.App) :
  hoare (Sweep.io_since no_output_on s0) (Sweep.start_sweep E)
    (Sweep.io_since limits_first s0).
Proof.
  unfold Sweep.start_sweep.
  do 6 (apply (hoare_bind _ (Sweep.io_since no_output_on s0) _);
        [hoare_steps; sweep_io_since no_output_on_snoc
        |intros ?
        |apply sweep_phase_weaken]).
  apply (hoare_bind _ (Sweep.io_since limits_first s0) _);
    [apply sweep_setupIV_limits|intros _|auto].
  apply sweep_IVsweep_limits.
Qed.

Lemma sweep_io_since_sent (P : list IOop -> Prop) (s0 s : Sweep.App) :
  Sweep.io_since P s0 s -> P (Sweep.sent s0 s).
Proof.
  intros (t & Ht & HP). unfold Sweep.sent. now rewrite Ht, skipn_length_app.
Qed.

Lemma sweep_io_since_refl (P : list IOop -> Prop) (s : Sweep.App) :
  P [] -> Sweep.io_since P s s.
Proof. intros HP. exists []. now rewrite app_nil_r. Qed.

Ltac trace_norm :=
  rewrite <- ?app_assoc; rewrite ?skipn_length_app, ?skipn_all; simpl.

(** ** A point that fails *)

Lemma quiet_run_status (shown : list UiEvent) :
  quiet shown -> run_status shown = COMPLETED.
Proof.
  unfold quiet, run_status.
  induction shown as [|e t IH]; simpl; [reflexivity|].
  intros Hq. apply andb_true_iff in Hq as [He Ht].
  unfold quiet_event in He. apply andb_true_iff in He as [Habort Hnodata].
  apply negb_true_iff in Habort, Hnodata.
  rewrite Habort, Hnodata. simpl. exact (IH Ht).
Qed.

Ltac mppt_ui_since :=
  match goal with
  | H : MPPT.ui_since quiet _ ?s
    |- MPPT.ui_since quiet _ (MPPT.set_ui (MPPT.ui ?s ++ [?e]) ?s) =>
      let t := fresh "t" in
      let Ht := fresh "Ht" in
      let HP := fresh "HP" in
      destruct H as (t & Ht & HP); exists (t ++ [e]);
      split;
      [ unfold_setters; simpl; rewrite Ht, app_assoc; reflexivity
      | unfold quiet in *; rewrite forallb_app, HP; reflexivity ]
  | H : MPPT.ui_since quiet _ ?s |- MPPT.ui_since quiet _ _ => exact H
  end.

Ltac mppt_running_quietly :=
  match goal with
  | H : MPPT.running_quietly _ ?s |- MPPT.running_quietly _ _ =>
      let Ha := fresh "Ha" in
      let Hu := fresh "Hu" in
      destruct H as [Ha Hu]; split; [exact Ha | mppt_ui_since]
  end.

Section NoAbortClick.

Variable E : Env.
Hypothesis no_click : forall idx, abort_clicked E idx = false.

Variables (stop delay : Q) (total : nat).

Lemma sweep_iteration_quiet (s0 : MPPT.App) (idx : nat) (v : Q) :
  hoare (MPPT.running_quietly s0)
    (MPPT.sweep_iteration E stop delay total idx v)
    (MPPT.running_quietly s0).
Proof.
  intros s Hs. unfold MPPT.sweep_iteration, bind at 1, get.
  rewrite (proj1 Hs). revert s Hs.
  change (hoare (MPPT.running_quietly s0)
            (bind (try_except (MPPT.sweep_point E stop delay total idx v)
                     any_exception (fun e => MPPT.show (LogPointError v e)))
                  (fun _ => ret false))
            (MPPT.running_quietly s0)).
  mppt_unfold. rewrite no_click.
  hoare_steps; mppt_running_quietly.
Qed.

Lemma sweep_iteration_continues (idx : nat) (v : Q) (s : MPPT.App) :
  MPPT.abort_sweep s = false ->
  exists s',
    MPPT.sweep_iteration E stop delay total idx v s = Ok false s' /\
    MPPT.abort_sweep s' = false.
Proof.
  intros Ha.
  destruct (sweep_iteration_data E stop delay total idx v s) as (s' & Hrun & _).
  rewrite Ha in Hrun. exists s'. split; [exact Hrun|].
  assert (Hq : MPPT.running_quietly s s).
  { split; [exact Ha|]. exists []. now rewrite app_nil_r. }
  apply (sweep_iteration_quiet s idx v) in Hq. rewrite Hrun in Hq. apply Hq.
Qed.

(** Without a click on Abort, the loop over a sequence and one more setpoint
    is the loop over the sequence followed by the iteration of that
    setpoint. *)
Lemma sweep_loop_snoc (xs : list Q) (x : Q) :
  forall idx s,
    MPPT.abort_sweep s = false ->
    let s1 := state_of (MPPT.sweep_loop E stop delay total idx xs s) in
    MPPT.abort_sweep s1 = false /\
    state_of (MPPT.sweep_loop E stop delay total idx (xs ++ [x]) s) =
    state_of (MPPT.sweep_iteration E stop delay total
                (idx + List.length xs) x s1).
Proof.
  induction xs as [|a xs IH]; intros idx s Ha; simpl.
  - split; [exact Ha|]. rewrite Nat.add_0_r.
    destruct (sweep_iteration_continues idx x s Ha) as (s' & Hrun & _).
    now rewrite (bind_ok _ _ _ _ _ Hrun), Hrun.
  - destruct (sweep_iteration_continues idx a s Ha) as (s' & Hrun & Ha').
    rewrite !(bind_ok _ _ _ _ _ Hrun).
    replace (idx + S (List.length xs))%nat with (S idx + List.length xs)%nat
      by lia.
    apply IH, Ha'.
Qed.

End NoAbortClick.

Lemma firstn_succ_of_nth_error {A : Type} (l : list A) (j : nat) (x : A) :
  nth_error l j = Some x -> firstn (S j) l = firstn j l ++ [x].
Proof.
  revert j. induction l as [|a l IH]; intros [|j] Hj; simpl in *;
    try discriminate.
  - now injection Hj as ->.
  - f_equal. now apply IH.
Qed.

Section OnePointFails.

Variable E : Env.
Hypothesis no_click : forall idx, abort_clicked E idx = false.

Variables (stop delay : Q) (vs : list Q) (st : MPPT.App) (k : nat).

Hypothesis flag_down : MPPT.abort_sweep st = false.
Hypothesis only_k_fails :
  forall j, (j < List.length vs)%nat ->
    (MPPT.point_fails E stop delay vs st j = true <-> j = k).

Let after := MPPT.after_iterations E stop delay vs st.

Lemma after_iterations_succ (j : nat) (v : Q) :
  nth_error vs j = Some v ->
  MPPT.abort_sweep (after j) = false /\
  after (S j) =
    state_of (MPPT.sweep_iteration E stop delay (List.length vs) j v (after j)).
Proof.
  intros Hj. unfold after, MPPT.after_iterations.
  rewrite (firstn_succ_of_nth_error vs j v Hj).
  assert (Hlen : List.length (firstn j vs) = j).
  { rewrite length_firstn. apply Nat.min_l.
    apply Nat.lt_le_incl, nth_error_Some. congruence. }
  destruct (sweep_loop_snoc E no_click stop delay (List.length vs)
              (firstn j vs) v 0%nat (MPPT.cleared st) flag_down) as [Ha Hs].
  split; [exact Ha|]. rewrite Hs, Hlen. reflexivity.
Qed.

(** What iteration [j] does to the three lists: nothing when [j = k], one
    sample more otherwise. *)
Lemma after_iterations_data (j : nat) :
  (j < List.length vs)%nat ->
  if (j =? k)%nat
  then MPPT.same_data (after j) (after (S j))
  else MPPT.one_sample_more (after j) (after (S j)).
Proof.
  intros Hj.
  destruct (nth_error vs j) as [v|] eqn:Hv;
    [|apply nth_error_None in Hv; lia].
  destruct (after_iterations_succ j v Hv) as [Ha ->].
  destruct (sweep_iteration_data E stop delay (List.length vs) j v (after j))
    as (s' & -> & Hdata). simpl.
  rewrite Ha in Hdata. simpl in Hdata.
  pose proof (only_k_fails j Hj) as Hfail.
  unfold MPPT.point_fails in Hfail. rewrite Hv in Hfail. fold after in Hfail.
  destruct (Nat.eqb_spec j k) as [Heq|Hne].
  - rewrite (proj2 Hfail Heq) in Hdata. exact Hdata.
  - destruct (raised _); [|exact Hdata].
    exfalso. apply Hne. now apply Hfail.
Qed.

Lemma after_iterations_count (j : nat) :
  (j <= List.length vs)%nat ->
  List.length (MPPT.voltages (after j)) = (j - (if (k <? j)%nat then 1 else 0))%nat.
Proof.
  induction j as [|j IH]; intros Hj.
  - reflexivity.
  - specialize (IH ltac:(lia)).
    pose proof (after_iterations_data j ltac:(lia)) as Hdata.
    destruct (Nat.eqb_spec j k) as [Heq|Hne].
    + destruct Hdata as (Hv & _). rewrite Hv, IH.
      destruct (Nat.ltb_spec k j), (Nat.ltb_spec k (S j)); lia.
    + destruct Hdata as (v & c & Hv & _). rewrite Hv, length_app, IH. simpl.
      destruct (Nat.ltb_spec k j), (Nat.ltb_spec k (S j)); lia.
Qed.

Lemma after_all_iterations :
  after (List.length vs) =
    state_of (MPPT.sweep_loop E stop delay (List.length vs) 0 vs (MPPT.cleared st)).
Proof.
  unfold after, MPPT.after_iterations. now rewrite firstn_all.
Qed.

End OnePointFails.

Lemma mppt_ui_since_shown (P : list UiEvent -> Prop) (s0 s : MPPT.App) :
  MPPT.ui_since P s0 s -> P (MPPT.shown s0 s).
Proof.
  intros (t & Ht & HP). unfold MPPT.shown. now rewrite Ht, skipn_length_app.
Qed.

Lemma shutdown_output_quiet (E : Env) (s0 : MPPT.App) :
  hoare (MPPT.ui_since quiet s0) (MPPT.shutdown_output E)
    (MPPT.ui_since quiet s0).
Proof. mppt_unfold. hoare_steps; mppt_ui_since. Qed.

Lemma report_sweep_quiet (s0 s : MPPT.App) :
  MPPT.voltages s <> [] ->
  MPPT.ui_since quiet s0 s ->
  MPPT.ui_since quiet s0 (state_of (MPPT.report_sweep s)).
Proof.
  intros Hne Hs. unfold MPPT.report_sweep, bind at 1, get.
  destruct (MPPT.voltages s) as [|v vs] eqn:Hv; [congruence|]. simpl.
  refine ((_ : hoare (MPPT.ui_since quiet s0)
                 (bind MPPT.find_mppt_point _) (MPPT.ui_since quiet s0)) s Hs).
  mppt_unfold. hoare_steps; mppt_ui_since.
Qed.

(** One failing point in [voltage_sweep]: the run returns, the failing
    point leaves the lists as they are, every other point adds a sample, and
    the operator sees neither notice. *)
Lemma mppt_one_failure (E : Env) (start stop : Q) (points : Z) (delay : Q)
    (vs : list Q) (st : MPPT.App) (k : nat) :
  (2 <= points)%Z ->
  np_linspace start stop points = Some vs ->
  MPPT.abort_sweep st = false ->
  (forall idx, abort_clicked E idx = false) ->
  (k < List.length vs)%nat ->
  (forall j, (j < List.length vs)%nat ->
     (MPPT.point_fails E stop delay vs st j = true <-> j = k)) ->
  exists st',
    MPPT.voltage_sweep E start stop points delay st = Ok tt st' /\
    List.length (MPPT.voltages st') = (List.length vs - 1)%nat /\
    MPPT.lengths_agree st' /\
    MPPT.same_data (MPPT.after_iterations E stop delay vs st k)
      (MPPT.after_iterations E stop delay vs st (S k)) /\
    (forall j, (j < List.length vs)%nat -> j <> k ->
       MPPT.one_sample_more (MPPT.after_iterations E stop delay vs st j)
         (MPPT.after_iterations E stop delay vs st (S j))) /\
    run_status (MPPT.shown st st') = COMPLETED.
Proof.
  intros Hpoints Hvs Hflag Hclick Hk Hfail.
  destruct (voltage_sweep_stages E start stop points delay vs st Hvs)
    as (s1 & s2 & s3 & Hloop & Hshut & Hrep & Hrun & _ & _ & Hinv3).
  assert (Hn : (2 <= List.length vs)%nat).
  { destruct (np_linspace_some start stop points) as (vs' & Hvs' & Hlen); [lia|].
    rewrite Hvs in Hvs'. injection Hvs' as <-. lia. }
  assert (Hcount : List.length (MPPT.voltages s1) = (List.length vs - 1)%nat).
  { pose proof (after_iterations_count E Hclick stop delay vs st k Hflag Hfail
                  (List.length vs) (le_n _)) as Hc.
    rewrite after_all_iterations, Hloop in Hc. simpl in Hc. rewrite Hc.
    destruct (Nat.ltb_spec k (List.length vs)); lia. }
  assert (Hdata2 : MPPT.same_data s1 s2).
  { pose proof (shutdown_output_hoare E (MPPT.same_data s1)) as H.
    specialize (H ltac:(intros; same_data_tac) ltac:(intros; same_data_tac)
                  s1 (same_data_refl s1)).
    now rewrite Hshut in H. }
  assert (Hdata3 : MPPT.same_data s2 s3).
  { pose proof (report_sweep_hoare (MPPT.same_data s2)) as H.
    specialize (H ltac:(intros; same_data_tac) s2 (same_data_refl s2)).
    now rewrite Hrep in H. }
  assert (Hquiet1 : MPPT.running_quietly st s1).
  { pose proof (sweep_loop_hoare E stop delay (List.length vs)
                  (MPPT.running_quietly st)
                  (sweep_iteration_quiet E Hclick stop delay (List.length vs) st)
                  vs 0%nat (MPPT.cleared st)) as H.
    rewrite Hloop in H. apply H. split; [exact Hflag|].
    exists []. split; [now rewrite app_nil_r|reflexivity]. }
  assert (Hquiet2 : MPPT.ui_since quiet st s2).
  { pose proof (shutdown_output_quiet E st s1 (proj2 Hquiet1)) as H.
    now rewrite Hshut in H. }
  assert (Hquiet3 : MPPT.ui_since quiet st s3).
  { pose proof (report_sweep_quiet st s2) as H. rewrite Hrep in H.
    apply H; [|exact Hquiet2].
    destruct Hdata2 as (Hv & _). rewrite Hv. intros Hnil.
    rewrite Hnil in Hcount. simpl in Hcount. lia. }
  exists s3. split; [exact Hrun|]. split; [|split; [apply Hinv3|split; [|split]]].
  - destruct Hdata3 as (Hv3 & _). destruct Hdata2 as (Hv2 & _).
    now rewrite Hv3, Hv2.
  - pose proof (after_iterations_data E Hclick stop delay vs st k Hflag Hfail
                  k Hk) as H.
    now rewrite Nat.eqb_refl in H.
  - intros j Hj Hne.
    pose proof (after_iterations_data E Hclick stop delay vs st k Hflag Hfail
                  j Hj) as H.
    destruct (Nat.eqb_spec j k); [contradiction|exact H].
  - apply quiet_run_status. now apply (mppt_ui_since_shown quiet).
Qed.

(** In [IVsweep] a point keeps the abort flag as it is. *)
Lemma ivsweep_point_flag (E : Env) (delay value : Q) (voltages currents : list Q) :
  hoare (fun s => Sweep.abort_sweep s = false)
    (Sweep.sweep_point E delay value voltages currents)
    (fun s => Sweep.abort_sweep s = false).
Proof.
  unfold Sweep.sweep_point, Sweep.read_point. hoare_steps; assumption.
Qed.

(** A run of the loop of [IVsweep] that returns with the abort flag down has
    appended one entry to each list for every setpoint. *)
Lemma ivsweep_loop_count (E : Env) (delay : Q) (vs : list Q) :
  forall voltages currents s data s',
    Sweep.abort_sweep s = false ->
    Sweep.sweep_loop E delay vs voltages currents s = Ok data s' ->
    List.length (fst data) = (List.length voltages + List.length vs)%nat /\
    List.length (snd data) = (List.length currents + List.length vs)%nat.
Proof.
  induction vs as [|v vs IH]; intros voltages currents s data s' Hflag Hrun;
    simpl in Hrun.
  - injection Hrun as <- <-. simpl. lia.
  - unfold bind at 1, get in Hrun. rewrite Hflag in Hrun.
    pose proof (ivsweep_point_flag E delay v voltages currents s Hflag) as Hflag'.
    destruct (Sweep.sweep_point E delay v voltages currents s)
      as [data1 s1|e s1] eqn:Hpoint.
    + rewrite (bind_ok _ _ _ _ _ Hpoint) in Hrun.
      destruct (sweep_sweep_point_inv E delay v voltages currents s s1 data1 Hpoint)
        as (response & _ & Hdata).
      destruct (IH _ _ _ _ _ Hflag' Hrun) as [Hv Hc].
      rewrite Hv, Hc, Hdata.
      destruct (numeric_fields E response) as [[x y]|]; simpl;
        rewrite !length_app; simpl; lia.
    + rewrite (bind_raise _ _ _ _ _ Hpoint) in Hrun. discriminate.
Qed.

Lemma ivsweep_count (E : Env) (start stop : Q) (points : Z) (delay : Q)
    (vs : list Q) (st st' : Sweep.App) (data : list Q * list Q) :
  np_linspace start stop points = Some vs ->
  Sweep.abort_sweep st = false ->
  Sweep.IVsweep E start stop points delay st = Ok data st' ->
  List.length (fst data) = List.length vs /\
  List.length (snd data) = List.length vs.
Proof.
  intros Hvs Hflag Hrun. unfold Sweep.IVsweep in Hrun. rewrite Hvs in Hrun.
  destruct (Sweep.sweep_loop E delay vs [] [] st) as [data1 s1|e s1] eqn:Hloop.
  - rewrite (bind_ok _ _ _ _ _ Hloop) in Hrun.
    destruct (ivsweep_loop_count E delay vs [] [] st data1 s1 Hflag Hloop)
      as [Hv Hc].
    unfold bind, ret in Hrun.
    destruct (Sweep.write E ":OUTP OFF" s1); [|discriminate].
    injection Hrun as <- <-. auto.
  - rewrite (bind_raise _ _ _ _ _ Hloop) in Hrun. discriminate.
Qed.

(** C2, as the sources have it.  In [voltage_sweep] ([MPPT.py]): when the
    operator does not abort and the [try] of exactly one iteration, the k-th,
    raises, the run returns, the k-th point adds nothing to the lists, every
    other point adds one sample, so the lists hold one sample less than there
    are setpoints, and the run is [COMPLETED].  In [IVsweep] ([sweep.py]): a
    response that does not hold two numbers is recorded as the sample
    [(0, -0)], so a run that returns without being aborted holds one sample
    for every setpoint. *)
Theorem C2_one_failing_point (E : Env) (start stop : Q) (points : Z)
    (delay : Q) (vs : list Q) :
  (forall (st : MPPT.App) (k : nat),
     (2 <= points)%Z ->
     np_linspace start stop points = Some vs ->
     MPPT.abort_sweep st = false ->
     (forall idx, abort_clicked E idx = false) ->
     (k < List.length vs)%nat ->
     (forall j, (j < List.length vs)%nat ->
        (MPPT.point_fails E stop delay vs st j = true <-> j = k)) ->
     exists st',
       MPPT.voltage_sweep E start stop points delay st = Ok tt st' /\
       List.length (MPPT.voltages st') = (List.length vs - 1)%nat /\
       MPPT.lengths_agree st' /\
       MPPT.same_data (MPPT.after_iterations E stop delay vs st k)
         (MPPT.after_iterations E stop delay vs st (S k)) /\
       (forall j, (j < List.length vs)%nat -> j <> k ->
          MPPT.one_sample_more (MPPT.after_iterations E stop delay vs st j)
            (MPPT.after_iterations E stop delay vs st (S j))) /\
       run_status (MPPT.shown st st') = COMPLETED) /\
  (forall (st st' : Sweep.App) (data : list Q * list Q),
     np_linspace start stop points = Some vs ->
     Sweep.abort_sweep st = false ->
     Sweep.IVsweep E start stop points delay st = Ok data st' ->
     List.length (fst data) = List.length vs /\
     List.length (snd data) = List.length vs) /\
  (forall value voltages currents (s s' : Sweep.App) data,
     Sweep.sweep_point E delay value voltages currents s = Ok data s' ->
     exists response,
       instr_query E
         (Sweep.io s ++
          [Write ((if Sweep.voltage_sweep_radio s
                   then ":SOUR:VOLT " else ":SOUR:CURR ")
                  ++ str_float E value)])
         ":MEAS?" = Some response /\
       (numeric_fields E response = None ->
        data = (voltages ++ [0], currents ++ [- 0]))).
Proof.
  split; [|split].
  - intros st k. apply mppt_one_failure.
  - intros st st' data. apply ivsweep_count.
  - intros value voltages currents s s' data Hrun.
    destruct (sweep_sweep_point_inv E delay value voltages currents s s' data Hrun)
      as (response & Hquery & ->).
    exists response. split; [exact Hquery|]. now intros ->.
Qed.

(** ** A sweep of fewer than two points *)

Lemma np_linspace_few (start stop : Q) :
  (exists v, np_linspace start stop 1 = Some [v] /\ v == start) /\
  np_linspace start stop 0 = Some [] /\
  (forall points, (points < 0)%Z -> np_linspace start stop points = None).
Proof.
  split; [|split].
  - eexists. split; [reflexivity|]. simpl. ring.
  - reflexivity.
  - intros points Hneg. unfold np_linspace.
    destruct (Z.ltb_spec points 0); [reflexivity|lia].
Qed.

Lemma mppt_setupIV_returns (E : Env) (s : MPPT.App) :
  exists ready s', MPPT.setupIV E s = Ok ready s'.
Proof.
  unfold MPPT.setupIV, bind at 1, get.
  destruct (MPPT.simulation_mode s); [do 2 eexists; reflexivity|].
  unfold try_except, any_exception.
  match goal with
  | |- context [match ?m s with _ => _ end] => destruct (m s) as [ready s1|e s1]
  end; do 2 eexists; reflexivity.
Qed.

Lemma anything_snoc (t : list IOop) (op : IOop) :
  anything t -> true = true -> anything (t ++ [op]).
Proof. intros _ _. exact I. Qed.

Lemma mppt_voltage_sweep_io_grows (E : Env) (start stop : Q) (points : Z)
    (delay : Q) (s0 : MPPT.App) :
  hoare (MPPT.io_since anything s0)
    (MPPT.voltage_sweep E start stop points delay)
    (MPPT.io_since anything s0).
Proof.
  mppt_unfold. hoare_steps; try mppt_io_since anything_snoc.
  apply sweep_loop_hoare. intros idx v.
  mppt_unfold. hoare_steps; mppt_io_since anything_snoc.
Qed.

Lemma mppt_setupIV_io_grows (E : Env) (s0 : MPPT.App) :
  hoare (MPPT.io_since anything s0) (MPPT.setupIV E)
    (MPPT.io_since anything s0).
Proof.
  unfold MPPT.setupIV. hoare_steps; mppt_io_since anything_snoc.
Qed.

Lemma mppt_start_sweep_configures (E : Env) (st : MPPT.App)
    (start stop : Q) (points : Z) (delay : Q) :
  MPPT.keithley st = true ->
  MPPT.simulation_mode st = false ->
  py_float E (MPPT.start_voltage st) = Some start ->
  py_float E (MPPT.stop_voltage st) = Some stop ->
  py_int E (MPPT.points_input st) = Some points ->
  py_float E (MPPT.delay_input st) = Some delay ->
  exists ready st1,
    MPPT.setupIV E (MPPT.configuring start stop points delay st)
      = Ok ready st1 /\
    (exists rest,
       MPPT.sent st (state_of (MPPT.start_sweep E st)) =
       MPPT.sent st st1 ++ rest) /\
    ((points < 0)%Z -> ready = true ->
     MPPT.start_sweep E st =
       Ok tt
         (MPPT.set_ui
            (MPPT.ui st1 ++
             [Status "Running sweep...";
              LogError "Input error in start_sweep" ValueError;
              Warning "Input Error"
                "Please enter valid numeric values for all parameters."])
            st1)).
Proof.
  intros Hk Hsim Hstart Hstop Hpoints Hdelay.
  destruct (mppt_setupIV_returns E (MPPT.configuring start stop points delay st))
    as (ready & st1 & Hsetup).
  exists ready, st1. split; [exact Hsetup|].
  assert (Hgrow1 : MPPT.io_since anything st st1).
  { pose proof (mppt_setupIV_io_grows E st
                  (MPPT.configuring start stop points delay st)) as H.
    rewrite Hsetup in H. apply H. exists []. split; [|exact I].
    unfold MPPT.configuring. unfold_setters. simpl. now rewrite app_nil_r. }
  split.
  - unfold MPPT.start_sweep, bind at 1, get. rewrite Hk, Hsim. simpl.
    unfold try_except, any_exception.
    unfold bind at 1, modify.
    unfold MPPT.float, MPPT.int. rewrite Hstart, Hstop, Hpoints, Hdelay.
    unfold bind at 1, ret. unfold bind at 1. unfold bind at 1. unfold bind at 1.
    unfold bind at 1, MPPT.show at 1, modify.
    change (MPPT.set_ui _ (MPPT.set_abort_sweep false st))
      with (MPPT.configuring start stop points delay st).
    rewrite (bind_ok _ _ _ _ _ Hsetup).
    assert (Htail : hoare (MPPT.io_since anything st1)
              (if ready
               then
                 bind (MPPT.show (Status "Running sweep..."))
                   (fun _ =>
                      bind (MPPT.voltage_sweep E start stop points delay)
                        (fun _ => MPPT.show (Status "Sweep completed.")))
               else fun s => Ok tt s)
              (MPPT.io_since anything st1)).
    { destruct ready; [|intros s Hs; exact Hs].
      apply hoare_bind_inv; [hoare_steps; mppt_io_since anything_snoc|intros _].
      apply hoare_bind_inv; [apply mppt_voltage_sweep_io_grows|intros _].
      hoare_steps; mppt_io_since anything_snoc. }
    specialize (Htail st1 ltac:(exists []; split; [now rewrite app_nil_r|exact I])).
    match goal with
    | |- context [match ?m st1 with _ => _ end] =>
        change (m st1) with
          ((if ready
            then
              bind (MPPT.show (Status "Running sweep..."))
                (fun _ =>
                   bind (MPPT.voltage_sweep E start stop points delay)
                     (fun _ => MPPT.show (Status "Sweep completed.")))
            else fun s => Ok tt s) st1);
        destruct ((if ready
            then
              bind (MPPT.show (Status "Running sweep..."))
                (fun _ =>
                   bind (MPPT.voltage_sweep E start stop points delay)
                     (fun _ => MPPT.show (Status "Sweep completed.")))
            else fun s => Ok tt s) st1) as [[] s2|e s2]
    end; simpl in Htail.
    + destruct Htail as (t2 & Ht2 & _). destruct Hgrow1 as (t1 & Ht1 & _).
      exists t2. unfold MPPT.sent. simpl. rewrite Ht2, Ht1.
      rewrite <- app_assoc. now rewrite !skipn_length_app.
    + destruct Htail as (t2 & Ht2 & _). destruct Hgrow1 as (t1 & Ht1 & _).
      exists t2. unfold MPPT.sent.
      assert (Hio : MPPT.io
                (state_of
                   ((if is_ValueError e
                     then
                       bind (MPPT.show (LogError "Input error in start_sweep" e))
                         (fun _ =>
                            MPPT.show
                              (Warning "Input Error"
                                 "Please enter valid numeric values for all parameters."))
                     else
                       bind (MPPT.show (LogError "Error in start_sweep" e))
                         (fun _ =>
                            bind (MPPT.show
                                    (Critical "Sweep Error" "Error during sweep" e))
                              (fun _ => MPPT.show (StatusError "Sweep Error" e))))
                      s2)) = MPPT.io s2).
      { destruct (is_ValueError e); reflexivity. }
      rewrite Hio, Ht2, Ht1. rewrite <- app_assoc. now rewrite !skipn_length_app.
  - intros Hneg ->.
    unfold MPPT.start_sweep, bind at 1, get. rewrite Hk, Hsim. simpl.
    unfold try_except, any_exception.
    unfold bind at 1, modify.
    unfold MPPT.float, MPPT.int. rewrite Hstart, Hstop, Hpoints, Hdelay.
    unfold bind at 1, ret. unfold bind at 1. unfold bind at 1. unfold bind at 1.
    unfold bind at 1, MPPT.show at 1, modify.
    change (MPPT.set_ui _ (MPPT.set_abort_sweep false st))
      with (MPPT.configuring start stop points delay st).
    rewrite (bind_ok _ _ _ _ _ Hsetup).
    unfold MPPT.voltage_sweep, bind, MPPT.show, modify, raise.
    rewrite (proj2 (proj2 (np_linspace_few start stop)) points Hneg).
    unfold_setters. simpl. now rewrite <- !app_assoc.
Qed.

Lemma sweep_IVsweep_io_grows (E : Env) (start stop : Q) (points : Z) (delay : Q)
    (s0 : Sweep.App) :
  hoare (Sweep.io_since anything s0)
    (Sweep.IVsweep E start stop points delay)
    (Sweep.io_since anything s0).
Proof.
  unfold Sweep.IVsweep.
  destruct (np_linspace start stop points) as [sweep_values|];
    [|apply hoare_raise].
  apply hoare_bind_inv.
  - apply ivsweep_loop_hoare.
    + intros value voltages currents.
      unfold Sweep.sweep_point, Sweep.read_point.
      hoare_steps; sweep_io_since anything_snoc.
    + intros s e Hs. exact Hs.
  - intros data. hoare_steps; sweep_io_since anything_snoc.
Qed.

Lemma sweep_setupIV_io_grows (E : Env) (s0 : Sweep.App) :
  hoare (Sweep.io_since anything s0) (Sweep.setupIV E)
    (Sweep.io_since anything s0).
Proof.
  unfold Sweep.setupIV. hoare_steps; sweep_io_since anything_snoc.
Qed.

Lemma sweep_start_sweep_configures (E : Env) (st : Sweep.App)
    (start stop : Q) (points : Z) (delay : Q) :
  py_float E (Sweep.start_input st) = Some start ->
  py_float E (Sweep.stop_input st) = Some stop ->
  py_int E (Sweep.points_input st) = Some points ->
  py_float E (Sweep.delay_input st) = Some delay ->
  (exists rest,
     Sweep.sent st (state_of (Sweep.start_sweep E st)) =
     Sweep.sent st (state_of (Sweep.setupIV E (Sweep.configuring st))) ++ rest) /\
  ((points < 0)%Z ->
   forall st1, Sweep.setupIV E (Sweep.configuring st) = Ok tt st1 ->
     Sweep.start_sweep E st = Raise ValueError st1).
Proof.
  intros Hstart Hstop Hpoints Hdelay.
  assert (Hrun : Sweep.start_sweep E st =
                 bind (Sweep.setupIV E)
                   (fun _ => Sweep.IVsweep E start stop points delay)
                   (Sweep.configuring st)).
  { unfold Sweep.start_sweep, bind at 1, modify.
    unfold bind at 1, get.
    unfold Sweep.float, Sweep.int. simpl.
    rewrite Hstart, Hstop, Hpoints, Hdelay. reflexivity. }
  rewrite Hrun.
  assert (Hgrow1 : Sweep.io_since anything st
                     (state_of (Sweep.setupIV E (Sweep.configuring st)))).
  { apply (sweep_setupIV_io_grows E st). exists []. split; [|exact I].
    simpl. now rewrite app_nil_r. }
  split.
  - destruct (Sweep.setupIV E (Sweep.configuring st)) as [[] st1|e st1] eqn:Hsetup.
    + rewrite (bind_ok _ _ _ _ _ Hsetup).
      pose proof (sweep_IVsweep_io_grows E start stop points delay st1 st1) as Hgrow2.
      specialize (Hgrow2 ltac:(exists []; split; [now rewrite app_nil_r|exact I])).
      destruct Hgrow2 as (t2 & Ht2 & _). destruct Hgrow1 as (t1 & Ht1 & _).
      simpl in Ht1. exists t2. unfold Sweep.sent. simpl. rewrite Ht2, Ht1.
      rewrite <- app_assoc. now rewrite !skipn_length_app.
    + rewrite (bind_raise _ _ _ _ _ Hsetup). exists []. now rewrite app_nil_r.
  - intros Hneg st1 Hsetup. rewrite (bind_ok _ _ _ _ _ Hsetup).
    unfold Sweep.IVsweep.
    now rewrite (proj2 (proj2 (np_linspace_few start stop)) points Hneg).
Qed.

(** C7, as the sources have it.  Nothing rejects a sweep of fewer than two
    points before the instrument is configured.  [np.linspace] returns the
    one setpoint [start] for one point, no setpoint for none, and raises
    [ValueError] for a negative count; [start_sweep] calls it only after
    [setupIV], so whatever the count the run first sends the commands of
    [setupIV].  For a negative count [MPPT.py] then reports an input error
    and [sweep.py] lets the [ValueError] escape, in both with the output
    left as [setupIV] set it. *)
Theorem C7_fewer_than_two_points (E : Env) (start stop : Q) (points : Z)
    (delay : Q) :
  (points < 2)%Z ->
  ((points = 1%Z ->
    exists v, np_linspace start stop points = Some [v] /\ v == start) /\
   (points = 0%Z -> np_linspace start stop points = Some []) /\
   ((points < 0)%Z -> np_linspace start stop points = None)) /\
  (forall st : MPPT.App,
     MPPT.keithley st = true ->
     MPPT.simulation_mode st = false ->
     py_float E (MPPT.start_voltage st) = Some start ->
     py_float E (MPPT.stop_voltage st) = Some stop ->
     py_int E (MPPT.points_input st) = Some points ->
     py_float E (MPPT.delay_input st) = Some delay ->
     exists ready st1,
       MPPT.setupIV E (MPPT.configuring start stop points delay st)
         = Ok ready st1 /\
       (exists rest,
          MPPT.sent st (state_of (MPPT.start_sweep E st)) =
          MPPT.sent st st1 ++ rest) /\
       ((points < 0)%Z -> ready = true ->
        MPPT.start_sweep E st =
          Ok tt
            (MPPT.set_ui
               (MPPT.ui st1 ++
                [Status "Running sweep...";
                 LogError "Input error in start_sweep" ValueError;
                 Warning "Input Error"
                   "Please enter valid numeric values for all parameters."])
               st1))) /\
  (forall st : Sweep.App,
     py_float E (Sweep.start_input st) = Some start ->
     py_float E (Sweep.stop_input st) = Some stop ->
     py_int E (Sweep.points_input st) = Some points ->
     py_float E (Sweep.delay_input st) = Some delay ->
     (exists rest,
        Sweep.sent st (state_of (Sweep.start_sweep E st)) =
        Sweep.sent st (state_of (Sweep.setupIV E (Sweep.configuring st)))
          ++ rest) /\
     ((points < 0)%Z ->
      forall st1, Sweep.setupIV E (Sweep.configuring st) = Ok tt st1 ->
        Sweep.start_sweep E st = Raise ValueError st1)).
Proof.
  intros _. split; [|split].
  - destruct (np_linspace_few start stop) as (Hone & Hzero & Hneg).
    split; [|split].
    + intros ->. exact Hone.
    + intros ->. exact Hzero.
    + apply Hneg.
  - intros st. apply mppt_start_sweep_configures.
  - intros st. apply sweep_start_sweep_configures.
Qed.

(** ** The compliance limit and the output *)

Lemma limit_sent_first_snoc (limit : IOop) (t : list IOop) (op : IOop) :
  limit_sent_first limit t -> true = true -> limit_sent_first limit (t ++ [op]).
Proof.
  intros (pre & post & -> & Hpre) _. exists pre, (post ++ [op]).
  split; [now rewrite <- app_assoc|exact Hpre].
Qed.

Lemma limit_guards_output_snoc (limit : IOop) (t : list IOop) (op : IOop) :
  limit_guards_output limit t -> is_output_on op = false ->
  limit_guards_output limit (t ++ [op]).
Proof.
  intros [H|H] Hop; [left; now apply no_output_on_snoc|].
  right. now apply limit_sent_first_snoc.
Qed.

(** What the invariant gives at the end of a run: each command that enables
    the output has the limit before it. *)
Lemma limit_guards_output_sound (limit : IOop) (ops : list IOop) :
  is_output_on limit = false ->
  limit_guards_output limit ops -> limit_precedes_output limit ops.
Proof.
  intros Hlimit [Hnone|(pre & post & -> & Hpre)] i enable Hi Hen.
  - unfold no_output_on in Hnone. rewrite forallb_forall in Hnone.
    apply nth_error_In, Hnone in Hi. rewrite Hen in Hi. discriminate.
  - exists (List.length pre). split.
    + destruct (Nat.lt_trichotomy i (List.length pre)) as [Hlt|[Heq|Hgt]];
        [| |exact Hgt].
      * rewrite nth_error_app1 in Hi by exact Hlt.
        unfold no_output_on in Hpre. rewrite forallb_forall in Hpre.
        apply nth_error_In, Hpre in Hi. rewrite Hen in Hi. discriminate.
      * subst i. rewrite nth_error_app2, Nat.sub_diag in Hi by lia.
        simpl in Hi. injection Hi as <-. congruence.
    + rewrite nth_error_app2, Nat.sub_diag by lia. reflexivity.
Qed.

Lemma no_current_limit_snoc (t : list IOop) (op : IOop) :
  no_current_limit t -> is_current_limit op = false ->
  no_current_limit (t ++ [op]).
Proof.
  unfold no_current_limit. intros Ht Hop.
  rewrite forallb_app, Ht. simpl. now rewrite Hop.
Qed.

Lemma no_voltage_limit_snoc (t : list IOop) (op : IOop) :
  no_voltage_limit t -> is_voltage_limit op = false ->
  no_voltage_limit (t ++ [op]).
Proof.
  unfold no_voltage_limit. intros Ht Hop.
  rewrite forallb_app, Ht. simpl. now rewrite Hop.
Qed.

(** *** [MPPT.py] *)

(** Side conditions of the primitives for an invariant on the Max Current
    field and on what the handle has seen. *)
Ltac mppt_setting_since snoc :=
  match goal with
  | H : MPPT.setting_since _ _ ?s |- MPPT.setting_since _ _ _ =>
      let Hf := fresh "Hf" in
      let Hio := fresh "Hio" in
      destruct H as [Hf Hio]; split; [exact Hf | mppt_io_since snoc]
  end.

Lemma mppt_setting_io (P : list IOop -> Prop) (s0 s : MPPT.App) :
  MPPT.setting_since P s0 s -> MPPT.io_since P s0 s.
Proof. intros [_ H]. exact H. Qed.

Lemma mppt_guard_of_pending (limit : IOop) (s0 s : MPPT.App) :
  MPPT.io_since no_output_on s0 s ->
  MPPT.io_since (limit_guards_output limit) s0 s.
Proof. intros (t & Ht & HP). exists t. split; [exact Ht|now left]. Qed.

Lemma mppt_guard_of_sent (limit : IOop) (s0 s : MPPT.App) :
  MPPT.io_since (limit_sent_first limit) s0 s ->
  MPPT.io_since (limit_guards_output limit) s0 s.
Proof. intros (t & Ht & HP). exists t. split; [exact Ht|now right]. Qed.

(** The write of the limit, while the output has not been enabled: when it
    returns the limit has been sent first. *)
Lemma mppt_write_limit (E : Env) (cmd : string) (s0 : MPPT.App) :
  triple (MPPT.io_since no_output_on s0) (MPPT.write E cmd)
    (fun _ => MPPT.io_since (limit_sent_first (Write cmd)) s0)
    (fun _ => MPPT.io_since (limit_guards_output (Write cmd)) s0).
Proof.
  intros s Hs. unfold MPPT.write.
  destruct (MPPT.keithley s); [|now apply mppt_guard_of_pending].
  assert (Hafter : MPPT.io_since (limit_sent_first (Write cmd)) s0
                     (MPPT.set_io (MPPT.io s ++ [Write cmd]) s)).
  { destruct Hs as (t & Ht & HP). exists (t ++ [Write cmd]). split.
    - unfold_setters. simpl. now rewrite Ht, app_assoc.
    - exists t, []. auto. }
  destruct (instr_write E (MPPT.io s) cmd);
    [exact Hafter|now apply mppt_guard_of_sent].
Qed.

(** The sweep itself enables nothing. *)
Lemma mppt_voltage_sweep_guard (E : Env) (limit : IOop) (start stop : Q)
    (points : Z) (delay : Q) (s0 : MPPT.App) :
  hoare (MPPT.io_since (limit_guards_output limit) s0)
    (MPPT.voltage_sweep E start stop points delay)
    (MPPT.io_since (limit_guards_output limit) s0).
Proof.
  mppt_unfold. hoare_steps; try mppt_io_since limit_guards_output_snoc.
  apply sweep_loop_hoare. intros idx v.
  mppt_unfold. hoare_steps; mppt_io_since limit_guards_output_snoc.
Qed.

(** [setupIV] with text in the Max Current field: up to the write of the
    limit the output has not been enabled, and from then on the limit has
    been sent first. *)
Lemma mppt_setupIV_guard (E : Env) (s0 : MPPT.App) :
  nonempty (strip (MPPT.max_current_input s0)) = true ->
  hoare (MPPT.setting_since no_output_on s0) (MPPT.setupIV E)
    (MPPT.io_since
       (limit_guards_output
          (Write (":SENS:CURR:PROT " ++ strip (MPPT.max_current_input s0))))
       s0).
Proof.
  intros Hentered. unfold MPPT.setupIV.
  set (limit := Write (":SENS:CURR:PROT " ++ strip (MPPT.max_current_input s0))).
  apply hoare_get_bind. intros st [Hfield _].
  apply (hoare_weaken _ (MPPT.io_since no_output_on s0) _
           (MPPT.io_since (limit_guards_output limit) s0));
    [|apply mppt_setting_io|auto].
  destruct (MPPT.simulation_mode st).
  - apply (hoare_weaken _ (MPPT.io_since no_output_on s0) _
             (MPPT.io_since no_output_on s0));
      [|auto|apply mppt_guard_of_pending].
    hoare_steps; mppt_io_since no_output_on_snoc.
  - apply hoare_try_except;
      [|intros e; hoare_steps; mppt_io_since limit_guards_output_snoc].
    do 6 (apply (hoare_bind _ (MPPT.io_since no_output_on s0) _);
          [hoare_steps; mppt_io_since no_output_on_snoc
          |intros _
          |apply mppt_guard_of_pending]).
    cbv zeta. rewrite Hfield, Hentered.
    apply (hoare_bind_triple _ (MPPT.io_since (limit_sent_first limit) s0) _).
    + apply (triple_bind _ (fun _ => MPPT.io_since (limit_sent_first limit) s0));
        [apply mppt_write_limit|].
      intros _ s Hs. exact Hs.
    + intros _.
      apply (hoare_weaken _ (MPPT.io_since (limit_sent_first limit) s0) _
               (MPPT.io_since (limit_sent_first limit) s0));
        [|auto|apply mppt_guard_of_sent].
      hoare_steps; mppt_io_since limit_sent_first_snoc.
Qed.

Lemma mppt_start_sweep_guard (E : Env) (s0 : MPPT.App) :
  nonempty (strip (MPPT.max_current_input s0)) = true ->
  hoare (MPPT.setting_since no_output_on s0) (MPPT.start_sweep E)
    (MPPT.io_since
       (limit_guards_output
          (Write (":SENS:CURR:PROT " ++ strip (MPPT.max_current_input s0))))
       s0).
Proof.
  intros Hentered. unfold MPPT.start_sweep.
  set (limit := Write (":SENS:CURR:PROT " ++ strip (MPPT.max_current_input s0))).
  assert (Hweak : forall s, MPPT.setting_since no_output_on s0 s ->
                    MPPT.io_since (limit_guards_output limit) s0 s).
  { intros s Hs. apply mppt_guard_of_pending, mppt_setting_io, Hs. }
  apply (hoare_bind _ (MPPT.setting_since no_output_on s0) _);
    [apply hoare_get| |exact Hweak].
  intros st. destruct (_ && _).
  - apply (hoare_weaken _ (MPPT.setting_since no_output_on s0) _
             (MPPT.setting_since no_output_on s0));
      [|auto|exact Hweak].
    hoare_steps; mppt_setting_since no_output_on_snoc.
  - apply hoare_try_except;
      [|intros e; hoare_steps; mppt_io_since limit_guards_output_snoc].
    do 6 (apply (hoare_bind _ (MPPT.setting_since no_output_on s0) _);
          [hoare_steps; mppt_setting_since no_output_on_snoc
          |intros ?
          |exact Hweak]).
    apply (hoare_bind _ (MPPT.io_since (limit_guards_output limit) s0) _);
      [|intros ready|auto].
    + destruct (MPPT.simulation_mode st);
        [|now apply mppt_setupIV_guard].
      apply (hoare_weaken _ (MPPT.setting_since no_output_on s0) _
               (MPPT.setting_since no_output_on s0));
        [apply hoare_ret|auto|exact Hweak].
    + destruct ready; [|apply hoare_ret].
      apply hoare_bind_inv;
        [hoare_steps; mppt_io_since limit_guards_output_snoc|intros _].
      apply hoare_bind_inv; [apply mppt_voltage_sweep_guard|intros _].
      hoare_steps; mppt_io_since limit_guards_output_snoc.
Qed.

Lemma mppt_setting_since_refl (P : list IOop -> Prop) (s : MPPT.App) :
  P [] -> MPPT.setting_since P s s.
Proof. intros HP. split; [reflexivity|now apply mppt_io_since_refl]. Qed.

(** With the Max Current field empty, no compliance command is sent. *)
Lemma mppt_voltage_sweep_unlimited (E : Env) (start stop : Q) (points : Z)
    (delay : Q) (s0 : MPPT.App) :
  hoare (MPPT.setting_since no_compliance s0)
    (MPPT.voltage_sweep E start stop points delay)
    (MPPT.setting_since no_compliance s0).
Proof.
  mppt_unfold. hoare_steps; try mppt_setting_since no_compliance_snoc.
  apply sweep_loop_hoare. intros idx v.
  mppt_unfold. hoare_steps; mppt_setting_since no_compliance_snoc.
Qed.

Lemma mppt_setupIV_unlimited (E : Env) (s0 : MPPT.App) :
  nonempty (strip (MPPT.max_current_input s0)) = false ->
  hoare (MPPT.setting_since no_compliance s0) (MPPT.setupIV E)
    (MPPT.setting_since no_compliance s0).
Proof.
  intros Hblank. unfold MPPT.setupIV.
  apply hoare_get_bind. intros st [Hfield _].
  cbv zeta. rewrite Hfield, Hblank.
  hoare_steps; mppt_setting_since no_compliance_snoc.
Qed.

Lemma mppt_start_sweep_unlimited (E : Env) (s0 : MPPT.App) :
  nonempty (strip (MPPT.max_current_input s0)) = false ->
  hoare (MPPT.setting_since no_compliance s0) (MPPT.start_sweep E)
    (MPPT.setting_since no_compliance s0).
Proof.
  intros Hblank. unfold MPPT.start_sweep.
  hoare_steps;
    first [ now apply mppt_setupIV_unlimited
          | apply mppt_voltage_sweep_unlimited
          | mppt_setting_since no_compliance_snoc ].
Qed.

(** *** [sweep.py] *)

(** Side conditions of the primitives for an invariant on the two limit
    fields and on what the handle has seen. *)
Ltac sweep_setting_since snoc :=
  match goal with
  | H : Sweep.setting_since _ _ ?s |- Sweep.setting_since _ _ _ =>
      let Hc := fresh "Hc" in
      let Hv := fresh "Hv" in
      let Hio := fresh "Hio" in
      destruct H as (Hc & Hv & Hio);
      split; [exact Hc | split; [exact Hv | sweep_io_since snoc]]
  end.

Lemma sweep_setting_io (P : list IOop -> Prop) (s0 s : Sweep.App) :
  Sweep.setting_since P s0 s -> Sweep.io_since P s0 s.
Proof. intros (_ & _ & H). exact H. Qed.

Lemma sweep_setting_since_refl (P : list IOop -> Prop) (s : Sweep.App) :
  P [] -> Sweep.setting_since P s s.
Proof.
  intros HP. split; [reflexivity|]. split; [reflexivity|].
  now apply sweep_io_since_refl.
Qed.

Lemma sweep_guard_of_pending (limit : IOop) (s0 s : Sweep.App) :
  Sweep.io_since no_output_on s0 s ->
  Sweep.io_since (limit_guards_output limit) s0 s.
Proof. intros (t & Ht & HP). exists t. split; [exact Ht|now left]. Qed.

Lemma sweep_guard_of_sent (limit : IOop) (s0 s : Sweep.App) :
  Sweep.io_since (limit_sent_first limit) s0 s ->
  Sweep.io_since (limit_guards_output limit) s0 s.
Proof. intros (t & Ht & HP). exists t. split; [exact Ht|now right]. Qed.

Lemma sweep_write_limit (E : Env) (cmd : string) (s0 : Sweep.App) :
  triple (Sweep.io_since no_output_on s0) (Sweep.write E cmd)
    (fun _ => Sweep.io_since (limit_sent_first (Write cmd)) s0)
    (fun _ => Sweep.io_since (limit_guards_output (Write cmd)) s0).
Proof.
  intros s Hs. unfold Sweep.write.
  destruct (Sweep.keithley s); [|now apply sweep_guard_of_pending].
  assert (Hafter : Sweep.io_since (limit_sent_first (Write cmd)) s0
                     (Sweep.set_io (Sweep.io s ++ [Write cmd]) s)).
  { destruct Hs as (t & Ht & HP). exists (t ++ [Write cmd]). split.
    - unfold_setters. simpl. now rewrite Ht, app_assoc.
    - exists t, []. auto. }
  destruct (instr_write E (Sweep.io s) cmd);
    [exact Hafter|now apply sweep_guard_of_sent].
Qed.

Lemma sweep_IVsweep_guard (E : Env) (limit : IOop) (start stop : Q)
    (points : Z) (delay : Q) (s0 : Sweep.App) :
  hoare (Sweep.io_since (limit_guards_output limit) s0)
    (Sweep.IVsweep E start stop points delay)
    (Sweep.io_since (limit_guards_output limit) s0).
Proof.
  unfold Sweep.IVsweep.
  destruct (np_linspace start stop points) as [sweep_values|];
    [|apply hoare_raise].
  apply hoare_bind_inv.
  - apply ivsweep_loop_hoare.
    + intros value voltages currents.
      unfold Sweep.sweep_point, Sweep.read_point.
      hoare_steps; sweep_io_since limit_guards_output_snoc.
    + intros s e Hs. exact Hs.
  - intros data. hoare_steps; sweep_io_since limit_guards_output_snoc.
Qed.

Lemma sweep_setupIV_current_guard (E : Env) (s0 : Sweep.App) :
  nonempty (strip (Sweep.max_current_input s0)) = true ->
  hoare (Sweep.setting_since no_output_on s0) (Sweep.setupIV E)
    (Sweep.io_since
       (limit_guards_output
          (Write (":SENS:CURR:PROT " ++ strip (Sweep.max_current_input s0))))
       s0).
Proof.
  intros Hentered. unfold Sweep.setupIV.
  set (limit := Write (":SENS:CURR:PROT " ++ strip (Sweep.max_current_input s0))).
  apply hoare_get_bind. intros st (Hfield & _ & _).
  apply (hoare_weaken _ (Sweep.io_since no_output_on s0) _
           (Sweep.io_since (limit_guards_output limit) s0));
    [|apply sweep_setting_io|auto].
  do 3 (apply (hoare_bind _ (Sweep.io_since no_output_on s0) _);
        [hoare_steps; sweep_io_since no_output_on_snoc
        |intros _
        |apply sweep_guard_of_pending]).
  cbv zeta. rewrite Hfield, Hentered.
  apply (hoare_bind_triple _ (Sweep.io_since (limit_sent_first limit) s0) _);
    [apply sweep_write_limit|intros _].
  apply (hoare_weaken _ (Sweep.io_since (limit_sent_first limit) s0) _
           (Sweep.io_since (limit_sent_first limit) s0));
    [|auto|apply sweep_guard_of_sent].
  hoare_steps; sweep_io_since limit_sent_first_snoc.
Qed.

Lemma sweep_setupIV_voltage_guard (E : Env) (s0 : Sweep.App) :
  nonempty (strip (Sweep.max_voltage_input s0)) = true ->
  hoare (Sweep.setting_since no_output_on s0) (Sweep.setupIV E)
    (Sweep.io_since
       (limit_guards_output
          (Write (":SENS:VOLT:PROT " ++ strip (Sweep.max_voltage_input s0))))
       s0).
Proof.
  intros Hentered. unfold Sweep.setupIV.
  set (limit := Write (":SENS:VOLT:PROT " ++ strip (Sweep.max_voltage_input s0))).
  apply hoare_get_bind. intros st (_ & Hfield & _).
  apply (hoare_weaken _ (Sweep.io_since no_output_on s0) _
           (Sweep.io_since (limit_guards_output limit) s0));
    [|apply sweep_setting_io|auto].
  do 4 (apply (hoare_bind _ (Sweep.io_since no_output_on s0) _);
        [hoare_steps; sweep_io_since no_output_on_snoc
        |intros _
        |apply sweep_guard_of_pending]).
  cbv zeta. rewrite Hfield, Hentered.
  apply (hoare_bind_triple _ (Sweep.io_since (limit_sent_first limit) s0) _);
    [apply sweep_write_limit|intros _].
  apply (hoare_weaken _ (Sweep.io_since (limit_sent_first limit) s0) _
           (Sweep.io_since (limit_sent_first limit) s0));
    [|auto|apply sweep_guard_of_sent].
  hoare_steps; sweep_io_since limit_sent_first_snoc.
Qed.

(** [start_sweep] of [sweep.py], given what [setupIV] does for a limit. *)
Lemma sweep_start_sweep_guard (E : Env) (limit : IOop) (s0 : Sweep.App) :
  hoare (Sweep.setting_since no_output_on s0) (Sweep.setupIV E)
    (Sweep.io_since (limit_guards_output limit) s0) ->
  hoare (Sweep.setting_since no_output_on s0) (Sweep.start_sweep E)
    (Sweep.io_since (limit_guards_output limit) s0).
Proof.
  intros Hsetup. unfold Sweep.start_sweep.
  do 6 (apply (hoare_bind _ (Sweep.setting_since no_output_on s0) _);
        [hoare_steps; sweep_setting_since no_output_on_snoc
        |intros ?
        |intros s Hs; apply sweep_guard_of_pending, sweep_setting_io, Hs]).
  apply (hoare_bind _ (Sweep.io_since (limit_guards_output limit) s0) _);
    [exact Hsetup|intros _|auto].
  apply sweep_IVsweep_guard.
Qed.

(** With a limit field empty, the command of that limit is not sent. *)
Lemma sweep_start_sweep_no_current_limit (E : Env) (s0 : Sweep.App) :
  nonempty (strip (Sweep.max_current_input s0)) = false ->
  hoare (Sweep.setting_since no_current_limit s0) (Sweep.start_sweep E)
    (Sweep.setting_since no_current_limit s0).
Proof.
  intros Hblank.
  assert (Hsetup : hoare (Sweep.setting_since no_current_limit s0)
                     (Sweep.setupIV E)
                     (Sweep.setting_since no_current_limit s0)).
  { unfold Sweep.setupIV. apply hoare_get_bind. intros st (Hfield & _ & _).
    cbv zeta. rewrite Hfield, Hblank.
    hoare_steps; sweep_setting_since no_current_limit_snoc. }
  unfold Sweep.start_sweep, Sweep.IVsweep.
  hoare_steps;
    first [ exact Hsetup
          | apply ivsweep_loop_hoare;
            [ intros value voltages currents;
              unfold Sweep.sweep_point, Sweep.read_point;
              hoare_steps; sweep_setting_since no_current_limit_snoc
            | intros s e Hs; exact Hs ]
          | sweep_setting_since no_current_limit_snoc ].
Qed.

Lemma sweep_start_sweep_no_voltage_limit (E : Env) (s0 : Sweep.App) :
  nonempty (strip (Sweep.max_voltage_input s0)) = false ->
  hoare (Sweep.setting_since no_voltage_limit s0) (Sweep.start_sweep E)
    (Sweep.setting_since no_voltage_limit s0).
Proof.
  intros Hblank.
  assert (Hsetup : hoare (Sweep.setting_since no_voltage_limit s0)
                     (Sweep.setupIV E)
                     (Sweep.setting_since no_voltage_limit s0)).
  { unfold Sweep.setupIV. apply hoare_get_bind. intros st (_ & Hfield & _).
    cbv zeta. rewrite Hfield, Hblank.
    hoare_steps; sweep_setting_since no_voltage_limit_snoc. }
  unfold Sweep.start_sweep, Sweep.IVsweep.
  hoare_steps;
    first [ exact Hsetup
          | apply ivsweep_loop_hoare;
            [ intros value voltages currents;
              unfold Sweep.sweep_point, Sweep.read_point;
              hoare_steps; sweep_setting_since no_voltage_limit_snoc
            | intros s e Hs; exact Hs ]
          | sweep_setting_since no_voltage_limit_snoc ].
Qed.
(** With a handle and an instrument that accepts every command, [setupIV]
    succeeds and enables the output. *)
Lemma mppt_setupIV_enables (E : Env) (s : MPPT.App) :
  MPPT.keithley s = true -> MPPT.simulation_mode s = false ->
  (forall history cmd, instr_write E history cmd = true) ->
  exists s1,
    MPPT.setupIV E s = Ok true s1 /\ In (Write ":OUTP ON") (MPPT.sent s s1).
Proof.
  intros Hk Hsim Haccepts.
  destruct s as [k a sim V C P sv spv pts dl mc fw io ui rng].
  simpl in Hk, Hsim. subst k sim.
  unfold MPPT.setupIV, MPPT.write, MPPT.sent, any_exception.
  unfold_monad. unfold_setters. simpl.
  destruct fw, (nonempty (strip mc)); simpl;
    repeat (rewrite Haccepts; simpl).
  all: eexists; (split; [reflexivity|]); simpl; trace_norm; auto 10.
Qed.

Lemma sweep_setupIV_enables (E : Env) (s : Sweep.App) :
  Sweep.keithley s = true ->
  (forall history cmd, instr_write E history cmd = true) ->
  exists s1,
    Sweep.setupIV E s = Ok tt s1 /\ In (Write ":OUTP ON") (Sweep.sent s s1).
Proof.
  intros Hk Haccepts.
  destruct s as [k a vr fw rt si spi pts dl mc mv io ui].
  simpl in Hk. subst k.
  unfold Sweep.setupIV, Sweep.write, Sweep.sent.
  unfold_monad. unfold_setters. simpl.
  destruct vr, fw, rt, (nonempty (strip mc)), (nonempty (strip mv)); simpl;
    repeat (rewrite Haccepts; simpl).
  all: eexists; (split; [reflexivity|]); simpl; trace_norm; auto 10.
Qed.

(** C8, as the sources have it.  In every run that [start_sweep] starts, in
    [MPPT.py] and in [sweep.py], no command that sets a compliance limit
    follows the command that enables the output.  When the Max Current field
    holds text (in [sweep.py] also: when the Max Voltage field holds text),
    the command that sets that limit to the text is written before the
    command that enables the output, whenever the latter is written.  When
    the field is empty, no command for that limit is sent, and the output is
    enabled without it: with a handle, on the hardware path, with inputs that
    convert and an instrument that accepts every command, the command that
    enables the output is written whatever the limit fields hold. *)
Theorem C8_limit_written_before_output_enable (E : Env) :
  (forall st : MPPT.App,
     limits_before_output
       (MPPT.sent st (state_of (MPPT.start_sweep E st))) /\
     (nonempty (strip (MPPT.max_current_input st)) = true ->
      limit_precedes_output
        (Write (":SENS:CURR:PROT " ++ strip (MPPT.max_current_input st)))
        (MPPT.sent st (state_of (MPPT.start_sweep E st)))) /\
     (nonempty (strip (MPPT.max_current_input st)) = false ->
      no_compliance (MPPT.sent st (state_of (MPPT.start_sweep E st)))) /\
     (forall start stop points delay,
        MPPT.keithley st = true ->
        MPPT.simulation_mode st = false ->
        py_float E (MPPT.start_voltage st) = Some start ->
        py_float E (MPPT.stop_voltage st) = Some stop ->
        py_int E (MPPT.points_input st) = Some points ->
        py_float E (MPPT.delay_input st) = Some delay ->
        (forall history cmd, instr_write E history cmd = true) ->
        In (Write ":OUTP ON")
           (MPPT.sent st (state_of (MPPT.start_sweep E st))))) /\
  (forall st : Sweep.App,
     limits_before_output
       (Sweep.sent st (state_of (Sweep.start_sweep E st))) /\
     (nonempty (strip (Sweep.max_current_input st)) = true ->
      limit_precedes_output
        (Write (":SENS:CURR:PROT " ++ strip (Sweep.max_current_input st)))
        (Sweep.sent st (state_of (Sweep.start_sweep E st)))) /\
     (nonempty (strip (Sweep.max_voltage_input st)) = true ->
      limit_precedes_output
        (Write (":SENS:VOLT:PROT " ++ strip (Sweep.max_voltage_input st)))
        (Sweep.sent st (state_of (Sweep.start_sweep E st)))) /\
     (nonempty (strip (Sweep.max_current_input st)) = false ->
      no_current_limit (Sweep.sent st (state_of (Sweep.start_sweep E st)))) /\
     (nonempty (strip (Sweep.max_voltage_input st)) = false ->
      no_voltage_limit (Sweep.sent st (state_of (Sweep.start_sweep E st)))) /\
     (forall start stop points delay,
        Sweep.keithley st = true ->
        py_float E (Sweep.start_input st) = Some start ->
        py_float E (Sweep.stop_input st) = Some stop ->
        py_int E (Sweep.points_input st) = Some points ->
        py_float E (Sweep.delay_input st) = Some delay ->
        (forall history cmd, instr_write E history cmd = true) ->
        In (Write ":OUTP ON")
           (Sweep.sent st (state_of (Sweep.start_sweep E st))))).
Proof.
  split; intros st.
  - split; [|split; [|split]].
    + apply limits_before_output_b_sound.
      apply (mppt_io_since_sent limits_first).
      apply mppt_start_sweep_limits. now apply mppt_io_since_refl.
    + intros Hentered. apply limit_guards_output_sound; [reflexivity|].
      apply (mppt_io_since_sent (limit_guards_output _)).
      apply mppt_start_sweep_guard; [exact Hentered|].
      now apply mppt_setting_since_refl.
    + intros Hblank. apply (mppt_io_since_sent no_compliance).
      apply mppt_setting_io.
      apply mppt_start_sweep_unlimited; [exact Hblank|].
      now apply mppt_setting_since_refl.
    + intros start stop points delay Hk Hsim Hstart Hstop Hpoints Hdelay
        Haccepts.
      destruct (mppt_start_sweep_configures E st start stop points delay
                  Hk Hsim Hstart Hstop Hpoints Hdelay)
        as (ready & st1 & Hsetup & (rest & Hsent) & _).
      destruct (mppt_setupIV_enables E
                  (MPPT.configuring start stop points delay st) Hk Hsim Haccepts)
        as (s1 & Hsetup' & Hon).
      rewrite Hsetup in Hsetup'. injection Hsetup' as _ <-.
      rewrite Hsent. apply in_or_app. left. exact Hon.
  - split; [|split; [|split; [|split; [|split]]]].
    + apply limits_before_output_b_sound.
      apply (sweep_io_since_sent limits_first).
      apply sweep_start_sweep_limits. now apply sweep_io_since_refl.
    + intros Hentered. apply limit_guards_output_sound; [reflexivity|].
      apply (sweep_io_since_sent (limit_guards_output _)).
      apply sweep_start_sweep_guard;
        [now apply sweep_setupIV_current_guard|].
      now apply sweep_setting_since_refl.
    + intros Hentered. apply limit_guards_output_sound; [reflexivity|].
      apply (sweep_io_since_sent (limit_guards_output _)).
      apply sweep_start_sweep_guard;
        [now apply sweep_setupIV_voltage_guard|].
      now apply sweep_setting_since_refl.
    + intros Hblank. apply (sweep_io_since_sent no_current_limit).
      apply sweep_setting_io.
      apply sweep_start_sweep_no_current_limit; [exact Hblank|].
      now apply sweep_setting_since_refl.
    + intros Hblank. apply (sweep_io_since_sent no_voltage_limit).
      apply sweep_setting_io.
      apply sweep_start_sweep_no_voltage_limit; [exact Hblank|].
      now apply sweep_setting_since_refl.
    + intros start stop points delay Hk Hstart Hstop Hpoints Hdelay Haccepts.
      destruct (sweep_start_sweep_configures E st start stop points delay
                  Hstart Hstop Hpoints Hdelay) as [(rest & Hsent) _].
      destruct (sweep_setupIV_enables E (Sweep.configuring st) Hk Haccepts)
        as (s1 & Hsetup & Hon).
      rewrite Hsetup in Hsent. simpl in Hsent.
      rewrite Hsent. apply in_or_app. left. exact Hon.
Qed.

(** ** Cancellation before the first setpoint *)

Ltac mppt_same_mode :=
  match goal with
  | H : MPPT.same_mode _ ?s |- MPPT.same_mode _ _ => exact H
  end.

Ltac mppt_ui_grows :=
  match goal with
  | H : MPPT.ui_since any_events _ ?s
    |- MPPT.ui_since any_events _ (MPPT.set_ui (MPPT.ui ?s ++ [?e]) ?s) =>
      let t := fresh "t" in
      let Ht := fresh "Ht" in
      let HP := fresh "HP" in
      destruct H as (t & Ht & HP); exists (t ++ [e]);
      split;
      [ unfold_setters; simpl; rewrite Ht, app_assoc; reflexivity
      | exact I ]
  | H : MPPT.ui_since any_events _ ?s |- MPPT.ui_since any_events _ _ => exact H
  end.

Lemma shutdown_output_ui_grows (E : Env) (s0 : MPPT.App) :
  hoare (MPPT.ui_since any_events s0) (MPPT.shutdown_output E)
    (MPPT.ui_since any_events s0).
Proof. mppt_unfold. hoare_steps; mppt_ui_grows. Qed.

(** What [shutdown_output] sends, and that it keeps the three lists. *)
Lemma shutdown_output_sent (E : Env) (s1 s2 : MPPT.App) :
  MPPT.shutdown_output E s1 = Ok tt s2 ->
  MPPT.io s2 = MPPT.io s1 ++ MPPT.shutdown_ops E s1 /\
  MPPT.same_data s1 s2.
Proof.
  unfold MPPT.shutdown_output, MPPT.shutdown_ops, MPPT.write.
  unfold any_exception. unfold_monad.
  destruct s1 as [k a sim V C P sv spv pts dl mc fw io ui rng]. simpl.
  destruct sim; simpl; [|destruct k; simpl;
    [destruct (instr_write E io ":SOUR:VOLT 0"); simpl;
      [destruct (instr_write E _ ":OUTP OFF"); simpl|]|]];
    intros Hrun; injection Hrun as <-; unfold MPPT.same_data; simpl;
    rewrite <- ?app_assoc, ?app_nil_r; auto.
Qed.

Lemma report_sweep_io (s2 s3 : MPPT.App) :
  MPPT.report_sweep s2 = Ok tt s3 ->
  MPPT.io s3 = MPPT.io s2 /\ MPPT.same_data s2 s3.
Proof.
  intros Hrep.
  pose proof (report_sweep_hoare
                (fun s => MPPT.io s = MPPT.io s2 /\ MPPT.same_data s2 s)) as H.
  specialize (H ltac:(intros s e [Hio Hd]; split; [exact Hio|same_data_tac])
                s2 (conj eq_refl (same_data_refl s2))).
  now rewrite Hrep in H.
Qed.

Lemma ivsweep_point_undisturbed (E : Env) (delay value : Q)
    (voltages currents : list Q) (s0 : Sweep.App) :
  hoare (Sweep.undisturbed s0)
    (Sweep.sweep_point E delay value voltages currents)
    (Sweep.undisturbed s0).
Proof.
  unfold Sweep.sweep_point, Sweep.read_point. hoare_steps; assumption.
Qed.

Lemma ivsweep_loop_undisturbed (E : Env) (delay : Q) (s0 : Sweep.App)
    (vs : list Q) :
  forall voltages currents,
    hoare (Sweep.undisturbed s0)
      (Sweep.sweep_loop E delay vs voltages currents)
      (Sweep.undisturbed s0).
Proof.
  induction vs as [|v vs IH]; intros voltages currents; simpl.
  - apply hoare_ret.
  - intros s Hs. unfold bind at 1, get. rewrite (proj1 Hs).
    revert s Hs.
    refine (hoare_bind_inv _ _ _ _ _).
    + apply ivsweep_point_undisturbed.
    + intros data. apply IH.
Qed.

Lemma ivsweep_undisturbed (E : Env) (start stop : Q) (points : Z) (delay : Q)
    (s0 : Sweep.App) :
  hoare (Sweep.undisturbed s0) (Sweep.IVsweep E start stop points delay)
    (Sweep.undisturbed s0).
Proof.
  unfold Sweep.IVsweep.
  destruct (np_linspace start stop points) as [vs|]; [|apply hoare_raise].
  apply hoare_bind_inv; [apply ivsweep_loop_undisturbed|].
  intros data. hoare_steps; assumption.
Qed.

Lemma sweep_setupIV_undisturbed (E : Env) (s0 : Sweep.App) :
  hoare (Sweep.undisturbed s0) (Sweep.setupIV E) (Sweep.undisturbed s0).
Proof. unfold Sweep.setupIV. hoare_steps; assumption. Qed.

Lemma no_close_snoc (t : list IOop) (op : IOop) :
  no_close t -> is_close op = false -> no_close (t ++ [op]).
Proof.
  unfold no_close. intros Ht Hop.
  rewrite forallb_app, Ht. simpl. now rewrite Hop.
Qed.

Lemma no_close_not_in (t : list IOop) : no_close t -> ~ In Close t.
Proof.
  unfold no_close. intros Ht Hin.
  rewrite forallb_forall in Ht. apply Ht in Hin. discriminate.
Qed.

Lemma starts_with_snoc (first : IOop) (t : list IOop) (op : IOop) :
  starts_with first t -> true = true -> starts_with first (t ++ [op]).
Proof. intros (rest & ->) _. exists (rest ++ [op]). reflexivity. Qed.

(** A run of [start_sweep] does not close the handle. *)
Lemma mppt_start_sweep_keeps_handle (E : Env) (s0 : MPPT.App) :
  hoare (MPPT.io_since no_close s0) (MPPT.start_sweep E)
    (MPPT.io_since no_close s0).
Proof.
  unfold MPPT.start_sweep, MPPT.setupIV. mppt_unfold.
  hoare_steps; try mppt_io_since no_close_snoc.
  apply sweep_loop_hoare. intros idx v.
  mppt_unfold. hoare_steps; mppt_io_since no_close_snoc.
Qed.

(** The click on Abort that [processEvents] delivers raises the flag and
    sends nothing. *)
Lemma mppt_click_delivered (E : Env) (idx : nat) (s : MPPT.App) :
  abort_clicked E idx = true ->
  exists s',
    MPPT.processEvents E idx s = Ok tt s' /\
    MPPT.abort_sweep s' = true /\ MPPT.io s' = MPPT.io s /\
    MPPT.same_data s s'.
Proof.
  intros Hclick. unfold MPPT.processEvents. rewrite Hclick.
  eexists. split; [reflexivity|]. repeat split.
Qed.

(** Once the click is delivered, the rest of the iteration runs with the
    flag set. *)
Lemma mppt_clicked_point (E : Env) (stop delay : Q) (total idx : nat) (v : Q) :
  abort_clicked E idx = true ->
  hoare (fun _ => True) (MPPT.sweep_point E stop delay total idx v)
    (fun s => MPPT.abort_sweep s = true).
Proof.
  intros Hclick. unfold MPPT.sweep_point.
  apply (hoare_bind_triple _ (fun _ => True) _); [intros s _; exact I|intros _].
  apply (hoare_bind_triple _ (fun _ => True) _);
    [intros s _; destruct (_ =? _)%nat; exact I|intros _].
  apply (hoare_bind_triple _ (fun s => MPPT.abort_sweep s = true) _).
  - intros s _. unfold MPPT.processEvents. rewrite Hclick. reflexivity.
  - intros _. unfold MPPT.simulate, MPPT.measure. hoare_steps; assumption.
Qed.

Lemma mppt_clicked_iteration (E : Env) (stop delay : Q) (total idx : nat)
    (v : Q) (s : MPPT.App) :
  MPPT.abort_sweep s = false ->
  abort_clicked E idx = true ->
  exists s1,
    MPPT.sweep_iteration E stop delay total idx v s = Ok false s1 /\
    MPPT.abort_sweep s1 = true.
Proof.
  intros Hflag Hclick.
  destruct (sweep_iteration_data E stop delay total idx v s) as (s1 & Hrun & _).
  rewrite Hflag in Hrun. exists s1. split; [exact Hrun|].
  unfold MPPT.sweep_iteration, bind at 1, get in Hrun. rewrite Hflag in Hrun.
  assert (H : hoare (fun _ => True)
                (bind (try_except (MPPT.sweep_point E stop delay total idx v)
                         any_exception (fun e => MPPT.show (LogPointError v e)))
                      (fun _ => ret false))
                (fun s => MPPT.abort_sweep s = true)).
  { apply (hoare_bind _ (fun s => MPPT.abort_sweep s = true) _);
      [|intros _; apply hoare_ret|auto].
    apply hoare_try_except; [now apply mppt_clicked_point|].
    intros e. hoare_steps. assumption. }
  specialize (H s I). rewrite Hrun in H. exact H.
Qed.

(** An iteration entered with the flag set leaves the loop: the log line,
    the box, [break]. *)
Lemma mppt_flagged_iteration (E : Env) (stop delay : Q) (total idx : nat)
    (v : Q) (s : MPPT.App) :
  MPPT.abort_sweep s = true ->
  MPPT.sweep_iteration E stop delay total idx v s =
    Ok true
      (MPPT.set_ui
         (MPPT.ui s ++
          [Log "Sweep aborted by user";
           Info "Sweep Aborted" "The sweep was aborted."])
         s).
Proof.
  intros Hflag. unfold MPPT.sweep_iteration. unfold_monad. rewrite Hflag.
  unfold_setters. simpl. now rewrite <- app_assoc.
Qed.

(** The loop over at least two setpoints when the click is delivered in its
    first iteration: that iteration runs to its end, the second leaves the
    loop. *)
Lemma mppt_loop_cancelled_in_first (E : Env) (stop delay : Q) (total : nat)
    (v0 v1 : Q) (rest : list Q) (s : MPPT.App) :
  MPPT.abort_sweep s = false ->
  abort_clicked E 0 = true ->
  exists s1,
    MPPT.sweep_iteration E stop delay total 0 v0 s = Ok false s1 /\
    MPPT.abort_sweep s1 = true /\
    MPPT.sweep_loop E stop delay total 0 (v0 :: v1 :: rest) s =
      Ok tt
        (MPPT.set_ui
           (MPPT.ui s1 ++
            [Log "Sweep aborted by user";
             Info "Sweep Aborted" "The sweep was aborted."])
           s1).
Proof.
  intros Hflag Hclick.
  destruct (mppt_clicked_iteration E stop delay total 0 v0 s Hflag Hclick)
    as (s1 & Hfirst & Hup).
  exists s1. split; [exact Hfirst|]. split; [exact Hup|].
  simpl. rewrite (bind_ok _ _ _ _ _ Hfirst).
  rewrite (bind_ok _ _ _ _ _ (mppt_flagged_iteration E stop delay total 1 v1 s1 Hup)).
  reflexivity.
Qed.

Lemma mppt_iteration_io_grows (E : Env) (stop delay : Q) (total idx : nat)
    (v : Q) (s0 : MPPT.App) :
  hoare (MPPT.io_since anything s0)
    (MPPT.sweep_iteration E stop delay total idx v)
    (MPPT.io_since anything s0).
Proof. mppt_unfold. hoare_steps; mppt_io_since anything_snoc. Qed.

Lemma mppt_iteration_ui_grows (E : Env) (stop delay : Q) (total idx : nat)
    (v : Q) (s0 : MPPT.App) :
  hoare (MPPT.ui_since any_events s0)
    (MPPT.sweep_iteration E stop delay total idx v)
    (MPPT.ui_since any_events s0).
Proof. mppt_unfold. hoare_steps; mppt_ui_grows. Qed.

Lemma mppt_iteration_same_mode (E : Env) (stop delay : Q) (total idx : nat)
    (v : Q) (s0 : MPPT.App) :
  hoare (MPPT.same_mode s0)
    (MPPT.sweep_iteration E stop delay total idx v)
    (MPPT.same_mode s0).
Proof. mppt_unfold. hoare_steps; mppt_same_mode. Qed.

Lemma mppt_setupIV_ui_grows (E : Env) (s0 : MPPT.App) :
  hoare (MPPT.ui_since any_events s0) (MPPT.setupIV E)
    (MPPT.ui_since any_events s0).
Proof. unfold MPPT.setupIV. hoare_steps; mppt_ui_grows. Qed.

Lemma mppt_setupIV_same_mode (E : Env) (s0 : MPPT.App) :
  hoare (MPPT.same_mode s0) (MPPT.setupIV E) (MPPT.same_mode s0).
Proof. unfold MPPT.setupIV. hoare_steps; mppt_same_mode. Qed.

Lemma mppt_setupIV_keeps_flag (E : Env) (b : bool) :
  hoare (fun s => MPPT.abort_sweep s = b) (MPPT.setupIV E)
    (fun s => MPPT.abort_sweep s = b).
Proof. unfold MPPT.setupIV. hoare_steps; assumption. Qed.

Lemma report_sweep_ui_grows (s0 : MPPT.App) :
  hoare (MPPT.ui_since any_events s0) MPPT.report_sweep
    (MPPT.ui_since any_events s0).
Proof. apply report_sweep_hoare. intros s e Hs. mppt_ui_grows. Qed.

(** With no sample, [report_sweep] shows the no-data warning. *)
Lemma report_sweep_no_data (s : MPPT.App) :
  MPPT.voltages s = [] ->
  MPPT.report_sweep s =
    Ok tt
      (MPPT.set_ui
         (MPPT.ui s ++
          [Log "Sweep completed but no valid data points were collected";
           Warning "Sweep Error"
             "No valid data points were collected during the sweep."])
         s).
Proof.
  intros Hv. unfold MPPT.report_sweep. unfold_monad. rewrite Hv.
  unfold_setters. simpl. now rewrite <- app_assoc.
Qed.

(** On the hardware path an iteration that is not left at its head drives
    its setpoint: the first operation it sends is the write of the
    setpoint. *)
Lemma mppt_iteration_drives (E : Env) (stop delay : Q) (total idx : nat)
    (v : Q) (s : MPPT.App) :
  MPPT.abort_sweep s = false ->
  MPPT.keithley s = true ->
  MPPT.simulation_mode s = false ->
  MPPT.io_since (starts_with (Write (":SOUR:VOLT " ++ str_float E v))) s
    (state_of (MPPT.sweep_iteration E stop delay total idx v s)).
Proof.
  intros Hflag Hk Hsim.
  set (driven := MPPT.io_since
                   (starts_with (Write (":SOUR:VOLT " ++ str_float E v))) s).
  set (ready := fun s' : MPPT.App =>
                  MPPT.keithley s' = true /\ MPPT.simulation_mode s' = false /\
                  MPPT.io s' = MPPT.io s).
  unfold MPPT.sweep_iteration, bind at 1, get. rewrite Hflag.
  refine ((_ : hoare ready _ driven) s _); [|repeat split; assumption].
  apply (hoare_bind _ driven _); [|intros _; apply hoare_ret|auto].
  apply hoare_try_except;
    [|intros e; hoare_steps; subst driven; mppt_io_since starts_with_snoc].
  unfold MPPT.sweep_point.
  apply (hoare_bind_triple _ ready _); [intros s' Hs'; exact Hs'|intros _].
  apply (hoare_bind_triple _ ready _);
    [intros s' Hs'; destruct (_ =? _)%nat; exact Hs'|intros _].
  apply (hoare_bind_triple _ ready _).
  { intros s' Hs'. unfold MPPT.processEvents.
    destruct (abort_clicked E idx); exact Hs'. }
  intros _. apply hoare_get_bind. intros st (_ & Hsim' & _). rewrite Hsim'.
  apply (hoare_bind _ driven _); [|intros reading|auto].
  - unfold MPPT.measure.
    apply (hoare_bind _ driven _); [|intros _|auto].
    + intros s' (Hk' & _ & Hio). unfold MPPT.write. rewrite Hk'.
      assert (Hafter : driven
                (MPPT.set_io
                   (MPPT.io s' ++ [Write (":SOUR:VOLT " ++ str_float E v)]) s')).
      { exists [Write (":SOUR:VOLT " ++ str_float E v)]. split.
        - unfold_setters. simpl. now rewrite Hio.
        - eexists. reflexivity. }
      destruct (instr_write E (MPPT.io s') _); exact Hafter.
    + hoare_steps; subst driven; mppt_io_since starts_with_snoc.
  - hoare_steps; subst driven; mppt_io_since starts_with_snoc.
Qed.

(** [start_sweep] up to the call of [voltage_sweep], and after it: with a
    handle or in simulation mode, inputs that convert and a configuration
    that succeeds, the run is the run of [voltage_sweep] from the state
    [running], followed by the status line. *)
Lemma mppt_start_sweep_runs (E : Env) (st st1 s3 : MPPT.App)
    (start stop : Q) (points : Z) (delay : Q) :
  MPPT.keithley st = true \/ MPPT.simulation_mode st = true ->
  py_float E (MPPT.start_voltage st) = Some start ->
  py_float E (MPPT.stop_voltage st) = Some stop ->
  py_int E (MPPT.points_input st) = Some points ->
  py_float E (MPPT.delay_input st) = Some delay ->
  (if MPPT.simulation_mode st then ret true else MPPT.setupIV E)
    (MPPT.configuring start stop points delay st) = Ok true st1 ->
  MPPT.voltage_sweep E start stop points delay (MPPT.running st1) = Ok tt s3 ->
  MPPT.start_sweep E st =
    Ok tt (MPPT.set_ui (MPPT.ui s3 ++ [Status "Sweep completed."]) s3).
Proof.
  intros Hguard Hstart Hstop Hpoints Hdelay Hready Hrun.
  assert (Hg : negb (MPPT.keithley st) && negb (MPPT.simulation_mode st) = false).
  { destruct Hguard as [-> | ->]; [reflexivity|apply andb_false_r]. }
  unfold MPPT.start_sweep, bind at 1, get. rewrite Hg.
  unfold try_except, any_exception.
  unfold bind at 1, modify.
  unfold MPPT.float, MPPT.int. rewrite Hstart, Hstop, Hpoints, Hdelay.
  unfold bind at 1, ret. unfold bind at 1. unfold bind at 1. unfold bind at 1.
  unfold bind at 1, MPPT.show at 1, modify.
  change (MPPT.set_ui _ (MPPT.set_abort_sweep false st))
    with (MPPT.configuring start stop points delay st).
  rewrite (bind_ok _ _ _ _ _ Hready).
  unfold bind at 1, MPPT.show at 1, modify.
  change (MPPT.set_ui (MPPT.ui st1 ++ [Status "Running sweep..."]) st1)
    with (MPPT.running st1).
  rewrite (bind_ok _ _ _ _ _ Hrun). reflexivity.
Qed.

(** What the configuration of [start_sweep] leaves: the flag down, the mode
    and the handle as they were, the traces extended. *)
Lemma mppt_configured (E : Env) (st st1 : MPPT.App) (ready : bool)
    (start stop : Q) (points : Z) (delay : Q) :
  (if MPPT.simulation_mode st then ret true else MPPT.setupIV E)
    (MPPT.configuring start stop points delay st) = Ok ready st1 ->
  MPPT.abort_sweep st1 = false /\
  MPPT.same_mode st st1 /\
  MPPT.io_since anything st st1 /\
  MPPT.ui_since any_events st st1.
Proof.
  intros Hready.
  set (s := MPPT.configuring start stop points delay st) in *.
  assert (Hflag : MPPT.abort_sweep s = false) by reflexivity.
  assert (Hmode : MPPT.same_mode st s) by (split; reflexivity).
  assert (Hio : MPPT.io_since anything st s).
  { exists []. split; [|exact I]. simpl. now rewrite app_nil_r. }
  assert (Hui : MPPT.ui_since any_events st s).
  { eexists. split; [reflexivity|exact I]. }
  destruct (MPPT.simulation_mode st).
  - injection Hready as _ <-. auto.
  - apply (mppt_setupIV_keeps_flag E false) in Hflag.
    apply (mppt_setupIV_same_mode E st) in Hmode.
    apply (mppt_setupIV_io_grows E st) in Hio.
    apply (mppt_setupIV_ui_grows E st) in Hui.
    rewrite Hready in Hflag, Hmode, Hio, Hui. auto.
Qed.

Lemma np_linspace_two (start stop : Q) (points : Z) :
  (2 <= points)%Z ->
  exists v0 v1 rest,
    np_linspace start stop points = Some (v0 :: v1 :: rest) /\ v0 == start.
Proof.
  intros Hpoints.
  destruct (np_linspace_some start stop points) as (vs & Hvs & Hlen); [lia|].
  destruct (np_linspace_nth start stop points vs 0 Hpoints Hvs)
    as (first & Hfirst & Hval); [lia|].
  destruct vs as [|v0 [|v1 rest]]; simpl in Hlen; [lia|lia|].
  injection Hfirst as ->.
  exists first, v1, rest. split; [exact Hvs|].
  rewrite Hval. unfold ramp. simpl. field. unfold Qeq. simpl. lia.
Qed.

Lemma run_status_of_abort_box (shown : list UiEvent) (text : string) :
  In (Info "Sweep Aborted" text) shown -> run_status shown = ABORTED.
Proof.
  intros Hin. unfold run_status.
  assert (H : existsb is_abort_notice shown = true).
  { apply existsb_exists. eexists. split; [exact Hin|reflexivity]. }
  now rewrite H.
Qed.

Lemma mppt_ui_grows_refl (s : MPPT.App) : MPPT.ui_since any_events s s.
Proof. exists []. split; [now rewrite app_nil_r|exact I]. Qed.

(** A run of [start_sweep] of [MPPT.py] in which the click on Abort is
    delivered in the first iteration. *)
Lemma mppt_cancelled_in_first_iteration (E : Env) (start stop : Q)
    (points : Z) (delay : Q) (st st1 : MPPT.App) :
  (2 <= points)%Z ->
  abort_clicked E 0 = true ->
  MPPT.keithley st = true \/ MPPT.simulation_mode st = true ->
  py_float E (MPPT.start_voltage st) = Some start ->
  py_float E (MPPT.stop_voltage st) = Some stop ->
  py_int E (MPPT.points_input st) = Some points ->
  py_float E (MPPT.delay_input st) = Some delay ->
  (if MPPT.simulation_mode st then ret true else MPPT.setupIV E)
    (MPPT.configuring start stop points delay st) = Ok true st1 ->
  exists v0 rest s1 st',
    np_linspace start stop points = Some (v0 :: rest) /\ v0 == start /\
    MPPT.sweep_iteration E stop delay (List.length (v0 :: rest)) 0 v0
      (MPPT.cleared (MPPT.running st1)) = Ok false s1 /\
    MPPT.abort_sweep s1 = true /\
    (if raised
          (MPPT.sweep_point E stop delay (List.length (v0 :: rest)) 0 v0
             (MPPT.cleared (MPPT.running st1)))
     then MPPT.voltages s1 = [] /\ MPPT.currents s1 = [] /\ MPPT.powers s1 = []
     else exists v c,
            MPPT.voltages s1 = [v] /\ MPPT.currents s1 = [c] /\
            MPPT.powers s1 = [v * c]) /\
    (MPPT.simulation_mode st = false ->
     exists tail,
       MPPT.sent st1 s1 = Write (":SOUR:VOLT " ++ str_float E v0) :: tail) /\
    MPPT.start_sweep E st = Ok tt st' /\
    run_status (MPPT.shown st st') = ABORTED /\
    MPPT.same_data s1 st' /\
    MPPT.sent st st' = MPPT.sent st s1 ++ MPPT.shutdown_ops E s1 /\
    ~ In Close (MPPT.sent st st') /\
    (MPPT.voltages s1 = [] ->
     In (Warning "Sweep Error"
           "No valid data points were collected during the sweep.")
        (MPPT.shown st st')).
Proof.
  intros Hpoints Hclick Hguard Hstart Hstop Hcount Hdelay Hready.
  destruct (np_linspace_two start stop points Hpoints)
    as (v0 & v1 & rest & Hvs & Hv0).
  destruct (mppt_configured E st st1 true start stop points delay Hready)
    as (Hflag1 & Hmode1 & Hio1 & Hui1).
  set (vs := v0 :: v1 :: rest) in *.
  set (s := MPPT.cleared (MPPT.running st1)).
  assert (Hflag : MPPT.abort_sweep s = false) by exact Hflag1.
  destruct (mppt_loop_cancelled_in_first E stop delay (List.length vs)
              v0 v1 rest s Hflag Hclick) as (s1 & Hfirst & Hup & Hloop).
  destruct (voltage_sweep_stages E start stop points delay vs (MPPT.running st1)
              Hvs) as (s1' & s2 & s3 & Hloop' & Hshut & Hrep & Hrun & _).
  fold s in Hloop'. unfold vs in Hloop' at 2. rewrite Hloop in Hloop'.
  injection Hloop' as Hs1'.
  assert (Hio1' : MPPT.io s1' = MPPT.io s1) by now rewrite <- Hs1'.
  assert (Hui1' : MPPT.ui s1' =
                  MPPT.ui s1 ++
                  [Log "Sweep aborted by user";
                   Info "Sweep Aborted" "The sweep was aborted."])
    by now rewrite <- Hs1'.
  assert (Hdata1' : MPPT.same_data s1 s1')
    by (rewrite <- Hs1'; repeat split).
  assert (Hops1' : MPPT.shutdown_ops E s1' = MPPT.shutdown_ops E s1)
    by now rewrite <- Hs1'.
  clear Hs1'.
  pose proof (mppt_start_sweep_runs E st st1 s3 start stop points delay
                Hguard Hstart Hstop Hcount Hdelay Hready Hrun) as Hwhole.
  (* the first iteration *)
  assert (Hio_s : MPPT.io_since anything st s) by exact Hio1.
  assert (Hui_s : MPPT.ui_since any_events st s).
  { destruct Hui1 as (t & Ht & _). exists (t ++ [Status "Running sweep..."]).
    split; [|exact I]. simpl. now rewrite Ht, app_assoc. }
  assert (Hmode_s : MPPT.same_mode st s) by exact Hmode1.
  apply (mppt_iteration_io_grows E stop delay (List.length vs) 0 v0 st) in Hio_s.
  apply (mppt_iteration_ui_grows E stop delay (List.length vs) 0 v0 st) in Hui_s.
  apply (mppt_iteration_same_mode E stop delay (List.length vs) 0 v0 st)
    in Hmode_s.
  rewrite Hfirst in Hio_s, Hui_s, Hmode_s. simpl in Hio_s, Hui_s, Hmode_s.
  destruct Hio_s as (ops & Hops & _). destruct Hui_s as (events & Hevents & _).
  (* the shutdown and the report *)
  destruct (shutdown_output_sent E s1' s2 Hshut) as [Hio2 Hdata2].
  destruct (report_sweep_io s2 s3 Hrep) as [Hio3 Hdata3].
  pose proof (shutdown_output_ui_grows E s1' s1' (mppt_ui_grows_refl s1'))
    as Hui2.
  rewrite Hshut in Hui2. destruct Hui2 as (t2 & Ht2 & _). simpl in Ht2.
  pose proof (report_sweep_ui_grows s2 s2 (mppt_ui_grows_refl s2)) as Hui3.
  rewrite Hrep in Hui3. destruct Hui3 as (t3 & Ht3 & _). simpl in Ht3.
  assert (Hshown : MPPT.shown st
                     (MPPT.set_ui (MPPT.ui s3 ++ [Status "Sweep completed."]) s3)
                   = events ++
                     [Log "Sweep aborted by user";
                      Info "Sweep Aborted" "The sweep was aborted."] ++
                     t2 ++ t3 ++ [Status "Sweep completed."]).
  { unfold MPPT.shown. simpl. rewrite Ht3, Ht2, Hui1', Hevents.
    rewrite <- !app_assoc. now rewrite skipn_length_app. }
  exists v0, (v1 :: rest), s1,
    (MPPT.set_ui (MPPT.ui s3 ++ [Status "Sweep completed."]) s3).
  split; [exact Hvs|]. split; [exact Hv0|]. split; [exact Hfirst|].
  split; [exact Hup|]. split; [|split; [|split; [exact Hwhole|]]].
  - destruct (sweep_iteration_data E stop delay (List.length vs) 0 v0 s)
      as (s1'' & Hrun' & Hdata).
    rewrite Hfirst in Hrun'. injection Hrun' as _ <-.
    rewrite Hflag in Hdata. simpl in Hdata.
    destruct (raised _).
    + destruct Hdata as (Hv & Hc & Hp). rewrite Hv, Hc, Hp. auto.
    + destruct Hdata as (v & c & Hv & Hc & Hp). exists v, c.
      rewrite Hv, Hc, Hp. auto.
  - intros Hhw.
    assert (Hk : MPPT.keithley st = true).
    { destruct Hguard as [Hk|Hsim]; [exact Hk|congruence]. }
    pose proof (mppt_iteration_drives E stop delay (List.length vs) 0 v0 s Hflag)
      as Hdrive.
    rewrite Hfirst in Hdrive. simpl in Hdrive.
    destruct Hdrive as (t & Ht & tail & ->).
    + destruct Hmode1 as [Hk1 _]. simpl. now rewrite Hk1.
    + destruct Hmode1 as [_ Hs1]. simpl. now rewrite Hs1.
    + exists tail. unfold MPPT.sent. rewrite Ht. simpl.
      now rewrite skipn_length_app.
  - split; [|split; [|split; [|split]]].
    + rewrite Hshown. apply (run_status_of_abort_box _ "The sweep was aborted.").
      apply in_or_app. right. simpl. auto.
    + unfold MPPT.same_data in *. simpl. intuition congruence.
    + unfold MPPT.sent. simpl. rewrite Hio3, Hio2, Hio1', Hops1'.
      rewrite Hops, <- app_assoc. now rewrite !skipn_length_app.
    + pose proof (mppt_start_sweep_keeps_handle E st st
                    (mppt_io_since_refl no_close st eq_refl)) as Hkeep.
      rewrite Hwhole in Hkeep.
      apply no_close_not_in, (mppt_io_since_sent no_close), Hkeep.
    + intros Hnone.
      assert (Hnone2 : MPPT.voltages s2 = []).
      { destruct Hdata2 as (Hv & _). destruct Hdata1' as (Hv' & _). congruence. }
      rewrite (report_sweep_no_data s2 Hnone2) in Hrep.
      injection Hrep as <-. simpl in Ht3. apply app_inv_head in Ht3. subst t3.
      rewrite Hshown. apply in_or_app. right. simpl. right. right.
      apply in_or_app. right. simpl. auto.
Qed.

(** A flag that is set when [start_sweep] is called is lowered before it is
    read. *)
Lemma mppt_stale_flag_lowered (E : Env) (st : MPPT.App) :
  MPPT.keithley st = true \/ MPPT.simulation_mode st = true ->
  MPPT.start_sweep E (MPPT.set_abort_sweep true st) =
  MPPT.start_sweep E (MPPT.set_abort_sweep false st).
Proof.
  intros Hguard. unfold MPPT.start_sweep.
  rewrite (bind_ok get _ (MPPT.set_abort_sweep true st) _ _ eq_refl).
  rewrite (bind_ok get _ (MPPT.set_abort_sweep false st) _ _ eq_refl).
  unfold_setters. simpl.
  destruct (negb (MPPT.keithley st) && negb (MPPT.simulation_mode st)) eqn:Hg.
  - destruct Hguard as [Hk|Hs]; [rewrite Hk in Hg|rewrite Hs in Hg];
      simpl in Hg; try discriminate.
    now rewrite andb_false_r in Hg.
  - reflexivity.
Qed.

Lemma sweep_stale_flag_lowered (E : Env) (st : Sweep.App) :
  Sweep.start_sweep E (Sweep.set_abort_sweep true st) =
  Sweep.start_sweep E (Sweep.set_abort_sweep false st).
Proof. reflexivity. Qed.

(** In [sweep.py] nothing raises the flag between the start of a run and its
    end, and the run shows nothing. *)
Lemma sweep_start_sweep_undisturbed (E : Env) (st : Sweep.App) :
  Sweep.undisturbed st (state_of (Sweep.start_sweep E st)).
Proof.
  unfold Sweep.start_sweep. unfold bind at 1, modify.
  refine ((_ : hoare (Sweep.undisturbed st) _ (Sweep.undisturbed st))
            (Sweep.set_abort_sweep false st) _); [|split; reflexivity].
  hoare_steps;
    first [ apply sweep_setupIV_undisturbed
          | apply ivsweep_undisturbed
          | assumption ].
Qed.

(** A run of [sweep.py] that returns has taken every setpoint. *)
Lemma sweep_run_takes_every_setpoint (E : Env) (st st' : Sweep.App)
    (start stop : Q) (points : Z) (delay : Q) (data : list Q * list Q) :
  (0 <= points)%Z ->
  py_float E (Sweep.start_input st) = Some start ->
  py_float E (Sweep.stop_input st) = Some stop ->
  py_int E (Sweep.points_input st) = Some points ->
  py_float E (Sweep.delay_input st) = Some delay ->
  Sweep.start_sweep E st = Ok data st' ->
  List.length (fst data) = Z.to_nat points /\
  List.length (snd data) = Z.to_nat points.
Proof.
  intros Hpoints Hstart Hstop Hcount Hdelay Hrun.
  assert (Heq : Sweep.start_sweep E st =
                bind (Sweep.setupIV E)
                  (fun _ => Sweep.IVsweep E start stop points delay)
                  (Sweep.configuring st)).
  { unfold Sweep.start_sweep, bind at 1, modify.
    unfold bind at 1, get.
    unfold Sweep.float, Sweep.int. simpl.
    rewrite Hstart, Hstop, Hcount, Hdelay. reflexivity. }
  rewrite Heq in Hrun. unfold bind in Hrun.
  assert (Hconf : Sweep.undisturbed st (Sweep.configuring st))
    by (split; reflexivity).
  apply (sweep_setupIV_undisturbed E st) in Hconf.
  destruct (Sweep.setupIV E (Sweep.configuring st)) as [[] s1|e s1];
    [|discriminate].
  destruct (np_linspace_some start stop points Hpoints) as (vs & Hvs & Hlen).
  rewrite <- Hlen.
  exact (ivsweep_count E start stop points delay vs s1 st' data Hvs
           (proj1 Hconf) Hrun).
Qed.

(** C9, as the sources have it.  A cancellation asked for before the first
    setpoint is taken reaches the loop in one of two ways.

    Asked for before the run: [start_sweep] lowers the flag before reading
    it, in both applications, so the run is the run with the flag down.

    Asked for once the run has started: in [MPPT.py] the click is delivered
    by [processEvents] in the first iteration, after the abort check of that
    iteration and before the setpoint is written; it raises the flag and
    sends nothing.  The first iteration then runs to its end: on the hardware
    path the first setpoint is written to the instrument, and the point is
    recorded as one sample unless its [try] raises.  With two setpoints or
    more the second iteration leaves the loop: the run shows the abort box
    (status [ABORTED]), keeps the lists as the first iteration left them, and
    sends after the operations of the first iteration what [shutdown_output]
    sends (on the hardware path the zeroing of the source and, if that is
    accepted, the command that switches the output off).  The handle is not
    closed by the run, and when no sample was recorded the no-data warning
    is shown as well.  In [sweep.py] no event is processed during a run:
    whatever the flag was at the start, the flag is down when the run ends,
    the abort box has not been shown, and a run that returns has taken every
    setpoint. *)
Theorem C9_cancellation_before_first_setpoint (E : Env) (start stop : Q)
    (points : Z) (delay : Q) :
  (2 <= points)%Z ->
  (abort_clicked E 0 = true ->
   forall s : MPPT.App,
     exists s',
       MPPT.processEvents E 0 s = Ok tt s' /\
       MPPT.abort_sweep s' = true /\ MPPT.io s' = MPPT.io s /\
       MPPT.same_data s s') /\
  (abort_clicked E 0 = true ->
   forall st st1 : MPPT.App,
     MPPT.keithley st = true \/ MPPT.simulation_mode st = true ->
     py_float E (MPPT.start_voltage st) = Some start ->
     py_float E (MPPT.stop_voltage st) = Some stop ->
     py_int E (MPPT.points_input st) = Some points ->
     py_float E (MPPT.delay_input st) = Some delay ->
     (if MPPT.simulation_mode st then ret true else MPPT.setupIV E)
       (MPPT.configuring start stop points delay st) = Ok true st1 ->
     exists v0 rest s1 st',
       np_linspace start stop points = Some (v0 :: rest) /\ v0 == start /\
       MPPT.sweep_iteration E stop delay (List.length (v0 :: rest)) 0 v0
         (MPPT.cleared (MPPT.running st1)) = Ok false s1 /\
       MPPT.abort_sweep s1 = true /\
       (if raised
             (MPPT.sweep_point E stop delay (List.length (v0 :: rest)) 0 v0
                (MPPT.cleared (MPPT.running st1)))
        then MPPT.voltages s1 = [] /\ MPPT.currents s1 = [] /\
             MPPT.powers s1 = []
        else exists v c,
               MPPT.voltages s1 = [v] /\ MPPT.currents s1 = [c] /\
               MPPT.powers s1 = [v * c]) /\
       (MPPT.simulation_mode st = false ->
        exists tail,
          MPPT.sent st1 s1 = Write (":SOUR:VOLT " ++ str_float E v0) :: tail) /\
       MPPT.start_sweep E st = Ok tt st' /\
       run_status (MPPT.shown st st') = ABORTED /\
       MPPT.same_data s1 st' /\
       MPPT.sent st st' = MPPT.sent st s1 ++ MPPT.shutdown_ops E s1 /\
       ~ In Close (MPPT.sent st st') /\
       (MPPT.voltages s1 = [] ->
        In (Warning "Sweep Error"
              "No valid data points were collected during the sweep.")
           (MPPT.shown st st'))) /\
  (forall st : MPPT.App,
     MPPT.keithley st = true \/ MPPT.simulation_mode st = true ->
     MPPT.start_sweep E (MPPT.set_abort_sweep true st) =
     MPPT.start_sweep E (MPPT.set_abort_sweep false st)) /\
  (forall st : Sweep.App,
     Sweep.start_sweep E (Sweep.set_abort_sweep true st) =
     Sweep.start_sweep E (Sweep.set_abort_sweep false st) /\
     Sweep.abort_sweep (state_of (Sweep.start_sweep E st)) = false /\
     Sweep.shown st (state_of (Sweep.start_sweep E st)) = [] /\
     run_status (Sweep.shown st (state_of (Sweep.start_sweep E st)))
       <> ABORTED /\
     (py_float E (Sweep.start_input st) = Some start ->
      py_float E (Sweep.stop_input st) = Some stop ->
      py_int E (Sweep.points_input st) = Some points ->
      py_float E (Sweep.delay_input st) = Some delay ->
      forall data st',
        Sweep.start_sweep E st = Ok data st' ->
        List.length (fst data) = Z.to_nat points /\
        List.length (snd data) = Z.to_nat points)).
Proof.
  intros Hpoints. split; [|split; [|split]].
  - intros Hclick s. now apply mppt_click_delivered.
  - intros Hclick st st1. now apply mppt_cancelled_in_first_iteration.
  - intros st. apply mppt_stale_flag_lowered.
  - intros st.
    destruct (sweep_start_sweep_undisturbed E st) as [Hflag Hui].
    assert (Hshown : Sweep.shown st (state_of (Sweep.start_sweep E st)) = []).
    { unfold Sweep.shown. rewrite Hui. apply skipn_all. }
    split; [apply sweep_stale_flag_lowered|]. split; [exact Hflag|].
    split; [exact Hshown|]. split; [rewrite Hshown; discriminate|].
    intros Hstart Hstop Hcount Hdelay data st'.
    apply sweep_run_takes_every_setpoint with (start := start) (stop := stop)
      (delay := delay); (assumption || lia).
Qed.

(** ** Concrete runs *)

(** The scenario of the specification: six points from 0 V to 5 V. *)
Example linspace_0_5_6 :
  exists vs, np_linspace 0 5 6 = Some vs /\
             Forall2 Qeq vs [0; 1; 2; 3; 4; 5].
Proof.
  eexists. split; [reflexivity|].
  repeat constructor; reflexivity.
Qed.

Lemma C1_setpoint_sequence_witness :
  exists sweep_values first,
    np_linspace 0 5 6 = Some sweep_values /\
    List.length sweep_values = Z.to_nat 6 /\
    nth_error sweep_values 0 = Some first /\ first == 0 /\
    last sweep_values 0 = 5 /\
    (0 <= 5 -> nondecreasing sweep_values) /\
    (5 < 0 -> nonincreasing sweep_values).
Proof. apply (C1_setpoint_sequence 0 5 6). lia. Defined.

(** The instrument of the bench answers the second query with text that
    holds no number; the other answers hold the numbers 2 and -3. *)
Example bench_answers :
  numeric_fields Bench.env "garbage" = None /\
  numeric_fields Bench.env " 2,-3 " = Some (2, -3).
Proof. split; reflexivity. Qed.

Example bench_setpoints : np_linspace 0 4 3 = Some Bench.setpoints.
Proof. reflexivity. Qed.

Lemma bench_only_second_point_fails (j : nat) :
  (j < List.length Bench.setpoints)%nat ->
  MPPT.point_fails Bench.env 4 0 Bench.setpoints Bench.mppt j = true <-> j = 1%nat.
Proof.
  intros Hj. destruct j as [|[|[|j]]]; [| | |simpl in Hj; lia];
    vm_compute; split; intros H; (reflexivity || discriminate H).
Defined.

Lemma C2_one_failing_point_witness :
  exists st',
    MPPT.voltage_sweep Bench.env 0 4 3 0 Bench.mppt = Ok tt st' /\
    List.length (MPPT.voltages st') = (List.length Bench.setpoints - 1)%nat /\
    MPPT.lengths_agree st' /\
    MPPT.same_data
      (MPPT.after_iterations Bench.env 4 0 Bench.setpoints Bench.mppt 1)
      (MPPT.after_iterations Bench.env 4 0 Bench.setpoints Bench.mppt 2) /\
    (forall j, (j < List.length Bench.setpoints)%nat -> j <> 1%nat ->
       MPPT.one_sample_more
         (MPPT.after_iterations Bench.env 4 0 Bench.setpoints Bench.mppt j)
         (MPPT.after_iterations Bench.env 4 0 Bench.setpoints Bench.mppt (S j))) /\
    run_status (MPPT.shown Bench.mppt st') = COMPLETED.
Proof.
  apply (proj1 (C2_one_failing_point Bench.env 0 4 3 0 Bench.setpoints)
           Bench.mppt 1%nat).
  - lia.
  - reflexivity.
  - reflexivity.
  - reflexivity.
  - simpl. lia.
  - exact bench_only_second_point_fails.
Defined.

(** C2 on the bench, in [sweep.py]: the run over the three setpoints
    returns three samples, the second of them the placeholder, although the
    second response holds no number. *)
Lemma C2_sweep_py_records_failed_point :
  exists st',
    Sweep.IVsweep Bench.env 0 4 3 0 Bench.sweep
      = Ok ([2; 0; 2], [- -3; - 0; - -3]) st' /\
    Sweep.sent Bench.sweep st' =
      [Write ":SOUR:VOLT 0/1"; Query ":MEAS?";
       Write ":SOUR:VOLT 2/1"; Query ":MEAS?";
       Write ":SOUR:VOLT 4/1"; Query ":MEAS?";
       Write ":OUTP OFF"] /\
    Bench.answer [Write ":SOUR:VOLT 0/1"; Query ":MEAS?";
                  Write ":SOUR:VOLT 2/1"] ":MEAS?" = Some "garbage" /\
    numeric_fields Bench.env "garbage" = None /\
    List.length [2; 0; 2] <> (List.length Bench.setpoints - 1)%nat.
Proof.
  eexists. repeat split. simpl. lia.
Qed.

Lemma C3_mpp_extraction_witness :
  exists v c p st1 st2,
    is_mpp (MPPT.voltages Bench.mppt_tie) (MPPT.currents Bench.mppt_tie)
      (MPPT.powers Bench.mppt_tie) v c p /\
    MPPT.find_mppt_point Bench.mppt_tie = Ok tt st1 /\
    MPPT.shown Bench.mppt_tie st1 =
      [LogMpp v c p; StatusMpp v c p; MarkMpp v c p] /\
    MPPT.plot_analysis_data Bench.mppt_tie = Ok tt st2 /\
    MPPT.shown Bench.mppt_tie st2 =
      [MarkMpp v c p; Log "Analysis plot updated with loaded data"].
Proof.
  apply (C3_mpp_extraction Bench.mppt_tie).
  - simpl. discriminate.
  - reflexivity.
  - reflexivity.
Defined.

(** Of the two samples of power 6, the one at the lower position is
    reported. *)
Example mpp_of_a_tie :
  np_argmax (MPPT.powers Bench.mppt_tie) = Some 1%nat /\
  MPPT.shown Bench.mppt_tie (state_of (MPPT.find_mppt_point Bench.mppt_tie)) =
    [LogMpp 2 3 6; StatusMpp 2 3 6; MarkMpp 2 3 6].
Proof. split; reflexivity. Qed.

Lemma C4_power_is_voltage_times_current_witness :
  (exists st',
     MPPT.voltage_sweep Bench.env 0 4 3 0 Bench.mppt_simulated = Ok tt st' /\
     MPPT.lengths_agree st' /\
     MPPT.powers st' = products (MPPT.voltages st') (MPPT.currents st')) /\
  (forall j,
     let s := MPPT.after_iterations Bench.env 4 0 Bench.setpoints
                Bench.mppt_simulated j in
     MPPT.powers s = products (MPPT.voltages s) (MPPT.currents s)).
Proof.
  apply (C4_power_is_voltage_times_current Bench.env 0 4 3 0 Bench.setpoints
           Bench.mppt_simulated).
  reflexivity.
Defined.

Lemma C7_fewer_than_two_points_witness :
  exists v, np_linspace 0 4 1 = Some [v] /\ v == 0.
Proof.
  apply (proj1 (proj1 (C7_fewer_than_two_points Bench.env 0 4 1 0 ltac:(lia)))).
  reflexivity.
Defined.

(** C7 on the bench, one point asked: the run is not refused, the instrument is
    configured and its output enabled, and the one setpoint is measured. *)
Lemma C7_one_point_is_configured_and_swept :
  py_int Bench.env (MPPT.points_input Bench.mppt_one_point) = Some 1%Z /\
  exists st',
    MPPT.start_sweep Bench.env Bench.mppt_one_point = Ok tt st' /\
    MPPT.sent Bench.mppt_one_point st' =
      [Write ":SOUR:FUNC VOLT"; Write (":SENS:FUNC " ++ dquote ++ "CURR" ++ dquote);
       Write ":SYST:RSEN OFF"; Write ":ROUT:TERM FRONT";
       Write ":SENS:CURR:PROT 0.1"; Write ":OUTP ON"; Write ":SOUR:VOLT 0";
       Write ":SOUR:VOLT 0/1"; Query ":READ?";
       Write ":SOUR:VOLT 0"; Write ":OUTP OFF"] /\
    MPPT.voltages st' = [2] /\ MPPT.currents st' = [-3 * -1] /\
    ~ In (Warning "Input Error"
            "Please enter valid numeric values for all parameters.")
         (MPPT.shown Bench.mppt_one_point st').
Proof.
  split; [reflexivity|]. eexists.
  split; [vm_compute; reflexivity|].
  split; [reflexivity|]. split; [reflexivity|]. split; [reflexivity|].
  vm_compute. intros H.
  repeat (destruct H as [H|H]; [discriminate H|]). exact H.
Qed.

Lemma C8_limit_written_before_output_enable_witness :
  limit_precedes_output (Write ":SENS:CURR:PROT 0.1")
    (MPPT.sent Bench.mppt (state_of (MPPT.start_sweep Bench.env Bench.mppt))) /\
  In (Write ":OUTP ON")
    (MPPT.sent Bench.mppt (state_of (MPPT.start_sweep Bench.env Bench.mppt))) /\
  limit_precedes_output (Write ":SENS:CURR:PROT 0.1")
    (Sweep.sent Bench.sweep_two_limits
       (state_of (Sweep.start_sweep Bench.env Bench.sweep_two_limits))) /\
  limit_precedes_output (Write ":SENS:VOLT:PROT 20")
    (Sweep.sent Bench.sweep_two_limits
       (state_of (Sweep.start_sweep Bench.env Bench.sweep_two_limits))) /\
  In (Write ":OUTP ON")
    (Sweep.sent Bench.sweep_two_limits
       (state_of (Sweep.start_sweep Bench.env Bench.sweep_two_limits))) /\
  no_compliance
    (MPPT.sent Bench.mppt_no_limit
       (state_of (MPPT.start_sweep Bench.env Bench.mppt_no_limit))).
Proof.
  destruct (C8_limit_written_before_output_enable Bench.env) as [Hmppt Hsweep].
  destruct (Hmppt Bench.mppt) as (_ & Hlimit & _ & Hon).
  destruct (Hmppt Bench.mppt_no_limit) as (_ & _ & Hnone & _).
  destruct (Hsweep Bench.sweep_two_limits) as (_ & Hc & Hv & _ & _ & Hon').
  split; [exact (Hlimit eq_refl)|].
  split; [exact (Hon 0 4 3%Z 0 eq_refl eq_refl eq_refl eq_refl eq_refl eq_refl
                   (fun _ _ => eq_refl))|].
  split; [exact (Hc eq_refl)|].
  split; [exact (Hv eq_refl)|].
  split; [exact (Hon' 0 4 3%Z 0 eq_refl eq_refl eq_refl eq_refl eq_refl
                   (fun _ _ => eq_refl))|].
  exact (Hnone eq_refl).
Defined.

(** C8 on the bench, the limit fields left empty: both applications enable
    the output, and no command of the run sets a compliance limit, so none
    stands before the command that enables the output. *)
Lemma C8_empty_limit_field_enables_output :
  MPPT.sent Bench.mppt_no_limit
    (state_of (MPPT.start_sweep Bench.env Bench.mppt_no_limit)) =
    [Write ":SOUR:FUNC VOLT"; Write (":SENS:FUNC " ++ dquote ++ "CURR" ++ dquote);
     Write ":SYST:RSEN OFF"; Write ":ROUT:TERM FRONT";
     Write ":OUTP ON"; Write ":SOUR:VOLT 0";
     Write ":SOUR:VOLT 0/1"; Query ":READ?";
     Write ":SOUR:VOLT 2/1"; Query ":READ?";
     Write ":SOUR:VOLT 4/1"; Query ":READ?";
     Write ":SOUR:VOLT 0"; Write ":OUTP OFF"] /\
  Sweep.sent Bench.sweep_no_limit
    (state_of (Sweep.start_sweep Bench.env Bench.sweep_no_limit)) =
    [Write ":SOUR:FUNC VOLT"; Write (":SENS:FUNC " ++ dquote ++ "CURR" ++ dquote);
     Write ":SYST:RSEN OFF"; Write ":ROUT:TERM FRONT";
     Write ":OUTP ON";
     Write ":SOUR:VOLT 0/1"; Query ":MEAS?";
     Write ":SOUR:VOLT 2/1"; Query ":MEAS?";
     Write ":SOUR:VOLT 4/1"; Query ":MEAS?";
     Write ":OUTP OFF"] /\
  (forall limit, is_compliance limit = true ->
     ~ limit_precedes_output limit
         (MPPT.sent Bench.mppt_no_limit
            (state_of (MPPT.start_sweep Bench.env Bench.mppt_no_limit)))) /\
  (forall limit, is_compliance limit = true ->
     ~ limit_precedes_output limit
         (Sweep.sent Bench.sweep_no_limit
            (state_of (Sweep.start_sweep Bench.env Bench.sweep_no_limit)))).
Proof.
  split; [reflexivity|]. split; [reflexivity|].
  split; intros limit Hlimit Hbefore;
    destruct (Hbefore 4%nat (Write ":OUTP ON") eq_refl eq_refl)
      as (j & Hj & Hnth);
    do 4 (destruct j as [|j];
          [vm_compute in Hnth; injection Hnth as <-; discriminate Hlimit|]);
    lia.
Qed.

Lemma C9_cancellation_before_first_setpoint_witness :
  exists st',
    MPPT.start_sweep Bench.impatient_env Bench.mppt = Ok tt st' /\
    run_status (MPPT.shown Bench.mppt st') = ABORTED /\
    ~ In Close (MPPT.sent Bench.mppt st').
Proof.
  destruct (proj1 (proj2 (C9_cancellation_before_first_setpoint
                            Bench.impatient_env 0 4 3 0 ltac:(lia)))
              eq_refl Bench.mppt
              (state_of (MPPT.setupIV Bench.impatient_env
                           (MPPT.configuring 0 4 3 0 Bench.mppt)))
              (or_introl eq_refl) eq_refl eq_refl eq_refl eq_refl
              ltac:(vm_compute; reflexivity))
    as (v0 & rest & s1 & st' & _ & _ & _ & _ & _ & _ & Hrun & Hstatus & _ & _
        & Hclose & _).
  exists st'. split; [exact Hrun|]. split; [exact Hstatus|exact Hclose].
Defined.

(** C9 on the bench.  The operator clicks Abort while the first point is
    being taken: the flag is up before the first setpoint is written, and
    yet the setpoint is written, the point is measured and recorded, and the
    run is [ABORTED] with one sample; the handle is not closed.  And a flag
    set before the run does not abort it: the run completes with its
    samples. *)
Lemma C9_cancelled_run_has_taken_a_point :
  abort_clicked Bench.impatient_env 0 = true /\
  (forall s,
     MPPT.abort_sweep (state_of (MPPT.processEvents Bench.impatient_env 0 s))
       = true /\
     MPPT.io (state_of (MPPT.processEvents Bench.impatient_env 0 s))
       = MPPT.io s) /\
  (exists st',
     MPPT.start_sweep Bench.impatient_env Bench.mppt = Ok tt st' /\
     run_status (MPPT.shown Bench.mppt st') = ABORTED /\
     MPPT.voltages st' = [2] /\ MPPT.currents st' = [-3 * -1] /\
     MPPT.voltages st' <> [] /\
     MPPT.sent Bench.mppt st' =
       [Write ":SOUR:FUNC VOLT";
        Write (":SENS:FUNC " ++ dquote ++ "CURR" ++ dquote);
        Write ":SYST:RSEN OFF"; Write ":ROUT:TERM FRONT";
        Write ":SENS:CURR:PROT 0.1"; Write ":OUTP ON"; Write ":SOUR:VOLT 0";
        Write ":SOUR:VOLT 0/1"; Query ":READ?";
        Write ":SOUR:VOLT 0"; Write ":OUTP OFF"]) /\
  (exists st',
     MPPT.start_sweep Bench.env (MPPT.set_abort_sweep true Bench.mppt)
       = Ok tt st' /\
     run_status (MPPT.shown Bench.mppt st') = COMPLETED /\
     MPPT.voltages st' = [2; 2]) /\
  (exists st',
     Sweep.start_sweep Bench.env (Sweep.set_abort_sweep true Bench.sweep)
       = Ok ([2; 0; 2], [- -3; - 0; - -3]) st' /\
     run_status (Sweep.shown Bench.sweep st') = COMPLETED).
Proof.
  split; [reflexivity|]. split; [intros s; split; reflexivity|].
  split; [|split].
  - eexists. split; [vm_compute; reflexivity|].
    split; [reflexivity|]. split; [reflexivity|]. split; [reflexivity|].
    split; [discriminate|reflexivity].
  - eexists. split; [vm_compute; reflexivity|].
    split; reflexivity.
  - eexists. split; [vm_compute; reflexivity|]. reflexivity.
Qed.

Lemma C10_lists_have_one_length_witness :
  (forall j,
     MPPT.lengths_agree
       (MPPT.after_iterations Bench.env 4 0 Bench.setpoints Bench.mppt j)) /\
  MPPT.lengths_agree
    (state_of (MPPT.voltage_sweep Bench.env 0 4 3 0 Bench.mppt)) /\
  (forall idx v s,
     exists s',
       MPPT.sweep_iteration Bench.env 4 0 (List.length Bench.setpoints) idx v s
         = Ok (MPPT.abort_sweep s) s' /\
       if MPPT.abort_sweep s ||
          raised (MPPT.sweep_point Bench.env 4 0
                    (List.length Bench.setpoints) idx v s)
       then MPPT.same_data s s'
       else MPPT.one_sample_more s s').
Proof.
  apply (C10_lists_have_one_length Bench.env 0 4 3 0 Bench.setpoints Bench.mppt).
  reflexivity.
Defined.

(** The commands of a whole run on the bench, in order: the compliance limit
    is set before the output is enabled. *)
Example bench_run_commands :
  MPPT.sent Bench.mppt (state_of (MPPT.start_sweep Bench.env Bench.mppt)) =
    [Write ":SOUR:FUNC VOLT"; Write (":SENS:FUNC " ++ dquote ++ "CURR" ++ dquote);
     Write ":SYST:RSEN OFF"; Write ":ROUT:TERM FRONT";
     Write ":SENS:CURR:PROT 0.1"; Write ":OUTP ON"; Write ":SOUR:VOLT 0";
     Write ":SOUR:VOLT 0/1"; Query ":READ?";
     Write ":SOUR:VOLT 2/1"; Query ":READ?";
     Write ":SOUR:VOLT 4/1"; Query ":READ?";
     Write ":SOUR:VOLT 0"; Write ":OUTP OFF"].
Proof. reflexivity. Qed.

(** The simulated sweep on the bench: the last setpoint lies above the
    open-circuit voltage, so its current is 0. *)
Example bench_simulated_currents :
  exists c0 c1,
    MPPT.currents
      (state_of (MPPT.start_sweep Bench.env Bench.mppt_simulated))
      = [c0; c1; 0] /\ 0 < c0 /\ 0 < c1.
Proof. do 2 eexists. split; [reflexivity|]. split; reflexivity. Qed.

(** * Further properties of the code *)

(** ** The setpoint sequence, once more *)





(** ** Starting a sweep in [MPPT.py] *)



(** ** Runs of [sweep.py] *)



Lemma no_output_off_snoc (t : list IOop) (op : IOop) :
  no_output_off t -> is_output_off op = false -> no_output_off (t ++ [op]).
Proof.
  unfold no_output_off. intros Ht Hop.
  rewrite forallb_app, Ht. simpl. now rewrite Hop.
Qed.

Lemma no_output_off_not_in (t : list IOop) :
  no_output_off t -> ~ In (Write ":OUTP OFF") t.
Proof.
  unfold no_output_off. intros Ht Hin.
  rewrite forallb_forall in Ht. apply Ht in Hin. discriminate.
Qed.

Lemma ivsweep_loop_keeps_output (E : Env) (delay : Q) (s0 : Sweep.App)
    (vs voltages currents : list Q) :
  hoare (Sweep.io_since no_output_off s0)
    (Sweep.sweep_loop E delay vs voltages currents)
    (Sweep.io_since no_output_off s0).
Proof.
  apply ivsweep_loop_hoare.
  - intros value V C. unfold Sweep.sweep_point, Sweep.read_point.
    hoare_steps; sweep_io_since no_output_off_snoc.
  - intros s e Hs. exact Hs.
Qed.



(** ** The end of a run of [voltage_sweep] *)

Lemma mppt_loop_same_mode (E : Env) (stop delay : Q) (total : nat)
    (s0 : MPPT.App) (vs : list Q) (idx : nat) :
  hoare (MPPT.same_mode s0) (MPPT.sweep_loop E stop delay total idx vs)
    (MPPT.same_mode s0).
Proof.
  apply sweep_loop_hoare. intros i v.
  mppt_unfold. hoare_steps; mppt_same_mode.
Qed.

Lemma mppt_loop_io_grows (E : Env) (stop delay : Q) (total : nat)
    (s0 : MPPT.App) (vs : list Q) (idx : nat) :
  hoare (MPPT.io_since anything s0) (MPPT.sweep_loop E stop delay total idx vs)
    (MPPT.io_since anything s0).
Proof.
  apply sweep_loop_hoare. intros i v.
  mppt_unfold. hoare_steps; mppt_io_since anything_snoc.
Qed.

Lemma mppt_loop_ui_grows (E : Env) (stop delay : Q) (total : nat)
    (s0 : MPPT.App) (vs : list Q) (idx : nat) :
  hoare (MPPT.ui_since any_events s0)
    (MPPT.sweep_loop E stop delay total idx vs)
    (MPPT.ui_since any_events s0).
Proof.
  apply sweep_loop_hoare. intros i v.
  mppt_unfold. hoare_steps; mppt_ui_grows.
Qed.



(** What [report_sweep] shows. *)
Lemma report_sweep_shown (s2 s3 : MPPT.App) :
  MPPT.lengths_agree s2 ->
  MPPT.report_sweep s2 = Ok tt s3 ->
  (MPPT.voltages s2 = [] /\
   MPPT.ui s3 =
     MPPT.ui s2 ++
     [Log "Sweep completed but no valid data points were collected";
      Warning "Sweep Error"
        "No valid data points were collected during the sweep."]) \/
  (exists v c p,
     is_mpp (MPPT.voltages s2) (MPPT.currents s2) (MPPT.powers s2) v c p /\
     MPPT.ui s3 =
       MPPT.ui s2 ++
       [LogMpp v c p; StatusMpp v c p; MarkMpp v c p;
        LogCompleted (List.length (MPPT.voltages s2))]).
Proof.
  intros [Hvc Hcp] Hrep.
  destruct (MPPT.voltages s2) as [|v0 vs0] eqn:Hv.
  - left. split; [reflexivity|].
    rewrite (report_sweep_no_data s2 Hv) in Hrep. now injection Hrep as <-.
  - right. unfold MPPT.report_sweep, bind at 1, get in Hrep.
    rewrite Hv in Hrep. simpl in Hrep.
    destruct (mpp_search_spec s2) as (v & c & p & st1 & _ & Hmpp & Hfind & Hshown & _).
    + intros Hnil. rewrite Hnil in Hcp. simpl in Hvc, Hcp. lia.
    + rewrite Hv. congruence.
    + exact Hcp.
    + rewrite (bind_ok _ _ _ _ _ Hfind) in Hrep.
      unfold MPPT.show, modify in Hrep. injection Hrep as <-.
      exists v, c, p. rewrite Hv in Hmpp. split; [exact Hmpp|].
      assert (Hui : MPPT.ui st1 =
                    MPPT.ui s2 ++ [LogMpp v c p; StatusMpp v c p; MarkMpp v c p]).
      { pose proof (find_mppt_point_hoare (MPPT.ui_since any_events s2)) as H.
        specialize (H ltac:(intros; mppt_ui_grows) s2 (mppt_ui_grows_refl s2)).
        rewrite Hfind in H. simpl in H. destruct H as (t & Ht & _).
        unfold MPPT.shown in Hshown. rewrite Ht, skipn_length_app in Hshown.
        now rewrite Ht, Hshown. }
      unfold_setters. simpl. rewrite Hui, <- app_assoc. reflexivity.
Qed.



(** ** Simulation mode and the handle *)





(** ** Closing the window of [MPPT.py] *)


(** ** Connecting in [sweep.py] *)


(** ** Runs in simulation mode *)

(** As [hoare_step], but what is read of the state is known to satisfy the
    invariant: the mode it holds is the simulation mode. *)
Ltac simulating_step :=
  match goal with
  | |- hoare (MPPT.simulating _) (bind get _) _ =>
      let st := fresh "st" in
      let H := fresh "Hsim" in
      apply hoare_get_bind; intros st [H _];
      rewrite ?H; cbn [negb]; rewrite ?andb_false_r; cbv iota
  | _ => hoare_step
  end.

Lemma simulated_voltage_sweep (E : Env) (start stop : Q) (points : Z)
    (delay : Q) (s0 : MPPT.App) :
  hoare (MPPT.simulating s0) (MPPT.voltage_sweep E start stop points delay)
    (MPPT.simulating s0).
Proof.
  mppt_unfold. repeat simulating_step; try assumption.
  apply sweep_loop_hoare. intros idx v.
  mppt_unfold. repeat simulating_step; assumption.
Qed.



(** ** A click on Abort during a later iteration *)

Lemma run_status_no_data (shown : list UiEvent) (text : string) :
  quiet shown ->
  run_status
    (shown ++
     [Log text;
      Warning "Sweep Error"
        "No valid data points were collected during the sweep."])
  = COMPLETED_WITH_NO_DATA.
Proof.
  intros Hq. unfold run_status. rewrite !existsb_app. simpl.
  assert (Ha : existsb is_abort_notice shown = false).
  { unfold quiet in Hq. induction shown as [|e t IH]; [reflexivity|].
    simpl in *. apply andb_true_iff in Hq as [He Ht].
    unfold quiet_event in He. apply andb_true_iff in He as [He _].
    apply negb_true_iff in He. rewrite He. simpl. exact (IH Ht). }
  rewrite Ha. simpl. now rewrite orb_true_r.
Qed.

Section ClickLater.

Variable E : Env.
Variables (stop delay : Q) (total : nat).

(** An iteration in which no click is delivered keeps the flag down and
    shows neither notice. *)
Lemma iteration_without_click (s0 : MPPT.App) (idx : nat) (v : Q) :
  abort_clicked E idx = false ->
  hoare (MPPT.running_quietly s0)
    (MPPT.sweep_iteration E stop delay total idx v)
    (MPPT.running_quietly s0).
Proof.
  intros Hno s Hs. unfold MPPT.sweep_iteration, bind at 1, get.
  rewrite (proj1 Hs). revert s Hs.
  change (hoare (MPPT.running_quietly s0)
            (bind (try_except (MPPT.sweep_point E stop delay total idx v)
                     any_exception (fun e => MPPT.show (LogPointError v e)))
                  (fun _ => ret false))
            (MPPT.running_quietly s0)).
  mppt_unfold. rewrite Hno.
  hoare_steps; mppt_running_quietly.
Qed.

(** An iteration that is not left at its head shows neither notice, click
    or no click. *)
Lemma iteration_shows_no_notice (s0 s : MPPT.App) (idx : nat) (v : Q) :
  MPPT.abort_sweep s = false ->
  MPPT.ui_since quiet s0 s ->
  MPPT.ui_since quiet s0
    (state_of (MPPT.sweep_iteration E stop delay total idx v s)).
Proof.
  intros Hflag Hs. unfold MPPT.sweep_iteration, bind at 1, get.
  rewrite Hflag. revert s Hs Hflag. intros s Hs _. revert s Hs.
  change (hoare (MPPT.ui_since quiet s0)
            (bind (try_except (MPPT.sweep_point E stop delay total idx v)
                     any_exception (fun e => MPPT.show (LogPointError v e)))
                  (fun _ => ret false))
            (MPPT.ui_since quiet s0)).
  mppt_unfold. hoare_steps; mppt_ui_since.
Qed.

(** The iterations before the first click: the loop goes through all of
    them, and goes on with the rest from the state they leave. *)
Lemma loop_before_click (s0 : MPPT.App) (pre : list Q) :
  forall idx s,
    (forall j, (j < List.length pre)%nat -> abort_clicked E (idx + j) = false) ->
    MPPT.running_quietly s0 s ->
    exists s',
      MPPT.sweep_loop E stop delay total idx pre s = Ok tt s' /\
      MPPT.running_quietly s0 s' /\
      (List.length (MPPT.voltages s')
       <= List.length (MPPT.voltages s) + List.length pre)%nat /\
      forall rest,
        MPPT.sweep_loop E stop delay total idx (pre ++ rest) s =
        MPPT.sweep_loop E stop delay total (idx + List.length pre) rest s'.
Proof.
  induction pre as [|a pre IH]; intros idx s Hno Hs.
  - exists s. simpl.
    split; [reflexivity|]. split; [exact Hs|]. split; [lia|].
    intros rest. now rewrite Nat.add_0_r.
  - destruct (sweep_iteration_data E stop delay total idx a s)
      as (s1 & Hrun & Hdata).
    rewrite (proj1 Hs) in Hrun, Hdata. simpl in Hdata.
    assert (Hs1 : MPPT.running_quietly s0 s1).
    { pose proof (iteration_without_click s0 idx a) as H.
      specialize (H ltac:(rewrite <- (Nat.add_0_r idx); apply Hno; simpl; lia)
                    s Hs).
      now rewrite Hrun in H. }
    destruct (IH (S idx) s1) as (s' & Hloop & Hs' & Hlen & Hrest);
      [|exact Hs1|].
    { intros j Hj. replace (S idx + j)%nat with (idx + S j)%nat by lia.
      apply Hno. simpl. lia. }
    exists s'. simpl. rewrite (bind_ok _ _ _ _ _ Hrun).
    split; [exact Hloop|]. split; [exact Hs'|]. split.
    + assert (List.length (MPPT.voltages s1)
              <= S (List.length (MPPT.voltages s)))%nat.
      { destruct (raised _).
        - destruct Hdata as (-> & _). lia.
        - destruct Hdata as (v & c & -> & _). rewrite length_app. simpl. lia. }
      lia.
    + intros rest. rewrite (bind_ok _ _ _ _ _ Hrun), Hrest. f_equal. lia.
Qed.

End ClickLater.



(** On the bench, a click while the last of the three points is taken: the
    run is not aborted, it completes with its two samples, and the flag is
    left set. *)
Example bench_click_in_last_iteration :
  exists st',
    MPPT.start_sweep Bench.late_env Bench.mppt = Ok tt st' /\
    run_status (MPPT.shown Bench.mppt st') = COMPLETED /\
    MPPT.voltages st' = [2; 2] /\
    MPPT.abort_sweep st' = true.
Proof.
  eexists. split; [vm_compute; reflexivity|].
  split; [reflexivity|]. split; reflexivity.
Qed.
